(** * Icon rasterizer and PNG encoder of the Web Automation Assistant
      Firefox extension

    Shallow embedding of [firefox-extension/icons/generate-icons-from-svg.py]
    and verification of its specification.

    - Python integers are [Z]; a [bytes] / [bytearray] object is a [list Z]
      whose elements are meant to lie in [0, 256).
    - Python floats are IEEE-754 binary64 numbers, modelled with the
      Standard Library's [SpecFloat] at precision 53 and [emax] 1024.
    - Exceptions are explicit: a computation yields [Ok v] or [Raise e].
    - The pixel buffer is a mutable [bytearray] shared by the drawing
      routines; they are written in a state-and-exception monad in which
      the buffer survives a raised exception, as the Python object does.
    - [zlib.compress] is a parameter of the development; [zlib.crc32] is
      the standard CRC-32. *)

From Stdlib Require Import ZArith Lia Bool SpecFloat DecimalString.
From Stdlib Require QArith.
From stdpp Require Import base list strings gmap.

Local Open Scope Z_scope.

(** ** Python runtime *)

Module Py.

Inductive exn := IndexError | ValueError | OverflowError | StructError.

Inductive res (A : Type) :=
| Ok (a : A)
| Raise (e : exn).
Arguments Ok {A} a.
Arguments Raise {A} e.

Definition rbind {A B} (r : res A) (k : A -> res B) : res B :=
  match r with
  | Ok a => k a
  | Raise e => Raise e
  end.

(** [range(a, b)] *)
Definition range (a b : Z) : list Z :=
  map (fun i : nat => a + Z.of_nat i) (seq 0 (Z.to_nat (b - a))).

(** [range(a, b, step)] for a positive [step] *)
Definition range_step (a b step : Z) : list Z :=
  map (fun i : nat => a + step * Z.of_nat i)
      (seq 0 (Z.to_nat ((b - a + step - 1) / step))).

Definition len {A} (l : list A) : Z := Z.of_nat (length l).

(** Normalisation of a slice bound against a sequence of length [n]:
    a negative bound counts from the end, and the result is clamped
    to [0, n]. *)
Definition clip (n i : Z) : Z :=
  if i <? 0 then Z.max 0 (i + n) else Z.min i n.

(** [l[i:j]] *)
Definition get_slice {A} (l : list A) (i j : Z) : list A :=
  let lo := clip (len l) i in
  let hi := clip (len l) j in
  take (Z.to_nat (hi - lo)) (drop (Z.to_nat lo) l).

(** [l[i:j] = v] on a [bytearray]: the slice is replaced by [v],
    whatever the two lengths are. *)
Definition set_slice {A} (l : list A) (i j : Z) (v : list A) : list A :=
  let lo := clip (len l) i in
  let hi := Z.max lo (clip (len l) j) in
  take (Z.to_nat lo) l ++ v ++ drop (Z.to_nat hi) l.

(** [l[i]] *)
Definition get_item {A} (l : list A) (i : Z) : res A :=
  let k := if i <? 0 then i + len l else i in
  if (k <? 0) || (len l <=? k) then Raise IndexError
  else match l !! Z.to_nat k with
       | Some a => Ok a
       | None => Raise IndexError
       end.

Definition is_byte (v : Z) : Prop := 0 <= v < 256.
Definition is_byteb (v : Z) : bool := (0 <=? v) && (v <? 256).

(** [b[i] = v] on a [bytearray]: the value must be in [range(256)]; it is
    converted before the index is looked at, then the index is checked. *)
Definition set_item (l : list Z) (i v : Z) : res (list Z) :=
  if is_byteb v then
    let k := if i <? 0 then i + len l else i in
    if (k <? 0) || (len l <=? k) then Raise IndexError
    else Ok (<[Z.to_nat k := v]> l)
  else Raise ValueError.

(** [sorted(l, key=key)]: a stable sort.  Inserting every element in
    front of the first element whose key is not smaller keeps equal keys
    in their original order. *)
Fixpoint insert_by {A} (key : A -> Z) (a : A) (l : list A) : list A :=
  match l with
  | [] => [a]
  | b :: l' => if key a <=? key b then a :: b :: l' else b :: insert_by key a l'
  end.

Definition sorted {A} (key : A -> Z) (l : list A) : list A :=
  foldr (insert_by key) [] l.

(** *** Floats: IEEE-754 binary64 *)

Definition prec : Z := 53.
Definition emax : Z := 1024.

Abbreviation float := spec_float.

(** The float written as the integer [z] ([1], [255.0]). *)
Definition float_lit (z : Z) : float := binary_normalize prec emax z 0 false.

(** The decimal literal [n/d], correctly rounded ([0.47] is [47/100]). *)
Definition float_dec (n d : Z) : float :=
  SFdiv prec emax (float_lit n) (float_lit d).

(** Conversion of an [int] operand of a mixed operation: correctly
    rounded, [OverflowError] when the integer is too large. *)
Definition float_of_int (z : Z) : res float :=
  match binary_normalize prec emax z 0 false with
  | S754_infinity _ => Raise OverflowError
  | f => Ok f
  end.

Definition fadd : float -> float -> float := SFadd prec emax.
Definition fsub : float -> float -> float := SFsub prec emax.
Definition fmul : float -> float -> float := SFmul prec emax.
Definition fdiv : float -> float -> float := SFdiv prec emax.

(** [a / b] on two ints with [b <> 0]: the correctly rounded quotient. *)
Definition int_truediv (a b : Z) : res float :=
  let f (z : Z) : float :=
    match z with
    | Z0 => S754_zero false
    | Zpos p => S754_finite false p 0
    | Zneg p => S754_finite true p 0
    end in
  match SFdiv prec emax (f a) (f b) with
  | S754_infinity _ => Raise OverflowError
  | q => Ok q
  end.

(** [int(f)]: truncation towards zero. *)
Definition int_of_float (f : float) : res Z :=
  match f with
  | S754_zero _ => Ok 0
  | S754_finite s m e =>
      let v := match e with
               | Z0 => Zpos m
               | Zpos _ => Z.shiftl (Zpos m) e
               | Zneg _ => Z.shiftr (Zpos m) (- e)
               end in
      Ok (if s then - v else v)
  | S754_infinity _ => Raise OverflowError
  | S754_nan => Raise ValueError
  end.

(** *** [struct.pack] with a big-endian format of [I] and [B] codes *)

Inductive fmt_code := fmt_I | fmt_B.

Definition be32 (v : Z) : list Z :=
  [Z.shiftr v 24 mod 256; Z.shiftr v 16 mod 256; Z.shiftr v 8 mod 256; v mod 256].

Definition pack_one (c : fmt_code) (v : Z) : res (list Z) :=
  match c with
  | fmt_I => if (0 <=? v) && (v <? 2 ^ 32) then Ok (be32 v) else Raise StructError
  | fmt_B => if (0 <=? v) && (v <? 256) then Ok [v] else Raise StructError
  end.

Fixpoint struct_pack (fmt : list fmt_code) (vs : list Z) : res (list Z) :=
  match fmt, vs with
  | [], [] => Ok []
  | c :: fmt', v :: vs' =>
      rbind (pack_one c v) (fun b =>
      rbind (struct_pack fmt' vs') (fun bs => Ok (b ++ bs)))
  | _, _ => Raise StructError
  end.

(** *** [zlib.crc32]: CRC-32 with the reflected polynomial [0xEDB88320] *)

Definition crc_step (c : Z) : Z :=
  if Z.testbit c 0 then Z.lxor (Z.shiftr c 1) 3988292384 else Z.shiftr c 1.

Definition crc_byte (c b : Z) : Z :=
  Nat.iter 8 crc_step (Z.lxor c (b mod 256)).

Definition crc32 (data : list Z) : Z :=
  Z.land (Z.lxor (fold_left crc_byte data 4294967295) 4294967295) 4294967295.

End Py.
Import Py.

(** ** The pixel buffer and the drawing monad *)

(** A shape handed to a drawing routine. *)
Inductive shape :=
| Circle (cx cy radius : Z) (color : list Z)
| Triangle (points : list (Z * Z)) (color : list Z).

(** The [bytearray] the routines draw on, with two ghost fields: the
    pixel coordinates whose bytes a routine has assigned, and the drawing
    calls made, both most recent first. *)
Record canvas := Canvas {
  pixels : list Z;
  touched : list (Z * Z);
  calls : list shape
}.

(** State and exceptions: the state survives a raised exception. *)
Definition ST (S A : Type) : Type := S -> res A * S.

Definition ret {S A} (a : A) : ST S A := fun s => (Ok a, s).
Definition raise {S A} (e : exn) : ST S A := fun s => (Raise e, s).
Definition bind {S A B} (m : ST S A) (k : A -> ST S B) : ST S B :=
  fun s => match m s with
           | (Ok a, s') => k a s'
           | (Raise e, s') => (Raise e, s')
           end.
Definition lift {S A} (r : res A) : ST S A := fun s => (r, s).

Notation "'let*' x ':=' m 'in' k" := (bind m (fun x => k))
  (at level 10, x pattern, m at level 100, k at level 200).
Notation "m ';;' k" := (bind m (fun _ => k))
  (at level 100, k at level 200, right associativity).
Notation "'let?' x ':=' r 'in' k" := (rbind r (fun x => k))
  (at level 10, x pattern, r at level 100, k at level 200).

(** [for x in l: body] *)
Fixpoint for_each {S X} (l : list X) (body : X -> ST S unit) : ST S unit :=
  match l with
  | [] => ret tt
  | x :: l' => body x ;; for_each l' body
  end.

Abbreviation M := (ST canvas).

Definition read_slice (i j : Z) : M (list Z) :=
  fun s => (Ok (get_slice (pixels s) i j), s).

(** [pixels[i:j] = v] for a sequence [v] of byte values, as every colour
    of the program is; the conversion of [v] to bytes, which refuses a
    value outside [range(256)], is not modelled. *)
Definition assign_slice (i j : Z) (v : list Z) : M unit :=
  fun s => (Ok tt, Canvas (set_slice (pixels s) i j v) (touched s) (calls s)).

Definition assign_item (i v : Z) : M unit :=
  fun s => match set_item (pixels s) i v with
           | Ok l => (Ok tt, Canvas l (touched s) (calls s))
           | Raise e => (Raise e, s)
           end.

Definition touch (x y : Z) : M unit :=
  fun s => (Ok tt, Canvas (pixels s) ((x, y) :: touched s) (calls s)).

Definition enter (sh : shape) : M unit :=
  fun s => (Ok tt, Canvas (pixels s) (touched s) (sh :: calls s)).

(** ** The drawing routines *)

Definition draw_circle (width height cx cy radius : Z) (color : list Z) : M unit :=
  enter (Circle cx cy radius color) ;;
  for_each (range (Z.max 0 (cy - radius)) (Z.min height (cy + radius + 1))) (fun y =>
    for_each (range (Z.max 0 (cx - radius)) (Z.min width (cx + radius + 1))) (fun x =>
      let dx := x - cx in
      let dy := y - cy in
      if dx * dx + dy * dy <=? radius * radius then
        let idx := (y * width + x) * 4 in
        touch x y ;;
        assign_slice idx (idx + 4) color
      else ret tt)).

(** One edge [(p1, p2)] of the scanline loop: [None] when the edge is
    skipped, otherwise the interpolated, truncated intersection. *)
Definition edge_x (y : Z) (p1 p2 : Z * Z) : res (option Z) :=
  if p1.2 =? p2.2 then Ok None
  else if (y <? Z.min p1.2 p2.2) || (Z.max p1.2 p2.2 <? y) then Ok None
  else
    let? t := int_truediv (y - p1.2) (p2.2 - p1.2) in
    let? d := float_of_int (p2.1 - p1.1) in
    let? a := float_of_int p1.1 in
    let? x := int_of_float (fadd a (fmul t d)) in
    Ok (Some x).

Fixpoint x_intersections (y : Z) (edges : list ((Z * Z) * (Z * Z))) : res (list Z) :=
  match edges with
  | [] => Ok []
  | (p1, p2) :: edges' =>
      let? ox := edge_x y p1 p2 in
      let? xs := x_intersections y edges' in
      Ok (match ox with Some x => x :: xs | None => xs end)
  end.

(** One colour channel of the blend:
    [int(existing[k] * (1 - alpha) + color[k] * alpha)]. *)
Definition blend_channel (existing color : list Z) (alpha : float) (k : Z) : res Z :=
  let? e := get_item existing k in
  let? fe := float_of_int e in
  let? c := get_item color k in
  let? fc := float_of_int c in
  int_of_float (fadd (fmul fe (fsub (float_lit 1) alpha)) (fmul fc alpha)).

Definition blend_pixel (color : list Z) (idx : Z) : M unit :=
  let* existing := read_slice idx (idx + 4) in
  let* alpha := lift (let? a := get_item color 3 in
                      let? fa := float_of_int a in
                      Ok (fdiv fa (float_lit 255))) in
  let* v0 := lift (blend_channel existing color alpha 0) in
  assign_item idx v0 ;;
  let* v1 := lift (blend_channel existing color alpha 1) in
  assign_item (idx + 1) v1 ;;
  let* v2 := lift (blend_channel existing color alpha 2) in
  assign_item (idx + 2) v2 ;;
  let* v3 := lift (let? e3 := get_item existing 3 in
                   let? c3 := get_item color 3 in
                   Ok (Z.max e3 c3)) in
  assign_item (idx + 3) v3.

Definition draw_triangle (width height : Z) (points : list (Z * Z)) (color : list Z)
  : M unit :=
  enter (Triangle points color) ;;
  match sorted snd points with
  | p0 :: p1 :: p2 :: _ =>
      if p2.2 =? p0.2 then ret tt
      else
        for_each (range p0.2 (p2.2 + 1)) (fun y =>
          if (y <? 0) || (height <=? y) then ret tt
          else
            let* xs := lift (x_intersections y [(p0, p1); (p1, p2); (p2, p0)]) in
            if 2 <=? len xs then
              let xs := sorted id xs in
              for_each (range (Z.max 0 (hd 0 xs)) (Z.min width (List.last xs 0 + 1)))
                (fun x =>
                   let idx := (y * width + x) * 4 in
                   touch x y ;;
                   blend_pixel color idx)
            else ret tt)
  | _ => raise IndexError
  end.

(** A fresh [bytearray(n)]. *)
Definition bytearray (n : Z) : res (list Z) :=
  if n <? 0 then Raise ValueError else Ok (replicate (Z.to_nat n) 0).

Definition blank (w h : Z) : canvas := Canvas (replicate (Z.to_nat (w * h * 4)) 0) [] [].

(** ** The PNG encoder *)

Definition signature : list Z := [137; 80; 78; 71; 13; 10; 26; 10].
Definition tag_IHDR : list Z := [73; 72; 68; 82].
Definition tag_IDAT : list Z := [73; 68; 65; 84].
Definition tag_IEND : list Z := [73; 69; 78; 68].

(** The scanline loop of [create_png]: a filter byte, then the four-byte
    slices of the row. *)
Definition raw_data (width height : Z) (pixels : list Z) : list Z :=
  fold_left (fun raw y =>
    fold_left (fun raw x =>
                 let idx := (y * width + x) * 4 in
                 raw ++ get_slice pixels idx (idx + 4))
              (range 0 width) (raw ++ [0]))
    (range 0 height) [].

Section Encoder.

(** [zlib.compress(data, level)] *)
Variable zlib_compress : list Z -> Z -> list Z.

Definition create_png (width height : Z) (pixels : list Z) : res (list Z) :=
  let? ihdr_data := struct_pack [fmt_I; fmt_I; fmt_B; fmt_B; fmt_B; fmt_B; fmt_B]
                                [width; height; 8; 6; 0; 0; 0] in
  let ihdr_crc := crc32 (tag_IHDR ++ ihdr_data) in
  let? ihdr_len := struct_pack [fmt_I] [13] in
  let? ihdr_sum := struct_pack [fmt_I] [ihdr_crc] in
  let ihdr_chunk := ihdr_len ++ tag_IHDR ++ ihdr_data ++ ihdr_sum in
  let compressed := zlib_compress (raw_data width height pixels) 9 in
  let idat_crc := crc32 (tag_IDAT ++ compressed) in
  let? idat_len := struct_pack [fmt_I] [len compressed] in
  let? idat_sum := struct_pack [fmt_I] [idat_crc] in
  let idat_chunk := idat_len ++ tag_IDAT ++ compressed ++ idat_sum in
  let iend_crc := crc32 tag_IEND in
  let? iend_len := struct_pack [fmt_I] [0] in
  let? iend_sum := struct_pack [fmt_I] [iend_crc] in
  let iend_chunk := iend_len ++ tag_IEND ++ iend_sum in
  Ok (signature ++ ihdr_chunk ++ idat_chunk ++ iend_chunk).

(** ** The icon composer *)

(** [int(n * c)] for the float literal [c = num/den]. *)
Definition scaled (n num den : Z) : res Z :=
  let? f := float_of_int n in
  int_of_float (fmul f (float_dec num den)).

(** [pixels = bytearray(n)]: the routine's own, fresh buffer. *)
Definition allocate (n : Z) : M unit :=
  fun s => match bytearray n with
           | Ok l => (Ok tt, Canvas l (touched s) (calls s))
           | Raise e => (Raise e, s)
           end.

(** The loop that fills the fresh buffer with transparent pixels. *)
Definition clear : M unit :=
  fun s => for_each (range_step 0 (len (pixels s)) 4)
                    (fun i => assign_slice i (i + 4) [0; 0; 0; 0]) s.

Definition to_png (width height : Z) : M (list Z) :=
  fun s => (create_png width height (pixels s), s).

Definition create_icon (size : Z) : M (list Z) :=
  let width := size in
  let height := size in
  allocate (width * height * 4) ;;
  clear ;;
  let center := size / 2 in
  let* r := lift (scaled size 47 100) in
  draw_circle width height center center r [30; 64; 175; 255] ;;
  let* r := lift (scaled size 45 100) in
  draw_circle width height center center r [59; 130; 246; 255] ;;
  let* r := lift (scaled size 42 100) in
  draw_circle width height center center r [30; 64; 175; 255] ;;
  let* r := lift (scaled size 15 100) in
  draw_circle width height center center r [239; 68; 68; 255] ;;
  (if 32 <=? size then
     let* arrow_size := lift (scaled size 2 10) in
     let left := center - arrow_size in
     let right := center + arrow_size in
     let* a := lift (scaled arrow_size 7 10) in
     let top := center - a in
     let* a := lift (scaled arrow_size 7 10) in
     let bottom := center + a in
     let points := [(left, top); (left, bottom); (right, center)] in
     draw_triangle width height points [255; 255; 255; 176]
   else ret tt) ;;
  (if 48 <=? size then
     let dot_radius := Z.max 2 (size / 25) in
     let* margin := lift (scaled size 23 100) in
     draw_circle width height margin margin dot_radius [16; 185; 129; 255] ;;
     draw_circle width height (size - margin) margin dot_radius [16; 185; 129; 255] ;;
     draw_circle width height margin (size - margin) dot_radius [16; 185; 129; 255] ;;
     draw_circle width height (size - margin) (size - margin) dot_radius
                 [16; 185; 129; 255]
   else ret tt) ;;
  to_png width height.

Definition create_recording_icon (size : Z) : M (list Z) :=
  let width := size in
  let height := size in
  allocate (width * height * 4) ;;
  clear ;;
  let center := size / 2 in
  let* r := lift (scaled size 47 100) in
  draw_circle width height center center r [127; 29; 29; 255] ;;
  let* r := lift (scaled size 45 100) in
  draw_circle width height center center r [239; 68; 68; 255] ;;
  let* r := lift (scaled size 42 100) in
  draw_circle width height center center r [127; 29; 29; 255] ;;
  let* r := lift (scaled size 2 10) in
  draw_circle width height center center r [255; 0; 0; 255] ;;
  (if 32 <=? size then
     let* r := lift (scaled size 8 100) in
     draw_circle width height center center r [255; 255; 255; 255]
   else ret tt) ;;
  (if 48 <=? size then
     let dot_radius := Z.max 2 (size / 25) in
     let* margin := lift (scaled size 23 100) in
     draw_circle width height margin margin dot_radius [239; 68; 68; 255] ;;
     draw_circle width height (size - margin) margin dot_radius [239; 68; 68; 255] ;;
     draw_circle width height margin (size - margin) dot_radius [239; 68; 68; 255] ;;
     draw_circle width height (size - margin) (size - margin) dot_radius
                 [239; 68; 68; 255]
   else ret tt) ;;
  to_png width height.

(** A call of a composer: it starts from nothing and owns its buffer. *)
Definition fresh : canvas := Canvas [] [] [].

(** ** The generator script *)

(** The files of the working directory and the lines printed. *)
Record world := World {
  files : gmap string (list Z);
  stdout : list string
}.

Definition str (n : Z) : string := NilZero.string_of_int (Z.to_int n).

(** [open(name, 'wb')] creates or truncates the file. *)
Definition open_wb (name : string) : ST world unit :=
  fun w => (Ok tt, World (<[name := []]> (files w)) (stdout w)).

Definition write (name : string) (data : list Z) : ST world unit :=
  fun w => (Ok tt, World (<[name := default [] (files w !! name) ++ data]> (files w))
                         (stdout w)).

Definition print (line : string) : ST world unit :=
  fun w => (Ok tt, World (files w) (stdout w ++ [line])).

Definition sizes : list Z := [16; 32; 48; 128].

Definition generate : ST world unit :=
  print "Generating normal icons..." ;;
  for_each sizes (fun size =>
    let filename := ("icon-" +:+ str size +:+ ".png")%string in
    open_wb filename ;;
    let* data := lift (create_icon size fresh).1 in
    write filename data ;;
    print ("Created: " +:+ filename)) ;;
  print (String (Ascii.ascii_of_nat 10) "Generating recording icons...") ;;
  for_each sizes (fun size =>
    let filename := ("icon-recording-" +:+ str size +:+ ".png")%string in
    open_wb filename ;;
    let* data := lift (create_recording_icon size fresh).1 in
    write filename data ;;
    print ("Created: " +:+ filename)) ;;
  print (String (Ascii.ascii_of_nat 10) "All icons generated successfully!") ;;
  print "These icons feature:" ;;
  print "- Blue background with record button and play arrow" ;;
  print "- Green corner indicators (on larger sizes)" ;;
  print "- Recording icons with red theme and white center dot".

End Encoder.

(** * Specification vocabulary

    The predicates and functions in which the properties are stated. *)

(** ** Pixels and images *)

(** The four bytes of the pixel at [p = (x, y)], as the routines read
    them: [pixels[idx:idx+4]] with [idx = (y * width + x) * 4]. *)
Definition pixel_at (px : list Z) (width : Z) (p : Z * Z) : list Z :=
  let idx := (p.2 * width + p.1) * 4 in
  get_slice px idx (idx + 4).

(** The coordinate [p] lies in [0, width) x [0, height). *)
Definition in_image (width height : Z) (p : Z * Z) : Prop :=
  0 <= p.1 < width /\ 0 <= p.2 < height.


(** The coordinate [p] is within [radius] of the centre. *)
Definition in_disk (cx cy radius : Z) (p : Z * Z) : Prop :=
  (p.1 - cx) * (p.1 - cx) + (p.2 - cy) * (p.2 - cy) <= radius * radius.

(** [l'] is [l] with the bytes from offset [i] on replaced by [v]. *)
Definition spliced {A} (l : list A) (i : nat) (v l' : list A) : Prop :=
  length l' = length l /\
  forall m, l' !! m = if decide (i <= m < i + length v)%nat then v !! (m - i)%nat
                      else l !! m.

(** ** Invariants of the canvas *)

(** [keeps I bad m R]: from a state satisfying [I], the computation [m]
    ends in a state satisfying [I], whether it returns or raises; a
    returned value satisfies [R], and a raised exception is not [bad]. *)
Definition keeps {S A} (I : S -> Prop) (bad : exn -> Prop) (m : ST S A) (R : A -> Prop)
  : Prop :=
  forall s, I s ->
    I (m s).2 /\ match (m s).1 with Ok a => R a | Raise e => ~ bad e end.

(** The buffer holds [n] bytes, each in the range of a byte. *)
Definition sound (n : Z) (s : canvas) : Prop :=
  len (pixels s) = n /\ Forall is_byte (pixels s).


(** The buffer is sound and the drawing calls made so far are [cs]. *)
Definition tracked (n : Z) (cs : list shape) (s : canvas) : Prop :=
  sound n s /\ calls s = cs.

(** [returns P m Q]: from a state satisfying [P], [m] returns normally in
    a state satisfying [Q]. *)
Definition returns {A} (P : canvas -> Prop) (m : M A) (Q : canvas -> Prop) : Prop :=
  forall s, P s -> exists a, (m s).1 = Ok a /\ Q (m s).2.

(** [ends P m Q]: from a state satisfying [P], [m] ends, normally or not,
    in a state satisfying [Q]. *)
Definition ends {A} (P : canvas -> Prop) (m : M A) (Q : canvas -> Prop) : Prop :=
  forall s, P s -> Q (m s).2.

(** ** What a scan paints *)

(** After the pixels [ws] have been assigned, in this order, starting from
    the canvas [s0]: the buffer keeps its size, the log has grown by [ws],
    every pixel of [ws] is related by [F] to its original value, and every
    other pixel of the image is unchanged. *)
Definition painted (F : list Z -> list Z -> Prop) (width height : Z) (s0 : canvas)
           (ws : list (Z * Z)) (s1 : canvas) : Prop :=
  len (pixels s1) = width * height * 4 /\
  touched s1 = rev ws ++ touched s0 /\
  calls s1 = calls s0 /\
  Forall (in_image width height) ws /\
  forall p, in_image width height p ->
            (p ∈ ws -> F (pixel_at (pixels s0) width p) (pixel_at (pixels s1) width p)) /\
            (p ∉ ws -> pixel_at (pixels s1) width p = pixel_at (pixels s0) width p).

(** The pixels of one row, and of a list of rows, in scan order. *)
Definition row_pixels (y : Z) (xs : list Z) : list (Z * Z) := (fun x => (x, y)) <$> xs.

Definition scan_pixels (row : Z -> list Z) (ys : list Z) : list (Z * Z) :=
  ys ≫= fun y => row_pixels y (row y).

(** The run of pixels the scanline loop blends on row [y]. *)
Definition triangle_row (width height : Z) (p0 p1 p2 : Z * Z) (y : Z) : list Z :=
  if (y <? 0) || (height <=? y) then []
  else match x_intersections y [(p0, p1); (p1, p2); (p2, p0)] with
       | Ok xs =>
           if 2 <=? len xs then
             range (Z.max 0 (hd 0 (sorted id xs)))
                   (Z.min width (List.last (sorted id xs) 0 + 1))
           else []
       | Raise _ => []
       end.

(** ** The alpha blend *)

(** The blend of one channel as the specification words it:
    [existing * (1 - a) + color * a] with [a = A / 255], in exact rational
    arithmetic, truncated to an integer. *)
Definition blend_exact (existing color A : Z) : Z :=
  let a := QArith_base.Qdiv (QArith_base.inject_Z A) (QArith_base.inject_Z 255) in
  let out := QArith_base.Qplus
               (QArith_base.Qmult (QArith_base.inject_Z existing)
                                  (QArith_base.Qminus (QArith_base.inject_Z 1) a))
               (QArith_base.Qmult (QArith_base.inject_Z color) a) in
  Z.quot (QArith_base.Qnum out) (Zpos (QArith_base.Qden out)).

(** The channel value [v] is the exact blend truncated or, when the exact
    blend is a whole number, possibly one below it. *)
Definition near_exact (existing color A v : Z) : Prop :=
  v = blend_exact existing color A \/
  (255 * blend_exact existing color A = existing * (255 - A) + color * A /\
   v = blend_exact existing color A - 1).

(** The value the code stores in one channel: the expression of
    [blend_channel] on the bytes [existing] and [color] with
    [a = A / 255.0], evaluated as Python evaluates it, in binary64, and
    truncated by [int]. *)
Definition blend_value (existing color A : Z) : res Z :=
  let? fa := float_of_int A in
  let a := fdiv fa (float_lit 255) in
  let? fe := float_of_int existing in
  let? fc := float_of_int color in
  int_of_float (fadd (fmul fe (fsub (float_lit 1) a)) (fmul fc a)).

(** The pixel [new] is what the code makes of the pixel [old] under the
    colour: the three colour channels are the values the code computes,
    alpha is the larger of the two. *)
Definition blended (color old new : list Z) : Prop :=
  exists e0 e1 e2 e3 c0 c1 c2 A v0 v1 v2,
    old = [e0; e1; e2; e3] /\ color = [c0; c1; c2; A] /\
    new = [v0; v1; v2; Z.max e3 A] /\
    blend_value e0 c0 A = Ok v0 /\
    blend_value e1 c1 A = Ok v1 /\
    blend_value e2 c2 A = Ok v2.

(** The pixel [new] is the blend of the colour over the pixel [old] as the
    specification words it, up to the rounding of whole numbers: each
    colour channel is near the exact blend, alpha is the larger of the
    two. *)
Definition blended_near (color old new : list Z) : Prop :=
  exists e0 e1 e2 e3 c0 c1 c2 A v0 v1 v2,
    old = [e0; e1; e2; e3] /\ color = [c0; c1; c2; A] /\
    new = [v0; v1; v2; Z.max e3 A] /\
    near_exact e0 c0 A v0 /\
    near_exact e1 c1 A v1 /\
    near_exact e2 c2 A v2.

(** A float that is neither an infinity nor a NaN. *)
Definition regular (f : float) : Prop :=
  match f with
  | S754_zero _ | S754_finite _ _ _ => True
  | S754_infinity _ | S754_nan => False
  end.

(** A binary64 value that is [+0], or positive with an exponent in
    [-64, 0]. *)
Definition small (f : float) : bool :=
  match f with
  | S754_zero false => true
  | S754_finite false _ e => (-64 <=? e) && (e <=? 0)
  | _ => false
  end.

(** The value of a finite float, scaled by [2^64]. *)
Definition scaled_value (f : float) : Z :=
  match f with
  | S754_finite _ m e => Zpos m * 2 ^ (e + 64)
  | _ => 0
  end.

(** For the alpha [A]: the two products of the blend are small for every
    byte, and each is within [2^-40] of its exact value. *)
Definition blend_terms_close (A : Z) : bool :=
  match float_of_int A with
  | Ok fa =>
      let a := fdiv fa (float_lit 255) in
      let na := fsub (float_lit 1) a in
      forallb (fun z =>
                 match float_of_int z with
                 | Ok fz =>
                     let u := fmul fz na in
                     let w := fmul fz a in
                     small u && small w &&
                     (Z.abs (255 * scaled_value u - z * (255 - A) * 2 ^ 64) <=? 255 * 2 ^ 24) &&
                     (Z.abs (255 * scaled_value w - z * A * 2 ^ 64) <=? 255 * 2 ^ 24)
                 | Raise _ => false
                 end) (range 0 256)
  | Raise _ => false
  end.

Definition is_ok_byte (r : res Z) : bool :=
  match r with Ok v => is_byteb v | Raise _ => false end.

(** Blending the colour over any byte yields a byte on every channel. *)
Definition blend_safe (color : list Z) : bool :=
  match color with
  | [c0; c1; c2; A] =>
      forallb (fun e => is_ok_byte (blend_value e c0 A) &&
                        is_ok_byte (blend_value e c1 A) &&
                        is_ok_byte (blend_value e c2 A)) (range 0 256)
      && is_byteb A
  | _ => false
  end.

(** No scanline of the triangle raises while interpolating. *)
Definition scan_safe (height : Z) (points : list (Z * Z)) : bool :=
  match sorted snd points with
  | p0 :: p1 :: p2 :: _ =>
      forallb (fun y => match x_intersections y [(p0, p1); (p1, p2); (p2, p0)] with
                        | Ok _ => true
                        | Raise _ => false
                        end) (range p0.2 (p2.2 + 1))
  | _ => false
  end.

(** ** The PNG stream *)

(** A chunk as the PNG format lays it out: the payload length, the type
    tag, the payload, and the CRC-32 of tag and payload. *)
Definition chunk (tag payload : list Z) : list Z :=
  be32 (len payload) ++ tag ++ payload ++ be32 (crc32 (tag ++ payload)).

(** The value of a big-endian byte string. *)
Definition be_value (bs : list Z) : Z := fold_left (fun acc b => acc * 256 + b) bs 0.

(** The scanlines of the image in row order, each behind a filter byte 0. *)
Definition scanlines (width height : Z) (pixels : list Z) : list Z :=
  seq 0 (Z.to_nat height) ≫= fun y =>
    0 :: take (Z.to_nat (4 * width)) (drop (y * Z.to_nat (4 * width)) pixels).

(** The value fits an unsigned 32-bit field. *)
Definition in_u32 (v : Z) : bool := (0 <=? v) && (v <? 2 ^ 32).

(** A chunk's two integer fields decode to the payload length and to the
    CRC-32 of tag and payload. *)
Definition framed (tag payload : list Z) : Prop :=
  length tag = 4%nat /\
  length (be32 (len payload)) = 4%nat /\
  be_value (be32 (len payload)) = len payload /\
  length (be32 (crc32 (tag ++ payload))) = 4%nat /\
  be_value (be32 (crc32 (tag ++ payload))) = crc32 (tag ++ payload).

(** ** Independence from the start state *)

Definition same_pixels (s1 s2 : canvas) : Prop := pixels s1 = pixels s2.

(** A computation on the canvas is [blind] from a relation [P] between two
    start states when it returns the same result from both, and, when it
    returns normally, leaves the same pixels: nothing it does depends on
    anything but the pixels. *)
Definition blind {A} (P : canvas -> canvas -> Prop) (m : M A) : Prop :=
  forall s1 s2, P s1 s2 ->
    (m s1).1 = (m s2).1 /\
    forall a, (m s1).1 = Ok a -> pixels (m s1).2 = pixels (m s2).2.

(** A sequence of file writes, and the content it leaves in a file. *)
Definition apply_writes (ws : list (string * list Z)) (fs : gmap string (list Z))
  : gmap string (list Z) :=
  fold_left (fun fs kv => <[kv.1 := kv.2]> fs) ws fs.

Definition last_write (k : string) (ws : list (string * list Z)) : option (list Z) :=
  fold_left (fun acc kv => if decide (kv.1 = k) then Some kv.2 else acc) ws None.

(** A computation on the world is [oblivious] when its result, the files
    it writes and the lines it prints do not depend on the world it
    starts from. *)
Definition oblivious {A} (m : ST world A) : Prop :=
  exists (r : res A) ws ls,
    forall w, m w = (r, World (apply_writes ws (files w)) (stdout w ++ ls)).

(** ** The shapes of an icon *)

Definition is_triangle (sh : shape) : bool :=
  match sh with Triangle _ _ => true | Circle _ _ _ _ => false end.

(** The play arrow is the only triangle a composer draws. *)
Definition arrow_drawn (cs : list shape) : bool := existsb is_triangle cs.

(** A corner dot is a circle whose centre is not the centre of the icon. *)
Definition is_corner_dot (size : Z) (sh : shape) : bool :=
  match sh with
  | Circle cx cy _ _ => negb ((cx =? size / 2) && (cy =? size / 2))
  | Triangle _ _ => false
  end.

Definition corner_dots (size : Z) (cs : list shape) : nat :=
  length (List.filter (is_corner_dot size) cs).

(** The recording indicator is the white circle at the centre. *)
Definition indicator_drawn (size : Z) (cs : list shape) : bool :=
  existsb (fun sh => match sh with
                     | Circle cx cy _ [255; 255; 255; 255] =>
                         (cx =? size / 2) && (cy =? size / 2)
                     | _ => false
                     end) cs.

(** ** Composers and their images *)

(** [encodes zc n width height P m]: from a state satisfying [P], the
    composer [m] ends with a sound buffer of [n] bytes, and its result is
    the encoder's on that buffer: no drawing step has raised. *)
Definition encodes (zc : list Z -> Z -> list Z) (n width height : Z)
           (P : canvas -> Prop) (m : M (list Z)) : Prop :=
  forall s, P s ->
    sound n (m s).2 /\ (m s).1 = create_png zc width height (pixels (m s).2).

(** The buffer holds [n] zero bytes. *)
Definition zeroed (n : Z) (s : canvas) : Prop := pixels s = replicate (Z.to_nat n) 0.

(** The image is opaque on the disc of the given radius around its centre
    and transparent black everywhere else. *)
Definition disc_mask (size radius : Z) (s : canvas) : Prop :=
  sound (size * size * 4) s /\
  forall p, in_image size size p ->
    (in_disk (size / 2) (size / 2) radius p ->
       pixel_at (pixels s) size p !! 3%nat = Some 255) /\
    (~ in_disk (size / 2) (size / 2) radius p ->
       pixel_at (pixels s) size p = [0; 0; 0; 0]).

Definition in_diskb (cx cy radius : Z) (p : Z * Z) : bool :=
  (p.1 - cx) * (p.1 - cx) + (p.2 - cy) * (p.2 - cy) <=? radius * radius.

(** Every pixel that the scan of the triangle blends lies in the disc. *)
Definition fill_inside (width height : Z) (points : list (Z * Z)) (cx cy radius : Z)
  : bool :=
  match sorted snd points with
  | p0 :: p1 :: p2 :: _ =>
      forallb (in_diskb cx cy radius)
              (scan_pixels (triangle_row width height p0 p1 p2) (range p0.2 (p2.2 + 1)))
  | _ => true
  end.

(** * Verification *)

(** ** The model on small inputs *)

Example range_ex : range 2 5 = [2; 3; 4] /\ range 5 2 = [] /\ range_step 0 9 4 = [0; 4; 8].
Proof. repeat split; reflexivity. Qed.

Example slice_ex :
  get_slice [1; 2; 3; 4; 5] 1 3 = [2; 3] /\
  get_slice [1; 2; 3; 4; 5] 3 9 = [4; 5] /\
  set_slice [1; 2; 3; 4; 5] 1 3 [7; 8] = [1; 7; 8; 4; 5] /\
  set_slice [1; 2; 3; 4; 5] 4 8 [7; 8] = [1; 2; 3; 4; 7; 8].
Proof. repeat split; reflexivity. Qed.

Example sorted_stable :
  sorted snd [(1, 5); (2, 3); (3, 5); (4, 3)] = [(2, 3); (4, 3); (1, 5); (3, 5)].
Proof. reflexivity. Qed.

Example crc32_IEND : crc32 [73; 69; 78; 68] = 2923585666.
Proof. vm_compute. reflexivity. Qed.

Example float_ex :
  rbind (float_of_int 16) (fun f => int_of_float (fmul f (float_dec 47 100))) = Ok 7 /\
  rbind (float_of_int 128) (fun f => int_of_float (fmul f (float_dec 23 100))) = Ok 29 /\
  rbind (int_truediv 1 3) (fun t => int_of_float (fmul t (float_lit 10))) = Ok 3.
Proof. repeat split; vm_compute; reflexivity. Qed.

Example circle_ex :
  pixels (draw_circle 2 2 0 0 1 [1; 2; 3; 4] (blank 2 2)).2 =
    [1; 2; 3; 4; 1; 2; 3; 4; 1; 2; 3; 4; 0; 0; 0; 0].
Proof. vm_compute. reflexivity. Qed.

Example triangle_ex :
  let r := draw_triangle 3 3 [(0, 0); (0, 2); (2, 1)] [200; 100; 50; 128] (blank 3 3) in
  r.1 = Ok tt /\
  pixels r.2 = [100; 50; 25; 128; 0; 0; 0; 0; 0; 0; 0; 0;
                100; 50; 25; 128; 100; 50; 25; 128; 100; 50; 25; 128;
                100; 50; 25; 128; 0; 0; 0; 0; 0; 0; 0; 0] /\
  touched r.2 = [(0, 2); (2, 1); (1, 1); (0, 1); (0, 0)].
Proof. vm_compute. repeat split; reflexivity. Qed.

Example str_ex : str 128 = "128"%string.
Proof. reflexivity. Qed.

(** The blend is computed in binary64: over the reals
    [3 * (1 - 5/255) + 3 * (5/255)] is 3, in floating point it is just
    below and truncates to 2. *)
Example blend_rounds_down : blend_value 3 3 5 = Ok 2.
Proof. vm_compute. reflexivity. Qed.

Example icon16_png_head :
  (let? png := (create_icon (fun d _ => d) 16 fresh).1 in Ok (take 29 png))
  = Ok [137; 80; 78; 71; 13; 10; 26; 10; 0; 0; 0; 13; 73; 72; 68; 82;
        0; 0; 0; 16; 0; 0; 0; 16; 8; 6; 0; 0; 0].
Proof. vm_compute. reflexivity. Qed.


(** ** Slices and items of an in-range index *)

Lemma clip_inside n i : 0 <= i <= n -> clip n i = i.
Proof. intros H. unfold clip. destruct (Z.ltb_spec i 0); lia. Qed.

Lemma get_slice_inside {A} (l : list A) i k :
  0 <= i -> 0 <= k -> i + k <= len l ->
  get_slice l i (i + k) = take (Z.to_nat k) (drop (Z.to_nat i) l).
Proof.
  intros Hi Hk Hl. unfold get_slice.
  rewrite !clip_inside by lia. f_equal. lia.
Qed.

Lemma set_slice_inside {A} (l : list A) i k v :
  0 <= i -> 0 <= k -> i + k <= len l ->
  set_slice l i (i + k) v = take (Z.to_nat i) l ++ v ++ drop (Z.to_nat (i + k)) l.
Proof.
  intros Hi Hk Hl. unfold set_slice.
  rewrite !clip_inside by lia. do 3 f_equal. lia.
Qed.

Lemma set_slice_len {A} (l : list A) i k v :
  0 <= i -> 0 <= k -> i + k <= len l -> len v = k ->
  len (set_slice l i (i + k) v) = len l.
Proof.
  intros Hi Hk Hl Hv. rewrite set_slice_inside by lia.
  unfold len in *. rewrite !length_app, length_take, length_drop. lia.
Qed.

Lemma set_slice_bytes (l : list Z) i j v :
  Forall is_byte l -> Forall is_byte v -> Forall is_byte (set_slice l i j v).
Proof.
  intros Hl Hv. unfold set_slice.
  repeat apply Forall_app_2; auto using Forall_take, Forall_drop.
Qed.

Lemma set_item_len l i v l' : set_item l i v = Ok l' -> len l' = len l.
Proof.
  unfold set_item. destruct (is_byteb v); [| discriminate].
  destruct (_ || _); [discriminate |].
  intros [= <-]. unfold len. by rewrite length_insert.
Qed.

Lemma is_byteb_spec v : is_byteb v = true <-> is_byte v.
Proof. unfold is_byteb, is_byte. lia. Qed.

Lemma set_item_bytes l i v l' :
  set_item l i v = Ok l' -> Forall is_byte l -> Forall is_byte l'.
Proof.
  unfold set_item. destruct (is_byteb v) eqn:Hv; [| discriminate].
  destruct (_ || _); [discriminate |].
  intros [= <-] Hl. apply Forall_insert; [done | by apply is_byteb_spec].
Qed.

Lemma set_item_inside l i v :
  0 <= i < len l -> is_byte v -> set_item l i v = Ok (<[Z.to_nat i := v]> l).
Proof.
  intros Hi Hv. unfold set_item.
  apply is_byteb_spec in Hv as ->.
  destruct (Z.ltb_spec i 0); [lia |].
  destruct (Z.ltb_spec i 0); [lia |].
  by destruct (Z.leb_spec (len l) i); [lia |].
Qed.


Lemma set_item_ok_inv l i v l' :
  0 <= i -> set_item l i v = Ok l' -> l' = <[Z.to_nat i := v]> l.
Proof.
  intros Hi. unfold set_item.
  destruct (is_byteb v); [| discriminate].
  destruct (Z.ltb_spec i 0); [lia |].
  destruct (_ || _); [discriminate |].
  by intros [= <-].
Qed.


Lemma in_range a b x : x ∈ range a b <-> a <= x < b.
Proof.
  unfold range. rewrite list_elem_of_fmap. split.
  - intros (i & -> & Hi). apply elem_of_seq in Hi. lia.
  - intros H. exists (Z.to_nat (x - a)). split; [lia |].
    apply elem_of_seq. lia.
Qed.

Lemma NoDup_range a b : NoDup (range a b).
Proof.
  unfold range. apply NoDup_fmap_2; [| apply NoDup_seq].
  intros i j. lia.
Qed.

(** ** A small program logic for the drawing monad *)

Lemma keeps_ret {S A} (I : S -> Prop) bad (a : A) (R : A -> Prop) :
  R a -> keeps I bad (ret a) R.
Proof. intros Ha s Hs. by split. Qed.

Lemma keeps_raise {S A} (I : S -> Prop) (bad : exn -> Prop) e (R : A -> Prop) :
  ~ bad e -> keeps I bad (raise e) R.
Proof. intros He s Hs. by split. Qed.

Lemma keeps_lift {S A} (I : S -> Prop) bad (r : res A) (R : A -> Prop) :
  match r with Ok a => R a | Raise e => ~ bad e end -> keeps I bad (lift r) R.
Proof. intros Hr s Hs. by split. Qed.

Lemma keeps_bind {S A B} (I : S -> Prop) bad (m : ST S A) (k : A -> ST S B) R R' :
  keeps I bad m R -> (forall a, R a -> keeps I bad (k a) R') ->
  keeps I bad (bind m k) R'.
Proof.
  intros Hm Hk s Hs. destruct (Hm s Hs) as [H1 H2]. unfold bind.
  destruct (m s) as [[a | e] s1]; simpl in *.
  - by apply Hk.
  - by split.
Qed.

Lemma keeps_for_each {S X} (I : S -> Prop) bad (l : list X) (body : X -> ST S unit) :
  (forall x, x ∈ l -> keeps I bad (body x) (fun _ => True)) ->
  keeps I bad (for_each l body) (fun _ => True).
Proof.
  induction l as [| x l IH]; intros Hb; simpl.
  - by apply keeps_ret.
  - eapply keeps_bind.
    + apply Hb. left.
    + intros _ _. apply IH. intros y Hy. apply Hb. by right.
Qed.

(** ** Buffer invariants of the drawing routines *)

Lemma pixel_index_inside width height x y :
  0 <= x < width -> 0 <= y < height ->
  0 <= (y * width + x) * 4 /\ (y * width + x) * 4 + 4 <= width * height * 4.
Proof. intros Hx Hy. nia. Qed.

Lemma keeps_assign_item (I : canvas -> Prop) bad i v :
  (forall s l, I s -> set_item (pixels s) i v = Ok l ->
               I (Canvas l (touched s) (calls s))) ->
  (forall s, I s -> forall e, set_item (pixels s) i v = Raise e -> ~ bad e) ->
  keeps I bad (assign_item i v) (fun _ => True).
Proof.
  intros H1 H2 s Hs. unfold assign_item.
  destruct (set_item (pixels s) i v) as [l | e] eqn:E; simpl.
  - split; [by eapply H1 | done].
  - split; [done | by eapply H2].
Qed.

Lemma keeps_step (I : canvas -> Prop) bad (f : canvas -> canvas) :
  (forall s, I s -> I (f s)) ->
  keeps I bad (fun s => (Ok tt, f s)) (fun _ => True).
Proof. intros Hf s Hs. split; [by apply Hf | done]. Qed.

Lemma keeps_read_slice (I : canvas -> Prop) bad i j :
  keeps I bad (read_slice i j) (fun _ => True).
Proof. by intros s Hs. Qed.

Lemma draw_circle_sound width height cx cy radius color :
  len color = 4 -> Forall is_byte color ->
  keeps (sound (width * height * 4)) (fun _ => True)
        (draw_circle width height cx cy radius color) (fun _ => True).
Proof.
  intros Hc Hb. unfold draw_circle.
  eapply keeps_bind; [by apply keeps_step | intros _ _].
  apply keeps_for_each. intros y Hy%in_range.
  apply keeps_for_each. intros x Hx%in_range.
  case_match; [| by apply keeps_ret].
  eapply keeps_bind; [by apply keeps_step | intros _ _].
  intros s [Hl Hs]. split; [| done]. unfold assign_slice, sound. cbn [snd pixels].
  destruct (pixel_index_inside width height x y) as [? ?]; [lia | lia |].
  split; [| by apply set_slice_bytes].
  rewrite set_slice_len; lia.
Qed.

Lemma blend_pixel_sound n color idx :
  keeps (sound n) (fun _ => False) (blend_pixel color idx) (fun _ => True).
Proof.
  assert (Hset : forall i v, keeps (sound n) (fun _ => False) (assign_item i v)
                                   (fun _ => True)).
  { intros i v. apply keeps_assign_item; [| tauto].
    intros s l [Hl Hs] E. split; simpl.
    - by rewrite (set_item_len _ _ _ _ E).
    - by eapply set_item_bytes. }
  assert (Hlift : forall A (r : res A), keeps (sound n) (fun _ => False) (lift r)
                                              (fun _ => True)).
  { intros A r. apply keeps_lift. destruct r; tauto. }
  unfold blend_pixel.
  eapply keeps_bind; [apply keeps_read_slice | intros existing _].
  repeat (eapply keeps_bind with (R := fun _ => True);
          [first [apply Hlift | apply Hset] | intros ? _]).
  apply Hset.
Qed.

Lemma draw_triangle_sound n width height points color :
  keeps (sound n) (fun _ => False) (draw_triangle width height points color)
        (fun _ => True).
Proof.
  unfold draw_triangle.
  eapply keeps_bind; [by apply keeps_step | intros _ _].
  destruct (sorted snd points) as [| p0 [| p1 [| p2 rest]]];
    try (apply keeps_raise; tauto).
  case_match; [by apply keeps_ret |].
  apply keeps_for_each. intros y _.
  case_match; [by apply keeps_ret |].
  eapply keeps_bind with (R := fun _ => True).
  { apply keeps_lift. destruct (x_intersections _ _); tauto. }
  intros xs _. case_match; [| by apply keeps_ret].
  apply keeps_for_each. intros x _.
  eapply keeps_bind; [by apply keeps_step | intros _ _].
  apply blend_pixel_sound.
Qed.

(** ** Outcomes of the drawing routines *)

Lemma length_insert_by {A} (key : A -> Z) a l :
  length (insert_by key a l) = S (length l).
Proof.
  induction l as [| b l IH]; simpl; [done |].
  case_match; simpl; by rewrite ?IH.
Qed.

Lemma length_sorted {A} (key : A -> Z) (l : list A) : length (sorted key l) = length l.
Proof.
  induction l as [| a l IH]; simpl; [done |].
  by rewrite length_insert_by, IH.
Qed.

Lemma for_each_returns {S X} (l : list X) (body : X -> ST S unit) s :
  (forall x s, (body x s).1 = Ok tt) -> (for_each l body s).1 = Ok tt.
Proof.
  intros Hb. revert s. induction l as [| x l IH]; intros s; simpl; [done |].
  unfold bind. specialize (Hb x s). destruct (body x s) as [[[] | e] s1]; [| done].
  apply IH.
Qed.

Lemma draw_circle_returns width height cx cy radius color s :
  (draw_circle width height cx cy radius color s).1 = Ok tt.
Proof.
  unfold draw_circle, bind. cbn [enter].
  apply for_each_returns. intros y s1.
  apply for_each_returns. intros x s2.
  by case_match.
Qed.

Lemma float_of_int_raises z e : float_of_int z = Raise e -> e = OverflowError.
Proof. unfold float_of_int. destruct (binary_normalize _ _ _ _ _); congruence. Qed.

Lemma int_truediv_raises a b e : int_truediv a b = Raise e -> e = OverflowError.
Proof. unfold int_truediv. destruct (SFdiv _ _ _ _); congruence. Qed.







(** ** Pixels of the flat buffer *)

Lemma spliced_slice {A} (l v : list A) i :
  (i + length v <= length l)%nat ->
  spliced l i v (take i l ++ v ++ drop (i + length v) l).
Proof.
  intros Hl. split.
  - rewrite !length_app, length_take, length_drop. lia.
  - intros m. case_decide as Hm.
    + rewrite lookup_app_r by (rewrite length_take; lia).
      rewrite length_take, Nat.min_l by lia.
      apply lookup_app_l. lia.
    + destruct (decide (m < i)%nat).
      * rewrite lookup_app_l by (rewrite length_take; lia).
        by apply lookup_take_lt.
      * rewrite lookup_app_r by (rewrite length_take; lia).
        rewrite length_take, Nat.min_l by lia.
        rewrite lookup_app_r by lia.
        rewrite lookup_drop. f_equal. lia.
Qed.

Lemma spliced_inserts {A} (l : list A) i v0 v1 v2 v3 :
  (i + 4 <= length l)%nat ->
  spliced l i [v0; v1; v2; v3]
          (<[(i + 3)%nat := v3]> (<[(i + 2)%nat := v2]> (<[(i + 1)%nat := v1]> (<[i := v0]> l)))).
Proof.
  intros Hl. split.
  - by rewrite !length_insert.
  - intros m. cbn [length].
    rewrite !list_lookup_insert, !length_insert.
    repeat case_decide; try lia; try done;
      try (replace (m - i)%nat with 0%nat by lia; done);
      try (replace (m - i)%nat with 1%nat by lia; done);
      try (replace (m - i)%nat with 2%nat by lia; done);
      try (replace (m - i)%nat with 3%nat by lia; done).
Qed.

Lemma spliced_same {A} (l v l' : list A) i :
  spliced l i v l' -> length v = 4%nat -> take 4 (drop i l') = v.
Proof.
  intros [Hlen Hm] Hv. apply list_eq. intros j.
  destruct (decide (j < 4)%nat).
  - rewrite lookup_take_lt, lookup_drop, Hm by done.
    rewrite decide_True by lia. f_equal. lia.
  - rewrite lookup_take_ge by lia. symmetry. apply lookup_ge_None. lia.
Qed.

Lemma spliced_other {A} (l v l' : list A) i j :
  spliced l i v l' -> (j + 4 <= i \/ i + length v <= j)%nat ->
  take 4 (drop j l') = take 4 (drop j l).
Proof.
  intros [Hlen Hm] Hj. apply list_eq. intros k.
  destruct (decide (k < 4)%nat).
  - rewrite !lookup_take_lt, !lookup_drop, Hm by done.
    by rewrite decide_False by lia.
  - by rewrite !lookup_take_ge by lia.
Qed.

Lemma pixel_at_inside px width height p :
  len px = width * height * 4 -> in_image width height p ->
  pixel_at px width p = take 4 (drop (Z.to_nat ((p.2 * width + p.1) * 4)) px).
Proof.
  intros Hl [Hx Hy]. unfold pixel_at.
  destruct (pixel_index_inside width height p.1 p.2 Hx Hy).
  rewrite get_slice_inside by lia. done.
Qed.

Lemma pixel_index_inj width height p q :
  in_image width height p -> in_image width height q ->
  p.2 * width + p.1 = q.2 * width + q.1 -> p = q.
Proof.
  destruct p as [x y], q as [x' y']. unfold in_image. cbn [fst snd].
  intros [Hx Hy] [Hx' Hy'] E.
  assert (y = y') by nia. subst. f_equal. lia.
Qed.

(** Replacing the bytes of the pixel [p0] changes that pixel and no other. *)
Lemma spliced_pixels px px' width height p0 v :
  len px = width * height * 4 -> in_image width height p0 -> length v = 4%nat ->
  spliced px (Z.to_nat ((p0.2 * width + p0.1) * 4)) v px' ->
  len px' = width * height * 4 /\
  pixel_at px' width p0 = v /\
  forall p, in_image width height p -> p <> p0 ->
            pixel_at px' width p = pixel_at px width p.
Proof.
  intros Hl Hp0 Hv Hs.
  assert (Hl' : len px' = width * height * 4).
  { destruct Hs as [Hs _]. unfold len in *. lia. }
  split; [done |]. split.
  - rewrite (pixel_at_inside px' width height) by done. by eapply spliced_same.
  - intros p Hp Hne.
    rewrite (pixel_at_inside px' width height), (pixel_at_inside px width height) by done.
    eapply spliced_other; [done |].
    assert (p.2 * width + p.1 <> p0.2 * width + p0.1).
    { intros E. apply Hne. by eapply pixel_index_inj. }
    destruct Hp as [? ?], Hp0 as [? ?].
    assert (0 <= p.2 * width + p.1) by nia.
    assert (0 <= p0.2 * width + p0.1) by nia.
    lia.
Qed.

(** ** Clipping *)










(** ** Loops with a progress-indexed invariant *)

Lemma for_each_prefix {S X} (P : list X -> S -> Prop) (l : list X)
      (body : X -> ST S unit) :
  (forall done x rest s s',
      l = done ++ x :: rest -> P done s -> body x s = (Ok tt, s') ->
      P (done ++ [x]) s') ->
  forall s s', P [] s -> for_each l body s = (Ok tt, s') -> P l s'.
Proof.
  intros Hb.
  assert (G : forall rest done s s',
             l = done ++ rest -> P done s -> for_each rest body s = (Ok tt, s') ->
             P l s').
  { induction rest as [| x rest IH]; intros done s s' El HP E.
    - cbn in E. injection E as <-. by rewrite El, app_nil_r.
    - cbn [for_each] in E. unfold bind in E.
      destruct (body x s) as [[[] | e] s1] eqn:Eb; [| discriminate].
      eapply (IH (done ++ [x])); [by rewrite <- app_assoc | | exact E].
      by eapply Hb. }
  intros s s' HP E. by eapply (G l []).
Qed.

(** ** What a scan paints *)

Lemma painted_start F width height s0 :
  len (pixels s0) = width * height * 4 -> painted F width height s0 [] s0.
Proof.
  intros Hl. repeat split; try done.
  intros Hp. by apply elem_of_nil in Hp.
Qed.

Lemma painted_step F width height s0 ws s1 s2 p0 v :
  painted F width height s0 ws s1 ->
  in_image width height p0 -> p0 ∉ ws -> length v = 4%nat ->
  spliced (pixels s1) (Z.to_nat ((p0.2 * width + p0.1) * 4)) v (pixels s2) ->
  F (pixel_at (pixels s1) width p0) v ->
  touched s2 = p0 :: touched s1 -> calls s2 = calls s1 ->
  painted F width height s0 (ws ++ [p0]) s2.
Proof.
  intros (Hl & Ht & Hc & Hin & Hpx) Hp0 Hnew Hv Hs HF Ht2 Hc2.
  destruct (spliced_pixels _ _ width height p0 v Hl Hp0 Hv Hs) as (Hl2 & Hsame & Hother).
  split; [done |]. split.
  { rewrite Ht2, Ht, rev_app_distr. done. }
  split; [congruence |]. split.
  { apply Forall_app. split; [done |]. by apply Forall_singleton. }
  intros p Hp. destruct (decide (p = p0)) as [-> | Hne].
  - split.
    + intros _. rewrite Hsame. destruct (Hpx p0 Hp0) as [_ H]. by rewrite <- H.
    + intros H. exfalso. apply H, elem_of_app. right. by apply list_elem_of_singleton.
  - rewrite (Hother p Hp Hne). destruct (Hpx p Hp) as [H1 H2]. split.
    + intros [H | H%list_elem_of_singleton]%elem_of_app; [auto | done].
    + intros H. apply H2. intros H'. apply H, elem_of_app. by left.
Qed.

Lemma elem_of_row_pixels p y xs : p ∈ row_pixels y xs <-> p.2 = y /\ p.1 ∈ xs.
Proof.
  unfold row_pixels. rewrite list_elem_of_fmap. destruct p as [x' y']. cbn. split.
  - intros (x & [= -> ->] & Hx). done.
  - intros [-> Hx]. eauto.
Qed.

Lemma elem_of_scan_pixels p row ys :
  p ∈ scan_pixels row ys <-> p.2 ∈ ys /\ p.1 ∈ row p.2.
Proof.
  unfold scan_pixels. rewrite list_elem_of_bind. split.
  - intros (y & [<- Hx]%elem_of_row_pixels & Hy). done.
  - intros [Hy Hx]. exists p.2. split; [| done]. by apply elem_of_row_pixels.
Qed.

Lemma scan_pixels_snoc row ys y :
  scan_pixels row (ys ++ [y]) = scan_pixels row ys ++ row_pixels y (row y).
Proof. unfold scan_pixels. rewrite bind_app. cbn. by rewrite app_nil_r. Qed.

(** Painting one more row [y] that is not among the rows [ys] painted so
    far, pixel by pixel. *)
Lemma painted_row F width height s0 row ys y (xs : list Z) (body : Z -> M unit) s s' :
  y ∉ ys -> NoDup xs ->
  (forall done x rest s1 s2,
      xs = done ++ x :: rest ->
      painted F width height s0 (scan_pixels row ys ++ row_pixels y done) s1 ->
      (x, y) ∉ scan_pixels row ys ++ row_pixels y done ->
      body x s1 = (Ok tt, s2) ->
      painted F width height s0 (scan_pixels row ys ++ row_pixels y (done ++ [x])) s2) ->
  painted F width height s0 (scan_pixels row ys) s ->
  for_each xs body s = (Ok tt, s') ->
  painted F width height s0 (scan_pixels row ys ++ row_pixels y xs) s'.
Proof.
  intros Hy Hnd Hb Hs E.
  eapply (for_each_prefix
            (fun done => painted F width height s0 (scan_pixels row ys ++ row_pixels y done)));
    [| | exact E].
  - intros done x rest s1 s2 El H1 Eb. eapply Hb; [done | done | | done].
    intros [H | H]%elem_of_app.
    + apply elem_of_scan_pixels in H as [H _]. done.
    + apply elem_of_row_pixels in H as [_ H]. cbn in H.
      rewrite El in Hnd. apply NoDup_app in Hnd as (_ & Hnd & _).
      apply (Hnd x H). left.
  - unfold row_pixels. cbn. by rewrite app_nil_r.
Qed.

Lemma for_each_if {S X} (c : X -> bool) (l : list X) (b : X -> ST S unit) s :
  for_each l (fun x => if c x then b x else ret tt) s =
  for_each (filter (fun x => Is_true (c x)) l) b s.
Proof.
  revert s. induction l as [| x l IH]; intros s; [done |].
  cbn [for_each]. destruct (c x) eqn:E.
  - rewrite filter_cons_True by (by rewrite E). cbn [for_each]. unfold bind.
    destruct (b x s) as [[a | e] s1]; [apply IH | done].
  - rewrite filter_cons_False by (rewrite E; intros []). unfold bind, ret. apply IH.
Qed.

(** ** The filled circle *)

Lemma square_le_bound a r : 0 <= r -> a * a <= r * r -> - r <= a <= r.
Proof. intros Hr Ha. nia. Qed.

Lemma draw_circle_painted width height cx cy radius color s :
  len (pixels s) = width * height * 4 -> len color = 4 ->
  exists ws,
    painted (fun _ new => new = color) width height
            (Canvas (pixels s) (touched s) (Circle cx cy radius color :: calls s))
            ws (draw_circle width height cx cy radius color s).2 /\
    forall p, p ∈ ws <->
              p.2 ∈ range (Z.max 0 (cy - radius)) (Z.min height (cy + radius + 1)) /\
              p.1 ∈ range (Z.max 0 (cx - radius)) (Z.min width (cx + radius + 1)) /\
              in_disk cx cy radius p.
Proof.
  intros Hl Hc.
  pose proof (draw_circle_returns width height cx cy radius color s) as Hr.
  destruct (draw_circle width height cx cy radius color s) as [r s'] eqn:E.
  cbn in Hr. subst r. cbn [snd].
  unfold draw_circle, bind in E. cbn [enter] in E. cbv zeta in E.
  set (s0 := Canvas (pixels s) (touched s) (Circle cx cy radius color :: calls s)) in *.
  set (xs := range (Z.max 0 (cx - radius)) (Z.min width (cx + radius + 1))) in *.
  set (ys := range (Z.max 0 (cy - radius)) (Z.min height (cy + radius + 1))) in *.
  set (row := fun y : Z =>
         filter (fun x => Is_true ((x - cx) * (x - cx) + (y - cy) * (y - cy)
                                   <=? radius * radius)) xs).
  exists (scan_pixels row ys). split.
  - eapply (for_each_prefix
              (fun done => painted (fun _ new => new = color) width height s0
                                   (scan_pixels row done))); [| | exact E].
    2: { by apply painted_start. }
    intros done y rest s1 s2 Ey H1 Eb.
    rewrite scan_pixels_snoc. cbv beta in Eb.
    rewrite (for_each_if (fun x => (x - cx) * (x - cx) + (y - cy) * (y - cy)
                                   <=? radius * radius)) in Eb.
    assert (Hy : y ∈ ys) by (rewrite Ey; apply elem_of_app; right; left).
    assert (Hnd : NoDup ys) by apply NoDup_range.
    eapply painted_row; [| | | exact H1 | exact Eb].
    + rewrite Ey in Hnd. apply NoDup_app in Hnd as (_ & Hnd & _).
      intros H. apply (Hnd y H). left.
    + apply NoDup_filter, NoDup_range.
    + intros dx x restx s3 s4 Ex H3 Hnew Ebx.
      assert (Hx : x ∈ row y) by (rewrite Ex; apply elem_of_app; right; left).
      apply list_elem_of_filter in Hx as [_ Hx].
      apply in_range in Hx, Hy.
      unfold bind, touch, assign_slice in Ebx. injection Ebx as <-. cbn [pixels touched calls].
      unfold row_pixels. rewrite fmap_app, app_assoc. cbn [fmap list_fmap].
      assert (Hin : in_image width height (x, y)) by (unfold in_image; cbn; lia).
      destruct (pixel_index_inside width height x y) as [? ?]; [lia | lia |].
      destruct H3 as (Hl3 & H3').
      eapply painted_step with (v := color); try done; cbn [pixels touched calls fst snd].
      * unfold len in Hc. lia.
      * rewrite set_slice_inside by lia.
        replace (Z.to_nat ((y * width + x) * 4 + 4))
          with (Z.to_nat ((y * width + x) * 4) + length color)%nat
          by (unfold len in Hc; lia).
        apply spliced_slice. unfold len in *. lia.
  - intros p. rewrite elem_of_scan_pixels. unfold row.
    rewrite list_elem_of_filter. unfold in_disk.
    rewrite Is_true_true, Z.leb_le. tauto.
Qed.

(** C4.  After [draw_circle] with a non-negative radius and a four-byte
    colour, every pixel of the image within the radius of the centre holds
    the four bytes of the colour, and every other pixel is unchanged. *)
Theorem draw_circle_fills (width height cx cy radius : Z) (color : list Z) (s : canvas) :
  len (pixels s) = width * height * 4 ->
  len color = 4 ->
  0 <= radius ->
  let s' := (draw_circle width height cx cy radius color s).2 in
  forall p, in_image width height p ->
    (in_disk cx cy radius p -> pixel_at (pixels s') width p = color) /\
    (~ in_disk cx cy radius p ->
       pixel_at (pixels s') width p = pixel_at (pixels s) width p).
Proof.
  intros Hl Hc Hr s' p Hp.
  destruct (draw_circle_painted width height cx cy radius color s Hl Hc)
    as (ws & (_ & _ & _ & _ & Hpx) & Hws).
  destruct (Hpx p Hp) as [H1 H2]. cbn [pixels] in *.
  assert (Hiff : p ∈ ws <-> in_disk cx cy radius p).
  { rewrite Hws, !in_range. unfold in_disk, in_image in *. split; [tauto |].
    intros Hd.
    pose proof (Z.square_nonneg (p.1 - cx)). pose proof (Z.square_nonneg (p.2 - cy)).
    assert (- radius <= p.1 - cx <= radius) by (apply square_le_bound; lia).
    assert (- radius <= p.2 - cy <= radius) by (apply square_le_bound; lia).
    split; [| split; [| done]]; lia. }
  split.
  - intros Hd. apply H1. by apply Hiff.
  - intros Hd. apply H2. by rewrite Hiff.
Qed.

Lemma draw_circle_fills_witness :
  let s := blank 3 2 in
  let s' := (draw_circle 3 2 0 0 1 [1; 2; 3; 4] s).2 in
  pixel_at (pixels s') 3 (1, 0) = [1; 2; 3; 4] /\
  pixel_at (pixels s') 3 (1, 1) = pixel_at (pixels s) 3 (1, 1).
Proof.
  intros s s'.
  pose proof (draw_circle_fills 3 2 0 0 1 [1; 2; 3; 4] s eq_refl eq_refl ltac:(lia)) as H.
  cbv zeta in H. split.
  - apply (H (1, 0)); unfold in_image, in_disk; cbn; lia.
  - apply (H (1, 1)); unfold in_image, in_disk; cbn; lia.
Defined.

(** ** The alpha blend *)

Lemma bind_ok_inv {S A B} (m : ST S A) (k : A -> ST S B) s b s' :
  bind m k s = (Ok b, s') -> exists a s1, m s = (Ok a, s1) /\ k a s1 = (Ok b, s').
Proof.
  unfold bind. destruct (m s) as [[a | e] s1]; [eauto | discriminate].
Qed.

Lemma lift_ok_inv {S A} (r : res A) (s s' : S) a :
  lift r s = (Ok a, s') -> r = Ok a /\ s' = s.
Proof. unfold lift. by intros [= -> ->]. Qed.

Lemma rbind_ok_inv {A B} (r : res A) (k : A -> res B) b :
  rbind r k = Ok b -> exists a, r = Ok a /\ k a = Ok b.
Proof. destruct r; cbn; [eauto | discriminate]. Qed.

Lemma assign_item_ok_inv i v s s' :
  0 <= i -> assign_item i v s = (Ok tt, s') ->
  s' = Canvas (<[Z.to_nat i := v]> (pixels s)) (touched s) (calls s).
Proof.
  intros Hi. unfold assign_item, set_item.
  destruct (is_byteb v); [| discriminate].
  destruct (Z.ltb_spec i 0); [lia |].
  destruct (_ || _); [discriminate |].
  by intros [= <-].
Qed.

Lemma list_of_length_4 {A} (l : list A) :
  length l = 4%nat -> exists a b c d, l = [a; b; c; d].
Proof.
  destruct l as [| a [| b [| c [| d [| ? ?]]]]]; try discriminate. eauto.
Qed.

Lemma blend_channel_value e0 e1 e2 e3 c0 c1 c2 A fa k v :
  float_of_int A = Ok fa ->
  blend_channel [e0; e1; e2; e3] [c0; c1; c2; A] (fdiv fa (float_lit 255)) k = Ok v ->
  (k = 0 -> blend_value e0 c0 A = Ok v) /\
  (k = 1 -> blend_value e1 c1 A = Ok v) /\
  (k = 2 -> blend_value e2 c2 A = Ok v).
Proof.
  intros Hfa Hv. unfold blend_value. rewrite Hfa. cbn [rbind].
  repeat split; intros ->; exact Hv.
Qed.

Lemma blend_pixel_ok color idx s1 s2 :
  0 <= idx -> idx + 4 <= len (pixels s1) -> len color = 4 ->
  blend_pixel color idx s1 = (Ok tt, s2) ->
  exists v,
    blended color (get_slice (pixels s1) idx (idx + 4)) v /\
    spliced (pixels s1) (Z.to_nat idx) v (pixels s2) /\
    touched s2 = touched s1 /\ calls s2 = calls s1.
Proof.
  intros Hi Hn Hc E. unfold blend_pixel in E.
  apply bind_ok_inv in E as (existing & sa & Er & E).
  unfold read_slice in Er. injection Er as <- <-.
  destruct (list_of_length_4 (get_slice (pixels s1) idx (idx + 4)))
    as (e0 & e1 & e2 & e3 & He).
  { rewrite get_slice_inside by lia. rewrite length_take, length_drop.
    unfold len in *. lia. }
  destruct (list_of_length_4 color) as (c0 & c1 & c2 & A & ->);
    [unfold len in Hc; lia |].
  rewrite He in E.
  apply bind_ok_inv in E as (alpha & sa & Ea & E).
  unfold lift in Ea. injection Ea as Ea <-.
  change (get_item [c0; c1; c2; A] 3) with (Ok (A := Z) A) in Ea. cbn [rbind] in Ea.
  apply rbind_ok_inv in Ea as (fa & Hfa & [= <-]).
  apply bind_ok_inv in E as (v0 & sa & E0 & E). injection E0 as E0 <-.
  apply bind_ok_inv in E as ([] & sa & Ew0 & E).
  apply assign_item_ok_inv in Ew0 as ->; [| lia].
  apply bind_ok_inv in E as (v1 & sb & E1 & E). injection E1 as E1 <-.
  apply bind_ok_inv in E as ([] & sb & Ew1 & E).
  apply assign_item_ok_inv in Ew1 as ->; [| lia].
  apply bind_ok_inv in E as (v2 & sc & E2 & E). injection E2 as E2 <-.
  apply bind_ok_inv in E as ([] & sc & Ew2 & E).
  apply assign_item_ok_inv in Ew2 as ->; [| lia].
  apply bind_ok_inv in E as (v3 & sd & E3 & E). injection E3 as E3 <-.
  subst v3.
  apply assign_item_ok_inv in E as ->; [| lia].
  cbn [pixels touched calls].
  exists [v0; v1; v2; Z.max e3 A]. split; [| split; [| done]].
  - rewrite He. exists e0, e1, e2, e3, c0, c1, c2, A, v0, v1, v2.
    repeat split; try done.
    + by apply (blend_channel_value e0 e1 e2 e3 c0 c1 c2 A fa 0 v0 Hfa E0).
    + by apply (blend_channel_value e0 e1 e2 e3 c0 c1 c2 A fa 1 v1 Hfa E1).
    + by apply (blend_channel_value e0 e1 e2 e3 c0 c1 c2 A fa 2 v2 Hfa E2).
  - replace (Z.to_nat (idx + 1)) with (Z.to_nat idx + 1)%nat by lia.
    replace (Z.to_nat (idx + 2)) with (Z.to_nat idx + 2)%nat by lia.
    replace (Z.to_nat (idx + 3)) with (Z.to_nat idx + 3)%nat by lia.
    apply spliced_inserts. unfold len in Hn. lia.
Qed.

(** ** The filled triangle *)

Lemma painted_more F width height s0 ws y s :
  painted F width height s0 ws s ->
  painted F width height s0 (ws ++ row_pixels y []) s.
Proof. unfold row_pixels. cbn. by rewrite app_nil_r. Qed.

(** One run of blended pixels on the row [y], after the rows [ys]. *)
Lemma triangle_row_painted width height color s0 (row : Z -> list Z) ys y lo hi s s' :
  len color = 4 -> y ∉ ys -> 0 <= y < height ->
  painted (blended color) width height s0 (scan_pixels row ys) s ->
  for_each (range (Z.max 0 lo) (Z.min width hi))
    (fun x => touch x y ;; blend_pixel color ((y * width + x) * 4)) s = (Ok tt, s') ->
  painted (blended color) width height s0
          (scan_pixels row ys ++ row_pixels y (range (Z.max 0 lo) (Z.min width hi))) s'.
Proof.
  intros Hc Hy Hyr H1 Eb.
  eapply painted_row; [exact Hy | apply NoDup_range | | exact H1 | exact Eb].
  intros dx x restx s3 s4 Exs H3 Hnew Ebx.
  assert (Hx : x ∈ range (Z.max 0 lo) (Z.min width hi))
    by (rewrite Exs; apply elem_of_app; right; left).
  apply in_range in Hx.
  assert (Hin : in_image width height (x, y)) by (unfold in_image; cbn; lia).
  destruct (pixel_index_inside width height x y) as [? ?]; [lia | lia |].
  apply bind_ok_inv in Ebx as ([] & st & Et & Ebx).
  unfold touch in Et. injection Et as <-.
  pose proof H3 as (Hl3 & _).
  apply blend_pixel_ok in Ebx as (v & Hv & Hs & Ht & Hcl);
    [| lia | cbn [pixels]; lia | done].
  cbn [pixels touched calls] in *.
  unfold row_pixels. rewrite fmap_app, app_assoc. cbn [fmap list_fmap].
  eapply painted_step with (v := v); try done.
  destruct Hv as (? & ? & ? & ? & ? & ? & ? & ? & ? & ? & ? & _ & _ & -> & _). done.
Qed.

(** ** Fully opaque colours *)

Lemma bytes_check (f : Z -> bool) :
  forallb f (range 0 256) = true -> forall z, is_byte z -> f z = true.
Proof.
  intros H z Hz. apply Is_true_true. apply Is_true_true in H.
  apply forallb_True in H. rewrite Forall_forall in H.
  apply H, in_range. unfold is_byte in Hz. lia.
Qed.

(** [existing * (1 - 255/255.0)] is [0.0] for every byte. *)
Lemma opaque_existing e :
  is_byte e ->
  exists fe, float_of_int e = Ok fe /\
             fmul fe (fsub (float_lit 1) (fdiv (float_lit 255) (float_lit 255)))
             = S754_zero false.
Proof.
  intros He.
  pose proof (bytes_check
    (fun e => match float_of_int e with
              | Ok fe =>
                  match fmul fe (fsub (float_lit 1) (fdiv (float_lit 255) (float_lit 255)))
                  with S754_zero false => true | _ => false end
              | Raise _ => false
              end) ltac:(vm_compute; reflexivity) e He) as H.
  cbv beta in H. destruct (float_of_int e) as [fe |]; [| discriminate].
  exists fe. split; [done |].
  destruct (fmul _ _) as [[] | | |]; done.
Qed.

(** [0.0 + color * (255/255.0)] truncates to [color] for every byte. *)
Lemma opaque_color c :
  is_byte c ->
  exists fc, float_of_int c = Ok fc /\
             int_of_float (fadd (S754_zero false)
                                (fmul fc (fdiv (float_lit 255) (float_lit 255)))) = Ok c.
Proof.
  intros Hc.
  pose proof (bytes_check
    (fun c => match float_of_int c with
              | Ok fc =>
                  match int_of_float (fadd (S754_zero false)
                          (fmul fc (fdiv (float_lit 255) (float_lit 255))))
                  with Ok v => v =? c | Raise _ => false end
              | Raise _ => false
              end) ltac:(vm_compute; reflexivity) c Hc) as H.
  cbv beta in H. destruct (float_of_int c) as [fc |]; [| discriminate].
  exists fc. split; [done |].
  destruct (int_of_float _) as [v |]; [| discriminate].
  apply Z.eqb_eq in H. by subst.
Qed.

Lemma blend_opaque e c : is_byte e -> is_byte c -> blend_value e c 255 = Ok c.
Proof.
  intros He Hc. unfold blend_value.
  change (float_of_int 255) with (Ok (float_lit 255)). cbn [rbind].
  destruct (opaque_existing e He) as (fe & Hfe & Hz).
  destruct (opaque_color c Hc) as (fc & Hfc & Hv).
  rewrite Hfe. cbn [rbind]. rewrite Hfc. cbn [rbind]. by rewrite Hz.
Qed.

Lemma get_slice_bytes (l : list Z) i j : Forall is_byte l -> Forall is_byte (get_slice l i j).
Proof. intros H. unfold get_slice. by apply Forall_take, Forall_drop. Qed.

(** ** Binary64 sums of small values

    The sum of two small binary64 values whose exact sum is at most 255.5
    is rounded to within [2^-43] of it. *)

Lemma digits2_size p : digits2_pos p = Pos.size p.
Proof. induction p; cbn; by rewrite ?IHp. Qed.

(** [2^(d-1) <= p < 2^d] for [d] the number of binary digits of [p]. *)
Lemma digits2_bounds p :
  2 ^ (Zpos (digits2_pos p) - 1) <= Zpos p < 2 ^ Zpos (digits2_pos p).
Proof.
  rewrite digits2_size.
  pose proof (Pos.size_gt p) as Hgt. pose proof (Pos.size_le p) as Hle.
  apply Pos2Z.pos_lt_pos in Hgt. apply Pos2Z.pos_le_pos in Hle.
  rewrite Pos2Z.inj_pow in Hgt, Hle. change (Z.pos p~0) with (2 * Z.pos p) in Hle.
  split; [| done].
  replace (Zpos (Pos.size p)) with (Zpos (Pos.size p) - 1 + 1) in Hle by lia.
  rewrite Z.pow_add_r in Hle by lia. change (2 ^ 1) with 2 in Hle. lia.
Qed.

Lemma digits2_range p k :
  0 <= k -> 2 ^ k <= Zpos p -> k < Zpos (digits2_pos p).
Proof.
  intros Hk Hp. destruct (digits2_bounds p) as [_ H].
  destruct (Z.le_gt_cases (Zpos (digits2_pos p)) k) as [Hle | Hgt]; [| done].
  assert (2 ^ Zpos (digits2_pos p) <= 2 ^ k) by (apply Z.pow_le_mono_r; lia).
  lia.
Qed.

Lemma digits2_upper p k :
  0 <= k -> Zpos p < 2 ^ k -> Zpos (digits2_pos p) <= k.
Proof.
  intros Hk Hp. destruct (digits2_bounds p) as [H _].
  destruct (Z.le_gt_cases (Zpos (digits2_pos p)) k) as [Hle | Hgt]; [done |].
  assert (2 ^ k <= 2 ^ (Zpos (digits2_pos p) - 1)) by (apply Z.pow_le_mono_r; lia).
  lia.
Qed.

Lemma shr_1_m mrs :
  0 <= shr_m mrs -> shr_m (shr_1 mrs) = shr_m mrs / 2 /\ 0 <= shr_m (shr_1 mrs).
Proof.
  destruct mrs as [m r s]. cbn [shr_m]. intros Hm.
  destruct m as [| [p | p |] | p]; cbn [shr_1 shr_m].
  - done.
  - split; [| lia]. apply Z.div_unique with 1; lia.
  - split; [| lia]. apply Z.div_unique with 0; lia.
  - done.
  - lia.
Qed.

Lemma iter_pos_shr_m p : forall mrs,
  0 <= shr_m mrs ->
  shr_m (SpecFloat.iter_pos shr_1 p mrs) = shr_m mrs / 2 ^ Zpos p /\
  0 <= shr_m (SpecFloat.iter_pos shr_1 p mrs).
Proof.
  induction p as [p IH | p IH |]; intros mrs Hm; cbn [SpecFloat.iter_pos].
  - destruct (shr_1_m mrs Hm) as [E1 H1].
    destruct (IH _ H1) as [E2 H2]. destruct (IH _ H2) as [E3 H3].
    split; [| done]. rewrite E3, E2, E1.
    rewrite !Z.div_div by lia. f_equal.
    change (Z.pos p~1) with (2 * Z.pos p + 1).
    rewrite Z.pow_add_r, Z.pow_mul_r by lia.
    change (2 ^ 2) with (2 * 2). rewrite Z.pow_mul_l. change (2 ^ 1) with 2. lia.
  - destruct (IH _ Hm) as [E2 H2]. destruct (IH _ H2) as [E3 H3].
    split; [| done]. rewrite E3, E2.
    rewrite !Z.div_div by lia. f_equal.
    change (Z.pos p~0) with (2 * Z.pos p).
    rewrite Z.pow_mul_r by lia.
    change (2 ^ 2) with (2 * 2). by rewrite Z.pow_mul_l.
  - apply shr_1_m. done.
Qed.

Lemma shr_spec mrs e n :
  0 <= shr_m mrs ->
  shr_m (shr mrs e n).1 = shr_m mrs / 2 ^ Z.max 0 n /\
  (shr mrs e n).2 = e + Z.max 0 n /\
  (n <= 0 -> (shr mrs e n).1 = mrs).
Proof.
  intros Hm. destruct n as [| p | p]; cbn [shr fst snd].
  - rewrite Z.div_1_r. repeat split; lia.
  - destruct (iter_pos_shr_m p mrs Hm) as [E _].
    rewrite Z.max_r by lia. repeat split; [done | lia].
  - rewrite Z.max_l by lia. rewrite Z.div_1_r. repeat split; lia.
Qed.

Lemma rne_bounds q l : q <= round_nearest_even q l <= q + 1.
Proof.
  unfold round_nearest_even. destruct l as [| []]; try lia.
  destruct (Z.even q); lia.
Qed.

Lemma fexp_normal d e : -1021 <= d + e -> fexp 53 1024 (d + e) = d + e - 53.
Proof. intros H. unfold fexp, emin. lia. Qed.

(** Truncating a positive float with a moderate exponent. *)
Lemma trunc_value (r : positive) e :
  -128 <= e ->
  int_of_float (S754_finite false r e) = Ok (Zpos r * 2 ^ (e + 128) / 2 ^ 128).
Proof.
  intros He. cbn [int_of_float]. f_equal.
  assert (H128 : 0 < 2 ^ 128) by (apply Z.pow_pos_nonneg; lia).
  destruct e as [| p | p].
  - cbn [Z.add]. by rewrite Z.div_mul by lia.
  - rewrite Z.shiftl_mul_pow2 by lia.
    rewrite Z.pow_add_r, Z.mul_assoc by lia. by rewrite Z.div_mul by lia.
  - rewrite Z.shiftr_div_pow2 by lia. change (- Z.neg p) with (Z.pos p).
    assert (Hk : 0 < 2 ^ Zpos p) by (apply Z.pow_pos_nonneg; lia).
    assert (E : 2 ^ 128 = 2 ^ (Zneg p + 128) * 2 ^ Zpos p).
    { rewrite <- Z.pow_add_r by lia. f_equal. lia. }
    assert (0 < 2 ^ (Zneg p + 128)) by (apply Z.pow_pos_nonneg; lia).
    rewrite E. rewrite Z.mul_comm.
    rewrite Z.div_mul_cancel_l by lia. done.
Qed.

Lemma round_aux_close (m : positive) e :
  53 <= Zpos (digits2_pos m) -> -116 <= e <= 0 ->
  Zpos m * 2 ^ (e + 128) <= 511 * 2 ^ 127 ->
  exists r e',
    binary_round_aux 53 1024 false (Zpos m) e loc_Exact = S754_finite false r e' /\
    -116 <= e' <= 971 /\
    Zpos m * 2 ^ (e + 128) - 2 ^ 85 <= Zpos r * 2 ^ (e' + 128)
      <= Zpos m * 2 ^ (e + 128) + 2 ^ 85.
Proof.
  intros Hd He Hm.
  set (d := Zpos (digits2_pos m)) in *.
  destruct (digits2_bounds m) as [Hlo Hhi]. fold d in Hlo, Hhi.
  assert (Hd137 : d <= 137).
  { apply digits2_upper; [lia |].
    assert (2 ^ 12 <= 2 ^ (e + 128)) by (apply Z.pow_le_mono_r; lia).
    assert (Zpos m * 2 ^ 12 <= 511 * 2 ^ 127) by nia.
    change (2 ^ 137) with (1024 * 2 ^ 127). change (2 ^ 12) with 4096 in *. lia. }
  unfold binary_round_aux, shr_fexp. cbn [Zdigits2]. fold d.
  rewrite fexp_normal by lia.
  set (n1 := d + e - 53 - e).
  assert (Hn1 : n1 = d - 53) by (unfold n1; lia).
  destruct (shr_spec (shr_record_of_loc (Zpos m) loc_Exact) e n1) as (E1 & E2 & _);
    [cbn; lia |].
  destruct (shr (shr_record_of_loc (Zpos m) loc_Exact) e n1) as [mrs' e'].
  cbn [fst snd shr_record_of_loc shr_m] in E1, E2.
  rewrite Z.max_r in E1, E2 by lia.
  set (q := shr_m mrs') in *.
  assert (Hp1 : 0 < 2 ^ n1) by (apply Z.pow_pos_nonneg; lia).
  assert (Hsplit : 2 ^ (d - 1) = 2 ^ n1 * 2 ^ 52).
  { rewrite <- Z.pow_add_r by lia. f_equal. lia. }
  assert (Hsplit' : 2 ^ d = 2 ^ n1 * 2 ^ 53).
  { rewrite <- Z.pow_add_r by lia. f_equal. lia. }
  assert (Hq : 2 ^ 52 <= q < 2 ^ 53).
  { rewrite E1. split.
    - apply Z.div_le_lower_bound; lia.
    - apply Z.div_lt_upper_bound; lia. }
  assert (Hqm : 2 ^ n1 * q <= Zpos m) by (rewrite E1; apply Z.mul_div_le; lia).
  assert (Hqm' : Zpos m < 2 ^ n1 * (q + 1)).
  { rewrite E1. pose proof (Z.mod_pos_bound (Zpos m) (2 ^ n1) Hp1).
    pose proof (Z.div_mod (Zpos m) (2 ^ n1) ltac:(lia)). lia. }
  pose proof (rne_bounds q (loc_of_shr_record mrs')) as Hq1.
  set (q1 := round_nearest_even q (loc_of_shr_record mrs')) in *.
  destruct q1 as [| pq1 | pq1] eqn:Eq1; [lia | | lia].
  cbn [Zdigits2].
  set (d1 := Zpos (digits2_pos pq1)).
  assert (Hd1 : 53 <= d1 <= 54).
  { split.
    - assert (52 < d1) by (apply digits2_range; lia). lia.
    - apply digits2_upper; [lia |]. change (2 ^ 54) with (2 * 2 ^ 53). lia. }
  rewrite fexp_normal by lia.
  set (n2 := d1 + e' - 53 - e').
  assert (Hn2 : n2 = d1 - 53) by (unfold n2; lia).
  destruct (shr_spec (shr_record_of_loc (Zpos pq1) loc_Exact) e' n2) as (F1 & F2 & _);
    [cbn; lia |].
  destruct (shr (shr_record_of_loc (Zpos pq1) loc_Exact) e' n2) as [mrs'' e''].
  cbn [fst snd shr_record_of_loc shr_m] in F1, F2.
  rewrite Z.max_r in F1, F2 by lia.
  set (r := shr_m mrs'') in *.
  assert (Hp2 : 1 <= 2 ^ n2 <= 2).
  { assert (n2 = 0 \/ n2 = 1) as [-> | ->] by lia; cbn; lia. }
  assert (Hr : 2 ^ 51 <= r).
  { rewrite F1. apply Z.div_le_lower_bound; [lia |].
    change (2 ^ 52) with (2 * 2 ^ 51) in Hq. nia. }
  assert (Hrq : 2 ^ n2 * r <= Zpos pq1) by (rewrite F1; apply Z.mul_div_le; lia).
  assert (Hrq' : Zpos pq1 < 2 ^ n2 * (r + 1)).
  { rewrite F1. pose proof (Z.mod_pos_bound (Zpos pq1) (2 ^ n2) ltac:(lia)).
    pose proof (Z.div_mod (Zpos pq1) (2 ^ n2) ltac:(lia)). lia. }
  destruct r as [| pr | pr] eqn:Er; [lia | | lia].
  assert (He'' : e'' <= 971) by lia.
  pose proof He'' as He3.
  apply Z.leb_le in He''. cbn [Z.sub]. change (1024 - 53) with 971. rewrite He''.
  exists pr, e''. split; [reflexivity |]. split; [lia |].
  set (W := 2 ^ (e + 128)) in *.
  assert (HW : 0 < W) by (apply Z.pow_pos_nonneg; lia).
  assert (Hexp : 2 ^ (e'' + 128) = 2 ^ n2 * (2 ^ n1 * W)).
  { unfold W. rewrite <- !Z.pow_add_r by lia. f_equal. lia. }
  rewrite Hexp.
  set (a := 2 ^ n1) in *. set (b := 2 ^ n2) in *.
  set (R := Zpos pr * b) in *.
  assert (HR : q - 1 <= R <= q + 1) by (unfold R; lia).
  replace (Zpos pr * (b * (a * W))) with (R * (a * W)) by (unfold R; lia).
  set (U := a * W).
  assert (HU : 0 < U) by (unfold U; apply Z.mul_pos_pos; lia).
  assert (HqU : q * U <= Zpos m * W).
  { unfold U. rewrite Z.mul_assoc. apply Z.mul_le_mono_nonneg_r; lia. }
  assert (HqU' : Zpos m * W <= (q + 1) * U).
  { unfold U. rewrite Z.mul_assoc. apply Z.mul_le_mono_nonneg_r; lia. }
  assert (HY : 2 ^ 52 * U <= Zpos m * W).
  { transitivity (q * U); [| exact HqU]. apply Z.mul_le_mono_nonneg_r; lia. }
  assert (HRU : (q - 1) * U <= R * U <= (q + 1) * U).
  { split; apply Z.mul_le_mono_nonneg_r; lia. }
  clearbody U R. clear - Hm HU HqU HqU' HY HRU.
  set (X := Zpos m * W) in *. clearbody X.
  change (2 ^ 52) with 4503599627370496 in HY.
  change (2 ^ 127) with 170141183460469231731687303715884105728 in Hm.
  change (2 ^ 85) with 38685626227668133590597632.
  lia.
Qed.

Lemma pos_iter_xO k : forall m, Zpos (Pos.iter xO m k) = Zpos m * 2 ^ Zpos k.
Proof.
  induction k as [| k IH] using Pos.peano_ind; intros m.
  - cbn. lia.
  - rewrite Pos.iter_succ, Pos2Z.inj_succ, Z.pow_succ_r by lia.
    change (Zpos (Pos.iter xO m k)~0) with (2 * Zpos (Pos.iter xO m k)).
    rewrite IH. lia.
Qed.

Lemma shl_align_value m e e' :
  e' <= e -> Zpos (shl_align m e e').1 = Zpos m * 2 ^ (e - e').
Proof.
  intros H. unfold shl_align. destruct (e' - e) as [| k | k] eqn:E; cbn [fst].
  - replace (e - e') with 0 by lia. cbn. lia.
  - lia.
  - rewrite pos_iter_xO. f_equal. f_equal. lia.
Qed.

Lemma round_close (m : positive) e :
  -64 <= e <= 0 -> Zpos m * 2 ^ (e + 64) <= 511 * 2 ^ 63 ->
  exists Y, int_of_float (binary_round 53 1024 false m e) = Ok (Y / 2 ^ 128) /\
            0 <= Y /\
            Zpos m * 2 ^ (e + 128) - 2 ^ 85 <= Y <= Zpos m * 2 ^ (e + 128) + 2 ^ 85.
Proof.
  intros He Hm. unfold binary_round.
  set (d := Zpos (digits2_pos m)).
  assert (Hd : 1 <= d) by (unfold d; lia).
  destruct (digits2_bounds m) as [Hlo Hhi]. fold d in Hlo, Hhi.
  rewrite fexp_normal by lia.
  assert (Hscale : Zpos m * 2 ^ (e + 128) <= 511 * 2 ^ 127).
  { replace (e + 128) with (e + 64 + 64) by lia. rewrite Z.pow_add_r by lia.
    change (2 ^ 127) with (2 ^ 63 * 2 ^ 64).
    assert (0 < 2 ^ 64) by lia.
    rewrite !Z.mul_assoc.
    set (X := Zpos m * 2 ^ (e + 64)) in *. clearbody X.
    apply Z.mul_le_mono_nonneg_r; lia. }
  assert (Haux : forall mz ez,
            53 <= Zpos (digits2_pos mz) -> -116 <= ez <= 0 ->
            Zpos mz * 2 ^ (ez + 128) = Zpos m * 2 ^ (e + 128) ->
            exists Y, int_of_float (binary_round_aux 53 1024 false (Zpos mz) ez loc_Exact)
                      = Ok (Y / 2 ^ 128) /\ 0 <= Y /\
                      Zpos m * 2 ^ (e + 128) - 2 ^ 85 <= Y
                        <= Zpos m * 2 ^ (e + 128) + 2 ^ 85).
  { intros mz ez Hdz Hez Hv.
    destruct (round_aux_close mz ez Hdz Hez) as (r & e' & -> & He' & Hr);
      [by rewrite Hv |].
    exists (Zpos r * 2 ^ (e' + 128)). rewrite trunc_value by lia.
    split; [done |]. split; [| by rewrite <- Hv].
    apply Z.mul_nonneg_nonneg; [lia |]. apply Z.pow_nonneg. lia. }
  destruct (Z.le_gt_cases 53 d) as [Hbig | Hsmall].
  - unfold shl_align. destruct (d + e - 53 - e) as [| k | k] eqn:E; [| | lia].
    + cbv iota beta. apply Haux; [exact Hbig | lia | done].
    + cbv iota beta. apply Haux; [exact Hbig | lia | done].
  - pose proof (shl_align_value m e (d + e - 53) ltac:(lia)) as Hv.
    destruct (shl_align m e (d + e - 53)) as [mz ez] eqn:Ez.
    assert (Hez : ez = d + e - 53).
    { unfold shl_align in Ez. destruct (d + e - 53 - e) eqn:E; try lia.
      by injection Ez as _ <-. }
    cbn [fst] in Hv. replace (e - (d + e - 53)) with (53 - d) in Hv by lia.
    assert (Hp : 0 < 2 ^ (53 - d)) by (apply Z.pow_pos_nonneg; lia).
    assert (E52 : 2 ^ 52 = 2 ^ (d - 1) * 2 ^ (53 - d)).
    { rewrite <- Z.pow_add_r by lia. f_equal. lia. }
    assert (Hmz : 2 ^ 52 <= Zpos mz).
    { rewrite Hv, E52. apply Z.mul_le_mono_nonneg_r; lia. }
    subst ez. cbv iota beta. apply Haux.
    + assert (52 < Zpos (digits2_pos mz)) by (apply digits2_range; lia). lia.
    + lia.
    + rewrite Hv. rewrite <- Z.mul_assoc, <- Z.pow_add_r by lia.
      f_equal. f_equal. lia.
Qed.

(** The truncated sum of two small floats: the sum is within [2^-43] of
    the exact one. *)
Lemma add_close u w :
  small u = true -> small w = true ->
  scaled_value u + scaled_value w <= 511 * 2 ^ 63 ->
  exists Y, int_of_float (SFadd 53 1024 u w) = Ok (Y / 2 ^ 128) /\
            0 <= Y /\
            (scaled_value u + scaled_value w) * 2 ^ 64 - 2 ^ 85 <= Y
              <= (scaled_value u + scaled_value w) * 2 ^ 64 + 2 ^ 85.
Proof.
  intros Hu Hw Hs.
  assert (Hfin : forall m e, -64 <= e <= 0 ->
            exists Y, int_of_float (S754_finite false m e) = Ok (Y / 2 ^ 128) /\
                      0 <= Y /\
                      Zpos m * 2 ^ (e + 64) * 2 ^ 64 - 2 ^ 85 <= Y
                        <= Zpos m * 2 ^ (e + 64) * 2 ^ 64 + 2 ^ 85).
  { intros m e He. exists (Zpos m * 2 ^ (e + 128)). rewrite trunc_value by lia.
    split; [done |].
    replace (e + 128) with (e + 64 + 64) by lia. rewrite Z.pow_add_r by lia.
    rewrite Z.mul_assoc.
    assert (0 <= Zpos m * 2 ^ (e + 64) * 2 ^ 64).
    { apply Z.mul_nonneg_nonneg; [| lia].
      apply Z.mul_nonneg_nonneg; [lia |]. apply Z.pow_nonneg. lia. }
    change (2 ^ 85) with 38685626227668133590597632. lia. }
  destruct u as [[] | | | [] mu eu], w as [[] | | | [] mw ew]; try discriminate;
    cbn [small scaled_value] in *.
  - exists 0. cbn. repeat split; lia.
  - cbn [SFadd]. rewrite Z.add_0_l. apply Hfin; lia.
  - cbn [SFadd]. rewrite Z.add_0_r. apply Hfin; lia.
  - cbn [SFadd cond_Zopp].
    pose proof (shl_align_value mu eu (Z.min eu ew) ltac:(lia)) as Eu.
    pose proof (shl_align_value mw ew (Z.min eu ew) ltac:(lia)) as Ew.
    destruct (shl_align mu eu (Z.min eu ew)) as [au ?].
    destruct (shl_align mw ew (Z.min eu ew)) as [aw ?].
    cbn [fst] in *. change (Zpos au + Zpos aw) with (Zpos (au + aw)).
    cbn [binary_normalize].
    assert (E64 : Zpos (au + aw) * 2 ^ (Z.min eu ew + 64)
                  = Zpos mu * 2 ^ (eu + 64) + Zpos mw * 2 ^ (ew + 64)).
    { rewrite Pos2Z.inj_add, Z.mul_add_distr_r, Eu, Ew.
      rewrite <- !Z.mul_assoc, <- !Z.pow_add_r by lia.
      replace (eu - Z.min eu ew + (Z.min eu ew + 64)) with (eu + 64) by lia.
      replace (ew - Z.min eu ew + (Z.min eu ew + 64)) with (ew + 64) by lia.
      done. }
    destruct (round_close (au + aw) (Z.min eu ew)) as (Y & HY & H0 & Hb);
      [lia | by rewrite E64 |].
    exists Y. split; [done |]. split; [done |].
    rewrite <- E64.
    replace (Z.min eu ew + 128) with (Z.min eu ew + 64 + 64) in Hb by lia.
    rewrite Z.pow_add_r, Z.mul_assoc in Hb by lia. done.
Qed.

(** *** No NaN arises from integers *)

Lemma shr_fexp_nonneg p e m ex l :
  0 <= m -> 0 <= shr_m (shr_fexp p e m ex l).1.
Proof.
  intros Hm. unfold shr_fexp.
  assert (H0 : 0 <= shr_m (shr_record_of_loc m l)) by (by destruct l as [| []]).
  destruct (shr_spec (shr_record_of_loc m l) ex
                     (fexp p e (Zdigits2 m + ex) - ex) H0) as (E & _ & _).
  rewrite E. apply Z.div_pos; [done |]. apply Z.pow_pos_nonneg; lia.
Qed.

Lemma round_aux_not_nan p e sx m ex l :
  0 <= m -> binary_round_aux p e sx m ex l <> S754_nan.
Proof.
  intros Hm. unfold binary_round_aux.
  pose proof (shr_fexp_nonneg p e m ex l Hm) as H1.
  destruct (shr_fexp p e m ex l) as [mrs' e']. cbn [fst] in H1.
  pose proof (rne_bounds (shr_m mrs') (loc_of_shr_record mrs')) as Hq.
  pose proof (shr_fexp_nonneg p e
                (round_nearest_even (shr_m mrs') (loc_of_shr_record mrs')) e' loc_Exact
                ltac:(lia)) as H2.
  destruct (shr_fexp p e _ e' loc_Exact) as [mrs'' e'']. cbn [fst] in H2.
  destruct (shr_m mrs''); [done | by case_match | lia].
Qed.

Lemma binary_normalize_not_nan p e m ex sz : binary_normalize p e m ex sz <> S754_nan.
Proof.
  destruct m as [| m | m]; cbn [binary_normalize]; [done | |];
    unfold binary_round; destruct (shl_align _ _ _); by apply round_aux_not_nan.
Qed.

Lemma float_of_int_regular z f : float_of_int z = Ok f -> regular f.
Proof.
  unfold float_of_int.
  pose proof (binary_normalize_not_nan prec emax z 0 false).
  destruct (binary_normalize prec emax z 0 false); try done.
  all: by intros [= <-].
Qed.

Lemma int_truediv_regular a b t : b <> 0 -> int_truediv a b = Ok t -> regular t.
Proof.
  intros Hb. unfold int_truediv.
  assert (Hdiv : forall sx mx sy my,
            SFdiv prec emax (S754_finite sx mx 0) (S754_finite sy my 0) <> S754_nan).
  { intros sx mx sy my. cbn [SFdiv]. unfold SFdiv_core_binary.
    destruct (Z.div_eucl _ (Zpos my)) as [q r] eqn:E.
    apply round_aux_not_nan.
    assert (Hq : q = (fst (Z.div_eucl
               match 0 - 0 - Z.min (fexp prec emax (Zdigits2 (Zpos mx) + 0
                                                    - (Zdigits2 (Zpos my) + 0))) (0 - 0)
               with
               | 0 => Zpos mx
               | Zpos _ => Z.shiftl (Zpos mx)
                   (0 - 0 - Z.min (fexp prec emax (Zdigits2 (Zpos mx) + 0
                                                   - (Zdigits2 (Zpos my) + 0))) (0 - 0))
               | Zneg _ => 0
               end (Zpos my)))) by (by rewrite E).
    rewrite Hq. change (fst (Z.div_eucl ?a ?b)) with (a / b).
    apply Z.div_pos; [| lia].
    case_match; [lia | | lia]. apply Z.shiftl_nonneg. lia. }
  destruct a as [| pa | pa], b as [| pb | pb]; try done;
    try (cbn [SFdiv]; by intros [= <-]);
    match goal with
    | |- context [SFdiv prec emax (S754_finite ?sx ?mx 0) (S754_finite ?sy ?my 0)] =>
        pose proof (Hdiv sx mx sy my);
        destruct (SFdiv prec emax (S754_finite sx mx 0) (S754_finite sy my 0));
        try done; by intros [= <-]
    end.
Qed.

Lemma fmul_regular x y : regular x -> regular y -> fmul x y <> S754_nan.
Proof.
  destruct x, y; try done. intros _ _. unfold fmul. cbn [SFmul].
  by apply round_aux_not_nan.
Qed.

Lemma fadd_regular x y : regular x -> y <> S754_nan -> fadd x y <> S754_nan.
Proof.
  destruct x as [sx | | | sx mx ex], y as [sy | sy | | sy my ey]; try done;
    intros _ _; unfold fadd; cbn [SFadd].
  - by destruct sx, sy.
  - apply binary_normalize_not_nan.
Qed.

Lemma int_of_float_overflow f e :
  f <> S754_nan -> int_of_float f = Raise e -> e = OverflowError.
Proof. destruct f; cbn; congruence. Qed.

(** Interpolating an edge raises nothing but [OverflowError]. *)
Lemma edge_x_raises y p1 p2 e : edge_x y p1 p2 = Raise e -> e = OverflowError.
Proof.
  unfold edge_x. destruct (Z.eqb_spec p1.2 p2.2) as [| Hne]; [done |].
  case_match; [done |].
  destruct (int_truediv _ _) as [t |] eqn:E1; cbn [rbind].
  2: { intros [= <-]. by apply int_truediv_raises in E1. }
  destruct (float_of_int (p2.1 - p1.1)) as [d |] eqn:E2; cbn [rbind].
  2: { intros [= <-]. by apply float_of_int_raises in E2. }
  destruct (float_of_int p1.1) as [a |] eqn:E3; cbn [rbind].
  2: { intros [= <-]. by apply float_of_int_raises in E3. }
  destruct (int_of_float _) eqn:E4; cbn [rbind]; [done |].
  intros [= <-]. revert E4. apply int_of_float_overflow.
  apply fadd_regular; [by eapply float_of_int_regular |].
  apply fmul_regular; [| by eapply float_of_int_regular].
  eapply int_truediv_regular; [| done]. lia.
Qed.

Lemma x_intersections_raises y edges e :
  x_intersections y edges = Raise e -> e = OverflowError.
Proof.
  induction edges as [| [p1 p2] edges IH]; cbn [x_intersections]; [done |].
  destruct (edge_x y p1 p2) eqn:E1; cbn [rbind].
  - destruct (x_intersections y edges); cbn [rbind]; [done |].
    intros [= <-]. by apply IH.
  - intros [= <-]. by eapply edge_x_raises.
Qed.

(** *** Every blended channel is a byte near the exact blend *)

Lemma blend_exact_quot e c A :
  blend_exact e c A = (e * (255 - A) + c * A) ÷ 255.
Proof.
  change (blend_exact e c A)
    with ((e * (1 * 255 + - (A * 1) * 1) * 255 + c * (A * 1) * 255) ÷ (255 * 255)).
  replace (e * (1 * 255 + - (A * 1) * 1) * 255 + c * (A * 1) * 255)
    with ((e * (255 - A) + c * A) * 255) by lia.
  apply Z.quot_mul_cancel_r; lia.
Qed.

Lemma blend_terms_all_close : forallb blend_terms_close (range 0 256) = true.
Proof. vm_compute. reflexivity. Qed.

(** The byte the code computes for a channel is the exact blend truncated,
    or one below it when the exact blend is a whole number. *)
Lemma blend_near e c A :
  is_byte e -> is_byte c -> is_byte A ->
  exists v, blend_value e c A = Ok v /\ is_byte v /\ near_exact e c A v.
Proof.
  intros He Hc HA.
  pose proof (bytes_check _ blend_terms_all_close A HA) as H.
  unfold blend_terms_close in H. unfold blend_value.
  destruct (float_of_int A) as [fa |]; [| discriminate]. cbn [rbind].
  cbv zeta in H.
  apply Is_true_true, forallb_True in H. rewrite Forall_forall in H.
  assert (He' : e ∈ range 0 256) by (apply in_range; unfold is_byte in He; lia).
  assert (Hc' : c ∈ range 0 256) by (apply in_range; unfold is_byte in Hc; lia).
  pose proof (H e He') as H1. pose proof (H c Hc') as H2. clear H.
  cbv beta in H1, H2. apply Is_true_true in H1, H2.
  destruct (float_of_int e) as [fe |]; [| discriminate].
  destruct (float_of_int c) as [fc |]; [| discriminate]. cbn [rbind].
  cbv zeta in H1, H2.
  apply andb_true_iff in H1 as [H1 _]. apply andb_true_iff in H1 as [H1 Hue].
  apply andb_true_iff in H1 as [Hu _].
  apply andb_true_iff in H2 as [H2 Hwc]. apply andb_true_iff in H2 as [H2 _].
  apply andb_true_iff in H2 as [_ Hw].
  apply Z.leb_le in Hue, Hwc.
  set (u := fmul fe (fsub (float_lit 1) (fdiv fa (float_lit 255)))) in *.
  set (w := fmul fc (fdiv fa (float_lit 255))) in *.
  set (U := scaled_value u) in *. set (W := scaled_value w) in *.
  unfold is_byte in He, Hc, HA.
  set (N := e * (255 - A) + c * A).
  assert (HN : 0 <= N <= 255 * 255) by (unfold N; nia).
  assert (HS : -(255 * 2 ^ 25) <= 255 * (U + W) - N * 2 ^ 64 <= 255 * 2 ^ 25).
  { unfold N. change (2 ^ 25) with (2 * 2 ^ 24). lia. }
  clear Hue Hwc.
  destruct (add_close u w Hu Hw) as (Y & HY & HY0 & HYb).
  { fold U W. clearbody U W. change (2 ^ 64) with 18446744073709551616 in HS.
    change (2 ^ 25) with 33554432 in HS. change (2 ^ 63) with 9223372036854775808.
    lia. }
  fold U W in HYb. clearbody U W. unfold fadd, prec, emax. rewrite HY.
  exists (Y / 2 ^ 128). split; [done |].
  rewrite (Z.div_mod N 255) in HS by lia.
  pose proof (Z.mod_pos_bound N 255 ltac:(lia)) as Hk.
  assert (Hq : 0 <= N / 255 <= 255).
  { split; [apply Z.div_pos; lia |]. apply Z.div_le_upper_bound; lia. }
  assert (Eq : blend_exact e c A = N / 255).
  { rewrite blend_exact_quot. fold N. apply Z.quot_div_nonneg; lia. }
  assert (Ewhole : N mod 255 = 0 -> 255 * (N / 255) = N).
  { intros E0. rewrite (Z.div_mod N 255) at 2 by lia. lia. }
  unfold near_exact. rewrite Eq. fold N.
  set (q := N / 255) in *. set (k := N mod 255) in *. clearbody q k.
  assert (H128 : 0 < 2 ^ 128) by (apply Z.pow_pos_nonneg; lia).
  set (v := Y / 2 ^ 128).
  assert (Hv : 2 ^ 128 * v <= Y < 2 ^ 128 * (v + 1)).
  { unfold v. pose proof (Z.mul_div_le Y (2 ^ 128) H128).
    pose proof (Z.mul_succ_div_gt Y (2 ^ 128) H128). lia. }
  clearbody v. clear HY He' Hc' Hu Hw.
  change (2 ^ 128) with 340282366920938463463374607431768211456 in *.
  change (2 ^ 85) with 38685626227668133590597632 in *.
  change (2 ^ 64) with 18446744073709551616 in *.
  change (2 ^ 25) with 33554432 in *.
  assert (Hcase : (1 <= k /\ v = q) \/ (k = 0 /\ (v = q \/ v = q - 1))) by lia.
  unfold is_byte. split; [lia |].
  destruct Hcase as [[_ ->] | [Hk0 [-> | ->]]]; [by left | by left | right].
  split; [| done]. apply Ewhole. done.
Qed.

Lemma blend_byte e c A :
  is_byte e -> is_byte c -> is_byte A ->
  exists v, blend_value e c A = Ok v /\ is_byte v.
Proof.
  intros He Hc HA. destruct (blend_near e c A He Hc HA) as (v & Hv & Hb & _). eauto.
Qed.

Lemma blend_safe_bytes color :
  len color = 4 -> Forall is_byte color -> blend_safe color = true.
Proof.
  intros Hl Hb.
  destruct (list_of_length_4 color) as (c0 & c1 & c2 & A & ->); [unfold len in Hl; lia |].
  rewrite !Forall_cons in Hb. destruct Hb as (H0 & H1 & H2 & HA & _).
  unfold blend_safe. apply andb_true_iff. split; [| by apply is_byteb_spec].
  apply Is_true_true, forallb_True, Forall_forall. intros e He%in_range.
  assert (Hbyte : is_byte e) by (unfold is_byte; lia).
  destruct (blend_byte e c0 A Hbyte H0 HA) as (v0 & -> & Hv0).
  destruct (blend_byte e c1 A Hbyte H1 HA) as (v1 & -> & Hv1).
  destruct (blend_byte e c2 A Hbyte H2 HA) as (v2 & -> & Hv2).
  cbn [is_ok_byte]. apply Is_true_true.
  apply is_byteb_spec in Hv0, Hv1, Hv2. by rewrite Hv0, Hv1, Hv2.
Qed.

(** ** Every run of the triangle fill *)

Lemma blend_pixel_total n color idx :
  blend_safe color = true -> 0 <= idx -> idx + 4 <= n ->
  keeps (sound n) (fun _ => True) (blend_pixel color idx) (fun _ => True).
Proof.
  intros Hsafe Hi Hn.
  destruct color as [| c0 [| c1 [| c2 [| A [| ? ?]]]]]; try discriminate.
  unfold blend_safe in Hsafe. apply andb_true_iff in Hsafe as [Hsafe HA].
  assert (Hch : forall e, is_byte e ->
            exists v0 v1 v2, blend_value e c0 A = Ok v0 /\ is_byte v0 /\
                             blend_value e c1 A = Ok v1 /\ is_byte v1 /\
                             blend_value e c2 A = Ok v2 /\ is_byte v2).
  { intros e He. pose proof (bytes_check _ Hsafe e He) as H. cbv beta in H.
    apply andb_true_iff in H as [H H2]. apply andb_true_iff in H as [H0 H1].
    destruct (blend_value e c0 A) as [v0 |]; [| discriminate].
    destruct (blend_value e c1 A) as [v1 |]; [| discriminate].
    destruct (blend_value e c2 A) as [v2 |]; [| discriminate].
    exists v0, v1, v2. cbn in H0, H1, H2. rewrite !is_byteb_spec in *. done. }
  assert (Hfa : exists fa, float_of_int A = Ok fa).
  { destruct (Hch 0) as (v0 & _ & _ & H & _); [unfold is_byte; lia |].
    unfold blend_value in H. apply rbind_ok_inv in H as (fa & H & _). eauto. }
  destruct Hfa as [fa Hfa].
  assert (Hset : forall k v, 0 <= k < 4 -> is_byte v ->
             keeps (sound n) (fun _ => True) (assign_item (idx + k) v) (fun _ => True)).
  { intros k v Hk Hv s [Hl Hb]. unfold assign_item.
    rewrite set_item_inside by (done || lia). cbn [fst snd].
    split; [| done]. split; cbn [pixels].
    - unfold len in *. by rewrite length_insert.
    - by apply Forall_insert. }
  unfold blend_pixel.
  eapply keeps_bind with (R := fun ex => len ex = 4 /\ Forall is_byte ex).
  { intros s [Hl Hb]. split; [done |]. cbn [read_slice fst]. split.
    - rewrite get_slice_inside by lia. unfold len in *.
      rewrite length_take, length_drop. lia.
    - by apply get_slice_bytes. }
  intros existing [Hlen Hbytes].
  destruct (list_of_length_4 existing) as (e0 & e1 & e2 & e3 & ->);
    [unfold len in Hlen; lia |].
  rewrite !Forall_cons in Hbytes. destruct Hbytes as (He0 & He1 & He2 & He3 & _).
  destruct (Hch e0 He0) as (v0 & _ & _ & H0 & Hv0 & _).
  destruct (Hch e1 He1) as (_ & v1 & _ & _ & _ & H1 & Hv1 & _).
  destruct (Hch e2 He2) as (_ & _ & v2 & _ & _ & _ & _ & H2 & Hv2).
  change (get_item [c0; c1; c2; A] 3) with (Ok (A := Z) A). cbn [rbind].
  rewrite Hfa. cbn [rbind].
  eapply keeps_bind with (R := fun a => a = fdiv fa (float_lit 255));
    [by apply keeps_lift | intros alpha ->].
  unfold blend_value in H0, H1, H2. rewrite Hfa in H0, H1, H2. cbn [rbind] in H0, H1, H2.
  eapply keeps_bind with (R := fun v => is_byte v).
  { apply keeps_lift. change (blend_channel _ _ _ 0) with
      (let? fe := float_of_int e0 in let? fc := float_of_int c0 in
       int_of_float (fadd (fmul fe (fsub (float_lit 1) (fdiv fa (float_lit 255))))
                          (fmul fc (fdiv fa (float_lit 255))))).
    by rewrite H0. }
  intros w0 Hw0.
  eapply keeps_bind; [replace idx with (idx + 0) at 1 by lia; by apply Hset | intros _ _].
  eapply keeps_bind with (R := fun v => is_byte v).
  { apply keeps_lift. change (blend_channel _ _ _ 1) with
      (let? fe := float_of_int e1 in let? fc := float_of_int c1 in
       int_of_float (fadd (fmul fe (fsub (float_lit 1) (fdiv fa (float_lit 255))))
                          (fmul fc (fdiv fa (float_lit 255))))).
    by rewrite H1. }
  intros w1 Hw1.
  eapply keeps_bind; [by apply Hset | intros _ _].
  eapply keeps_bind with (R := fun v => is_byte v).
  { apply keeps_lift. change (blend_channel _ _ _ 2) with
      (let? fe := float_of_int e2 in let? fc := float_of_int c2 in
       int_of_float (fadd (fmul fe (fsub (float_lit 1) (fdiv fa (float_lit 255))))
                          (fmul fc (fdiv fa (float_lit 255))))).
    by rewrite H2. }
  intros w2 Hw2.
  eapply keeps_bind; [by apply Hset | intros _ _].
  eapply keeps_bind with (R := fun v => is_byte v).
  { apply keeps_lift. change (is_byte (Z.max e3 A)).
    apply is_byteb_spec in HA. unfold is_byte in *. lia. }
  intros w3 Hw3. by apply Hset.
Qed.

Lemma keeps_strict {S A} (I : S -> Prop) bad (m : ST S A) (R : A -> Prop) :
  keeps I (fun _ => True) m R -> keeps I bad m R.
Proof.
  intros H s Hs. destruct (H s Hs) as [H1 H2]. split; [done |].
  destruct (m s).1; [done | by destruct H2].
Qed.

Lemma triangle_row_total width height color y lo hi :
  blend_safe color = true -> 0 <= y < height ->
  keeps (sound (width * height * 4)) (fun _ => True)
        (for_each (range (Z.max 0 lo) (Z.min width hi))
           (fun x => touch x y ;; blend_pixel color ((y * width + x) * 4)))
        (fun _ => True).
Proof.
  intros Hb Hy. apply keeps_for_each. intros x Hx%in_range.
  eapply keeps_bind; [by apply keeps_step | intros _ _].
  destruct (pixel_index_inside width height x y); [lia | lia |].
  by apply blend_pixel_total.
Qed.

(** With three vertices and a colour of bytes, the fill keeps the buffer
    sound and raises nothing but [OverflowError]. *)
Lemma draw_triangle_outcome width height points color :
  length points = 3%nat -> blend_safe color = true ->
  keeps (sound (width * height * 4)) (fun e => e <> OverflowError)
        (draw_triangle width height points color) (fun _ => True).
Proof.
  intros Hp Hb. unfold draw_triangle.
  eapply keeps_bind; [by apply keeps_step | intros _ _].
  pose proof (length_sorted snd points) as Hlen. rewrite Hp in Hlen.
  destruct (sorted snd points) as [| p0 [| p1 [| p2 rest]]]; try discriminate.
  case_match; [by apply keeps_ret |].
  apply keeps_for_each. intros y Hy.
  destruct ((y <? 0) || (height <=? y)) eqn:Hg; [by apply keeps_ret |].
  eapply keeps_bind with (R := fun _ => True).
  { apply keeps_lift. destruct (x_intersections y _) eqn:E; [done |].
    apply x_intersections_raises in E. intros Hne. by apply Hne. }
  intros xs _. case_match; [| by apply keeps_ret].
  apply keeps_strict. apply triangle_row_total; [done | lia].
Qed.

(** A loop that may stop early: the invariant holds of the items done. *)
Lemma for_each_stops {S X} (P : list X -> S -> Prop) (l : list X)
      (body : X -> ST S unit) (s : S) :
  P [] s ->
  (forall done x rest s1,
      l = done ++ x :: rest -> P done s1 ->
      match (body x s1).1 with
      | Ok _ => P (done ++ [x]) (body x s1).2
      | Raise _ => P done (body x s1).2
      end) ->
  exists done, P done (for_each l body s).2.
Proof.
  intros HP Hb.
  assert (G : forall rest done s1, l = done ++ rest -> P done s1 ->
             exists done', P done' (for_each rest body s1).2).
  { induction rest as [| x rest IH]; intros done s1 El H1.
    - by exists done.
    - cbn [for_each]. unfold bind. pose proof (Hb done x rest s1 El H1) as H.
      destruct (body x s1) as [[[] | e] s2]; cbn [fst snd] in H.
      + apply (IH (done ++ [x])); [by rewrite <- app_assoc | done].
      + by exists done. }
  by apply (G l []).
Qed.

Lemma draw_triangle_painted_always width height points color s :
  len (pixels s) = width * height * 4 -> Forall is_byte (pixels s) ->
  len color = 4 -> Forall is_byte color ->
  exists ws,
    painted (blended color) width height
            (Canvas (pixels s) (touched s) (Triangle points color :: calls s)) ws
            (draw_triangle width height points color s).2.
Proof.
  intros Hl Hbs Hc Hbc. pose proof (blend_safe_bytes color Hc Hbc) as Hsafe.
  unfold draw_triangle. unfold bind at 1. cbn [enter].
  set (s0 := Canvas (pixels s) (touched s) (Triangle points color :: calls s)).
  assert (H0 : painted (blended color) width height s0 [] s0) by by apply painted_start.
  destruct (sorted snd points) as [| p0 [| p1 [| p2 rest]]]; try (by exists []).
  destruct (p2.2 =? p0.2); [by exists [] |].
  set (row := triangle_row width height p0 p1 p2).
  match goal with
  | |- exists ws, painted _ _ _ _ ws (for_each ?l ?b _).2 =>
      destruct (for_each_stops
                  (fun done s1 =>
                     painted (blended color) width height s0 (scan_pixels row done) s1 /\
                     Forall is_byte (pixels s1)) l b s0) as (done & Hd & _)
  end.
  - by split.
  - intros done y rest' s1 Ey [H1 Hb1]. cbv beta.
    rewrite scan_pixels_snoc.
    assert (Hrow : row y = triangle_row width height p0 p1 p2 y) by done.
    unfold triangle_row in Hrow.
    lazymatch goal with
    | |- context [ (?m s1).1 ] => remember (m s1) as r eqn:Er
    end.
    destruct ((y <? 0) || (height <=? y)) eqn:Hy.
    { subst r. cbn [ret fst snd]. rewrite Hrow. split; [by apply painted_more | done]. }
    unfold bind at 1 in Er. unfold lift at 1 in Er.
    destruct (x_intersections y _) as [xs | e] eqn:Ex; cbv beta iota zeta in Er.
    2: { subst r. by split. }
    destruct (2 <=? len xs).
    2: { subst r. cbn [ret fst snd]. rewrite Hrow.
         split; [by apply painted_more | done]. }
    destruct (triangle_row_total width height color y (hd 0 (sorted id xs))
                (List.last (sorted id xs) 0 + 1) Hsafe ltac:(lia) s1) as [Hs2 Hr];
      [split; [apply H1 | done] |].
    rewrite <- Er in Hs2, Hr.
    destruct r as [[[] | e] s2]; cbn [fst snd] in *; [| done].
    split; [| apply Hs2].
    rewrite Hrow.
    assert (Hnd : NoDup (range p0.2 (p2.2 + 1))) by apply NoDup_range.
    eapply triangle_row_painted; [done | | lia | exact H1 | by symmetry].
    rewrite Ey in Hnd. apply NoDup_app in Hnd as (_ & Hnd & _).
    intros H. apply (Hnd y H). left.
  - by exists (scan_pixels row done).
Qed.

Lemma blended_is_near color old new :
  Forall is_byte old -> Forall is_byte color ->
  blended color old new -> blended_near color old new.
Proof.
  intros Hold Hc (e0 & e1 & e2 & e3 & c0 & c1 & c2 & A & v0 & v1 & v2
                  & -> & -> & -> & H0 & H1 & H2).
  rewrite !Forall_cons in Hold. rewrite !Forall_cons in Hc.
  destruct Hold as (He0 & He1 & He2 & _), Hc as (Hc0 & Hc1 & Hc2 & HA & _).
  destruct (blend_near e0 c0 A He0 Hc0 HA) as (w0 & E0 & _ & N0).
  destruct (blend_near e1 c1 A He1 Hc1 HA) as (w1 & E1 & _ & N1).
  destruct (blend_near e2 c2 A He2 Hc2 HA) as (w2 & E2 & _ & N2).
  rewrite H0 in E0. rewrite H1 in E1. rewrite H2 in E2.
  injection E0 as <-. injection E1 as <-. injection E2 as <-.
  exists e0, e1, e2, e3, c0, c1, c2, A, v0, v1, v2. by repeat split.
Qed.

(** C5.  On a buffer of bytes and with a colour of four bytes, every pixel
    that [draw_triangle] fills is written from the pixel's previous value:
    each of R, G, B is the exact value of [existing * (1 - a) + color * a]
    with [a = A / 255] truncated to an integer or, when that exact value
    is a whole number, possibly one below it, as the binary64 arithmetic of
    the code rounds; alpha is [max (existing alpha) A]; every other pixel
    is unchanged.  This holds of every run, also of one that raises on a
    later scanline. *)
Theorem draw_triangle_blends (width height : Z) (points : list (Z * Z))
        (color : list Z) (s : canvas) :
  len (pixels s) = width * height * 4 ->
  Forall is_byte (pixels s) ->
  len color = 4 ->
  Forall is_byte color ->
  let r := draw_triangle width height points color s in
  exists filled,
    touched r.2 = rev filled ++ touched s /\
    Forall (in_image width height) filled /\
    forall p, in_image width height p ->
      (p ∈ filled ->
         blended_near color (pixel_at (pixels s) width p)
                      (pixel_at (pixels r.2) width p)) /\
      (p ∉ filled -> pixel_at (pixels r.2) width p = pixel_at (pixels s) width p).
Proof.
  intros Hl Hbs Hc Hbc r.
  destruct (draw_triangle_painted_always width height points color s Hl Hbs Hc Hbc)
    as (ws & _ & Ht & _ & Hin & Hpx).
  exists ws. split; [done |]. split; [done |].
  intros p Hp. destruct (Hpx p Hp) as [H1 H2]. split; [| done].
  intros Hw. apply blended_is_near; [| done | by apply H1].
  unfold pixel_at. by apply get_slice_bytes.
Qed.

Lemma draw_triangle_blends_witness :
  let s := blank 3 3 in
  let r := draw_triangle 3 3 [(0, 0); (- 2 ^ 1023, 1); (2 ^ 1023, 2)]
                         [200; 100; 50; 128] s in
  r.1 = Raise OverflowError /\ touched r.2 = [(0, 0)] /\
  exists filled,
    touched r.2 = rev filled ++ touched s /\
    Forall (in_image 3 3) filled /\
    forall p, in_image 3 3 p ->
      (p ∈ filled ->
         blended_near [200; 100; 50; 128] (pixel_at (pixels s) 3 p)
                      (pixel_at (pixels r.2) 3 p)) /\
      (p ∉ filled -> pixel_at (pixels r.2) 3 p = pixel_at (pixels s) 3 p).
Proof.
  intros s r. split; [vm_compute; reflexivity |]. split; [vm_compute; reflexivity |].
  apply (draw_triangle_blends 3 3 [(0, 0); (- 2 ^ 1023, 1); (2 ^ 1023, 2)]
                              [200; 100; 50; 128] s).
  - reflexivity.
  - apply Forall_forall. intros z Hz. apply elem_of_replicate in Hz as [-> _].
    unfold is_byte. lia.
  - reflexivity.
  - repeat constructor; unfold is_byte; lia.
Defined.

(** The channels are not always the exact blend truncated: over the grey
    pixel [3; 3; 3; 3] the colour [3; 3; 3] of alpha 5 blends exactly to 3
    on every channel, and [draw_triangle] stores 2. *)
Lemma blend_below_exact :
  let s := Canvas (replicate 4 3) [] [] in
  let r := draw_triangle 1 1 [(0, -1); (1, 0); (0, 1)] [3; 3; 3; 5] s in
  len (pixels s) = 1 * 1 * 4 /\
  r.1 = Ok tt /\ touched r.2 = [(0, 0)] /\
  pixel_at (pixels s) 1 (0, 0) = [3; 3; 3; 3] /\
  pixel_at (pixels r.2) 1 (0, 0) = [2; 2; 2; 5] /\
  blend_exact 3 3 5 = 3.
Proof. vm_compute. repeat split; reflexivity. Qed.

(** C7.  When [draw_triangle] is called with a colour of alpha 255 on a
    buffer of bytes, every pixel it fills equals the colour's four bytes
    exactly, whether the call returns or raises; this holds in particular
    for the pixels that were opaque already. *)
Theorem opaque_triangle_exact (width height : Z) (points : list (Z * Z))
        (c0 c1 c2 : Z) (s : canvas) :
  len (pixels s) = width * height * 4 ->
  Forall is_byte (pixels s) ->
  Forall is_byte [c0; c1; c2; 255] ->
  let s' := (draw_triangle width height points [c0; c1; c2; 255] s).2 in
  exists filled,
    touched s' = rev filled ++ touched s /\
    forall p, p ∈ filled ->
      pixel_at (pixels s') width p = [c0; c1; c2; 255] /\
      (pixel_at (pixels s) width p !! 3%nat = Some 255 ->
       pixel_at (pixels s') width p = [c0; c1; c2; 255]).
Proof.
  intros Hl Hb Hc s'.
  destruct (draw_triangle_painted_always width height points [c0; c1; c2; 255] s
              Hl Hb eq_refl Hc)
    as (filled & _ & Ht & _ & Hin & Hpx).
  cbn [pixels touched] in Ht, Hpx. fold s' in Ht, Hpx. clearbody s'.
  exists filled. split; [done |].
  intros p Hp.
  assert (G : pixel_at (pixels s') width p = [c0; c1; c2; 255]); [| by split].
  rewrite Forall_forall in Hin.
  destruct (Hpx p (Hin p Hp)) as [H _].
  destruct (H Hp) as (e0 & e1 & e2 & e3 & ? & ? & ? & A & v0 & v1 & v2
                      & He & [= <- <- <- <-] & -> & H0 & H1 & H2).
  assert (Hold : Forall is_byte [e0; e1; e2; e3]).
  { rewrite <- He. unfold pixel_at. by apply get_slice_bytes. }
  rewrite !Forall_cons in Hold, Hc.
  destruct Hold as (He0 & He1 & He2 & He3 & _), Hc as (Hc0 & Hc1 & Hc2 & _).
  rewrite blend_opaque in H0, H1, H2 by done.
  injection H0 as <-. injection H1 as <-. injection H2 as <-.
  unfold is_byte in He3. do 3 f_equal. f_equal. lia.
Qed.

Lemma opaque_triangle_exact_witness :
  let s := Canvas (replicate 36 255) [] [] in
  let s' := (draw_triangle 3 3 [(0, 0); (0, 2); (2, 1)] [10; 20; 30; 255] s).2 in
  exists filled,
    touched s' = rev filled ++ touched s /\
    forall p, p ∈ filled ->
      pixel_at (pixels s') 3 p = [10; 20; 30; 255] /\
      (pixel_at (pixels s) 3 p !! 3%nat = Some 255 ->
       pixel_at (pixels s') 3 p = [10; 20; 30; 255]).
Proof.
  intros s s'.
  apply (opaque_triangle_exact 3 3 [(0, 0); (0, 2); (2, 1)] 10 20 30 s).
  - reflexivity.
  - apply Forall_forall. intros z Hz. apply elem_of_replicate in Hz as [-> _].
    unfold is_byte. lia.
  - repeat constructor; unfold is_byte; lia.
Defined.

(** ** The buffer stays a buffer of bytes *)

(** C10.  Every call of [draw_circle] (with a four-byte colour) and of
    [draw_triangle] leaves the pixel buffer with its [width*height*4]
    bytes, each in the range 0..255; for [draw_triangle] this holds
    whether the call returns or raises.  Every blended channel of bytes is
    a byte itself, so that, given three vertices and a four-byte colour,
    no assignment of [draw_triangle] is refused: the call returns, or
    raises [OverflowError] while interpolating an edge. *)
Theorem draw_preserves_buffer (width height : Z) (s : canvas) :
  len (pixels s) = width * height * 4 ->
  Forall is_byte (pixels s) ->
  (forall cx cy radius color,
      len color = 4 -> Forall is_byte color ->
      let s' := (draw_circle width height cx cy radius color s).2 in
      len (pixels s') = width * height * 4 /\ Forall is_byte (pixels s')) /\
  (forall points color,
      let r := draw_triangle width height points color s in
      len (pixels r.2) = width * height * 4 /\ Forall is_byte (pixels r.2) /\
      (length points = 3%nat -> len color = 4 -> Forall is_byte color ->
       r.1 = Ok tt \/ r.1 = Raise OverflowError)) /\
  (forall e c A,
      is_byte e -> is_byte c -> is_byte A ->
      exists v, blend_value e c A = Ok v /\ is_byte v).
Proof.
  intros Hl Hb. split; [| split].
  - intros cx cy radius color Hc Hcb.
    by destruct (draw_circle_sound width height cx cy radius color Hc Hcb s).
  - intros points color r.
    destruct (draw_triangle_sound (width * height * 4) width height points color s)
      as [[H1 H2] _]; [done |].
    split; [done |]. split; [done |].
    intros Hp Hc Hcb.
    destruct (draw_triangle_outcome width height points color Hp
                (blend_safe_bytes color Hc Hcb) s) as [_ H]; [done |].
    subst r. destruct (draw_triangle _ _ _ _ s).1 as [[] | e]; [by left | right].
    f_equal. destruct e; try done; exfalso; by apply H.
  - apply blend_byte.
Qed.

Lemma draw_preserves_buffer_witness :
  let s := blank 3 3 in
  let s1 := (draw_circle 3 3 1 1 1 [1; 2; 3; 4] s).2 in
  let r := draw_triangle 3 3 [(0, 0); (0, 2); (2, 1)] [200; 100; 50; 128] s in
  (len (pixels s1) = 3 * 3 * 4 /\ Forall is_byte (pixels s1)) /\
  (len (pixels r.2) = 3 * 3 * 4 /\ Forall is_byte (pixels r.2) /\
   (r.1 = Ok tt \/ r.1 = Raise OverflowError)).
Proof.
  intros s.
  assert (Hb : Forall is_byte (pixels s)).
  { apply Forall_forall. intros z Hz. apply elem_of_replicate in Hz as [-> _].
    unfold is_byte. lia. }
  destruct (draw_preserves_buffer 3 3 s eq_refl Hb) as (H1 & H2 & _).
  split.
  - apply (H1 1 1 1 [1; 2; 3; 4]); [reflexivity |].
    repeat constructor; unfold is_byte; lia.
  - destruct (H2 [(0, 0); (0, 2); (2, 1)] [200; 100; 50; 128]) as (Ha & Hc & Hd).
    split; [exact Ha |]. split; [exact Hc |].
    apply Hd; [reflexivity | reflexivity |].
    repeat constructor; unfold is_byte; lia.
Defined.

(** ** Degenerate triangles *)

(** C6.  A triangle whose three vertices have the same [y] (minimum equal
    to maximum) is a silent no-op: [draw_triangle] returns normally and the
    buffer is unchanged, no pixel being assigned. *)
Theorem degenerate_triangle_noop (width height : Z) (a b c : Z * Z) (color : list Z)
        (s : canvas) :
  Z.min a.2 (Z.min b.2 c.2) = Z.max a.2 (Z.max b.2 c.2) ->
  let r := draw_triangle width height [a; b; c] color s in
  r.1 = Ok tt /\ pixels r.2 = pixels s /\ touched r.2 = touched s.
Proof.
  intros H r. subst r.
  destruct a as [ax ay], b as [bx by_], c as [cx cy]. cbn [fst snd] in H.
  assert (by_ = ay) by lia. assert (cy = ay) by lia. subst by_ cy.
  assert (Hs : sorted snd [(ax, ay); (bx, ay); (cx, ay)]
               = [(ax, ay); (bx, ay); (cx, ay)]).
  { unfold sorted. cbn [foldr insert_by snd]. rewrite Z.leb_refl.
    cbn [insert_by snd]. by rewrite Z.leb_refl. }
  unfold draw_triangle, bind, enter. rewrite Hs. cbn [snd]. by rewrite Z.eqb_refl.
Qed.

Lemma degenerate_triangle_noop_witness :
  let s := blank 4 4 in
  let r := draw_triangle 4 4 [(0, 2); (3, 2); (1, 2)] [255; 255; 255; 176] s in
  r.1 = Ok tt /\ pixels r.2 = pixels s /\ touched r.2 = touched s.
Proof.
  intros s.
  apply (degenerate_triangle_noop 4 4 (0, 2) (3, 2) (1, 2) [255; 255; 255; 176] s).
  reflexivity.
Defined.

(** ** The PNG stream *)

Lemma be32_value v : 0 <= v < 2 ^ 32 -> be_value (be32 v) = v /\ Forall is_byte (be32 v).
Proof.
  intros Hv. unfold be_value, be32, is_byte. cbn [fold_left].
  rewrite !Z.shiftr_div_pow2 by lia.
  change (2 ^ 24) with 16777216. change (2 ^ 16) with 65536. change (2 ^ 8) with 256.
  change (2 ^ 32) with 4294967296 in Hv.
  split; [| repeat constructor]; Z.to_euclidean_division_equations; lia.
Qed.

Lemma crc32_range data : 0 <= crc32 data < 2 ^ 32.
Proof.
  unfold crc32. change 4294967295 with (Z.ones 32).
  rewrite Z.land_ones by lia. apply Z.mod_pos_bound. lia.
Qed.

Lemma pack_u32 v :
  struct_pack [fmt_I] [v] = if in_u32 v then Ok (be32 v) else Raise StructError.
Proof.
  cbn [struct_pack pack_one]. unfold in_u32.
  destruct ((0 <=? v) && (v <? 2 ^ 32)); cbn [rbind]; [| done].
  by rewrite app_nil_r.
Qed.

Lemma pack_ihdr width height :
  struct_pack [fmt_I; fmt_I; fmt_B; fmt_B; fmt_B; fmt_B; fmt_B]
              [width; height; 8; 6; 0; 0; 0]
  = if in_u32 width && in_u32 height
    then Ok (be32 width ++ be32 height ++ [8; 6; 0; 0; 0])
    else Raise StructError.
Proof.
  cbn [struct_pack pack_one]. unfold in_u32.
  destruct ((0 <=? width) && (width <? 2 ^ 32)); cbn [rbind andb]; [| done].
  destruct ((0 <=? height) && (height <? 2 ^ 32)); cbn [rbind andb]; done.
Qed.

Lemma in_u32_crc32 data : in_u32 (crc32 data) = true.
Proof. pose proof (crc32_range data). unfold in_u32. lia. Qed.

Lemma fold_left_append {A X} (g : X -> list A) (l : list X) (acc : list A) :
  fold_left (fun raw x => raw ++ g x) l acc = acc ++ (l ≫= g).
Proof.
  revert acc. induction l as [| x l IH]; intros acc; cbn.
  - by rewrite app_nil_r.
  - by rewrite IH, app_assoc.
Qed.

Lemma fold_left_ext {A X} (f g : A -> X -> A) (l : list X) (acc : A) :
  (forall a x, f a x = g a x) -> fold_left f l acc = fold_left g l acc.
Proof.
  intros H. revert acc. induction l as [| x l IH]; intros acc; cbn; [done |].
  by rewrite H, IH.
Qed.

Lemma row_slices (px : list Z) (width y : Z) (n : nat) :
  0 <= y -> 0 <= width -> Z.of_nat n <= width -> (y + 1) * width * 4 <= len px ->
  ((fun i : nat => 0 + Z.of_nat i) <$> seq 0 n) ≫=
     (fun x => get_slice px ((y * width + x) * 4) ((y * width + x) * 4 + 4))
  = take (4 * n) (drop (Z.to_nat y * Z.to_nat (4 * width)) px).
Proof.
  intros Hy Hw Hn Hl. induction n as [| n IH]; [done |].
  rewrite seq_S, fmap_app, bind_app, IH by lia. cbn [fmap list_fmap mbind list_bind].
  rewrite app_nil_r, get_slice_inside by nia.
  replace (4 * S n)%nat with (4 * n + 4)%nat by lia.
  rewrite <- take_take_drop, drop_drop. do 3 f_equal. nia.
Qed.

Lemma raw_data_scanlines width height px :
  0 <= width -> 0 <= height -> len px = width * height * 4 ->
  raw_data width height px = scanlines width height px.
Proof.
  intros Hw Hh Hl. unfold raw_data, scanlines.
  rewrite (fold_left_ext _
    (fun raw y => raw ++ (0 :: (range 0 width ≫= fun x =>
        get_slice px ((y * width + x) * 4) ((y * width + x) * 4 + 4))))).
  2: { intros raw y. cbv beta. rewrite fold_left_append. by rewrite <- app_assoc. }
  rewrite fold_left_append. cbn [app].
  assert (G : forall n : nat, Z.of_nat n <= height ->
    ((fun i : nat => 0 + Z.of_nat i) <$> seq 0 n) ≫=
      (fun y => 0 :: (range 0 width ≫= fun x =>
         get_slice px ((y * width + x) * 4) ((y * width + x) * 4 + 4)))
    = seq 0 n ≫= fun y =>
        0 :: take (Z.to_nat (4 * width)) (drop (y * Z.to_nat (4 * width)) px)).
  { induction n as [| n IH]; intros Hn; [done |].
    rewrite seq_S, fmap_app, !bind_app, IH by lia. f_equal.
    cbn [fmap list_fmap mbind list_bind]. rewrite !app_nil_r. f_equal.
    unfold range. rewrite Z.sub_0_r, row_slices by nia.
    f_equal; [lia |]. f_equal. lia. }
  replace (range 0 height) with ((fun i : nat => 0 + Z.of_nat i) <$> seq 0 (Z.to_nat height))
    by (unfold range; by rewrite Z.sub_0_r).
  apply G. lia.
Qed.

Lemma Ok_inj {A} (a b : A) : Ok a = Ok b -> a = b.
Proof. congruence. Qed.

(** The encoder in closed form: the stream is returned exactly when the
    two dimensions and the compressed length fit the four-byte fields. *)
Lemma create_png_unfold (zlib_compress : list Z -> Z -> list Z) width height px :
  create_png zlib_compress width height px =
    let idat := zlib_compress (raw_data width height px) 9 in
    if in_u32 width && in_u32 height && in_u32 (len idat)
    then Ok (signature
             ++ chunk tag_IHDR (be32 width ++ be32 height ++ [8; 6; 0; 0; 0])
             ++ chunk tag_IDAT idat
             ++ chunk tag_IEND [])
    else Raise StructError.
Proof.
  unfold create_png. rewrite pack_ihdr.
  destruct (in_u32 width && in_u32 height); cbn [rbind andb]; [| done].
  rewrite !pack_u32, !in_u32_crc32.
  change (in_u32 13) with true. change (in_u32 0) with true. cbn [rbind].
  destruct (in_u32 (len (zlib_compress (raw_data width height px) 9)));
    cbn [rbind]; [| done].
  unfold chunk. by rewrite app_nil_r.
Qed.

Lemma framed_intro tag payload :
  length tag = 4%nat -> in_u32 (len payload) = true -> framed tag payload.
Proof.
  intros Ht Hp. unfold framed. repeat split; try done.
  - apply be32_value. unfold in_u32 in Hp. lia.
  - apply be32_value, crc32_range.
Qed.

(** C2.  Every chunk of a stream returned by [create_png] (IHDR, IDAT,
    IEND) is a four-byte big-endian payload length, the four-byte type tag,
    the payload, and a four-byte big-endian checksum equal to the CRC-32
    of the tag followed by the payload. *)
Theorem png_chunks_framed (zlib_compress : list Z -> Z -> list Z)
        (width height : Z) (px out : list Z) :
  create_png zlib_compress width height px = Ok out ->
  exists ihdr idat,
    out = signature ++ chunk tag_IHDR ihdr ++ chunk tag_IDAT idat ++ chunk tag_IEND [] /\
    framed tag_IHDR ihdr /\ framed tag_IDAT idat /\ framed tag_IEND [].
Proof.
  rewrite create_png_unfold. cbv zeta.
  destruct (in_u32 width && in_u32 height) eqn:E1; [| discriminate].
  destruct (in_u32 (len _)) eqn:E2; [| discriminate]. cbn [andb].
  intros <-%Ok_inj. eexists _, _. split; [reflexivity |].
  split; [| split]; apply framed_intro; done.
Qed.

Lemma png_chunks_framed_witness :
  exists ihdr idat,
    [137; 80; 78; 71; 13; 10; 26; 10;
     0; 0; 0; 13; 73; 72; 68; 82; 0; 0; 0; 1; 0; 0; 0; 1; 8; 6; 0; 0; 0; 31; 21; 196; 137;
     0; 0; 0; 5; 73; 68; 65; 84; 0; 1; 2; 3; 4; 219; 244; 125; 24;
     0; 0; 0; 0; 73; 69; 78; 68; 174; 66; 96; 130]
    = signature ++ chunk tag_IHDR ihdr ++ chunk tag_IDAT idat ++ chunk tag_IEND [] /\
    framed tag_IHDR ihdr /\ framed tag_IDAT idat /\ framed tag_IEND [].
Proof.
  apply (png_chunks_framed (fun d _ => d) 1 1 [1; 2; 3; 4]).
  vm_compute. reflexivity.
Defined.

Section PngStream.

Variable zlib_compress : list Z -> Z -> list Z.
Variable zlib_decompress : list Z -> option (list Z).
Hypothesis zlib_roundtrip :
  forall data level, zlib_decompress (zlib_compress data level) = Some data.

(** C1.  For a buffer of [width * height * 4] bytes, the stream that
    [create_png] returns is the signature, an IHDR chunk whose 13-byte
    payload is width, height (big-endian), 8, 6, 0, 0, 0, one IDAT chunk
    whose payload decompresses to the scanlines in row order, each behind
    a filter byte 0, and a zero-length IEND chunk; it begins with the
    signature and ends with the IEND chunk.  The stream is returned
    exactly when the dimensions and the compressed length fit their
    four-byte fields. *)
Theorem create_png_structure (width height : Z) (px : list Z) :
  len px = width * height * 4 ->
  let idat := zlib_compress (raw_data width height px) 9 in
  let ihdr := be32 width ++ be32 height ++ [8; 6; 0; 0; 0] in
  ((exists out, create_png zlib_compress width height px = Ok out) <->
   (0 <= width < 2 ^ 32 /\ 0 <= height < 2 ^ 32 /\ len idat < 2 ^ 32)) /\
  forall out,
    create_png zlib_compress width height px = Ok out ->
    out = signature ++ chunk tag_IHDR ihdr ++ chunk tag_IDAT idat ++ chunk tag_IEND [] /\
    len ihdr = 13 /\
    be_value (be32 width) = width /\
    be_value (be32 height) = height /\
    zlib_decompress idat = Some (scanlines width height px) /\
    take 8 out = signature /\
    drop (length out - 12) out = chunk tag_IEND [] /\
    chunk tag_IEND [] = [0; 0; 0; 0; 73; 69; 78; 68; 174; 66; 96; 130].
Proof.
  intros Hl idat ihdr. rewrite create_png_unfold. cbv zeta. fold idat ihdr.
  assert (Hu : forall v, in_u32 v = true <-> 0 <= v < 2 ^ 32)
    by (intros v; unfold in_u32; lia).
  split.
  - split.
    + intros [out H].
      destruct (in_u32 width) eqn:E1, (in_u32 height) eqn:E2,
               (in_u32 (len idat)) eqn:E3; cbn [andb] in H; try discriminate.
      apply Hu in E1, E2, E3. lia.
    + intros (H1 & H2 & H3). apply Hu in H1, H2.
      assert (H3' : in_u32 (len idat) = true) by (apply Hu; unfold len in *; lia).
      rewrite H1, H2, H3'. cbn [andb]. eauto.
  - intros out.
    destruct (in_u32 width) eqn:E1; cbn [andb]; [| discriminate].
    destruct (in_u32 height) eqn:E2; cbn [andb]; [| discriminate].
    destruct (in_u32 (len idat)) eqn:E3; [| discriminate].
    intros <-%Ok_inj. apply Hu in E1, E2.
    split; [reflexivity |]. split; [reflexivity |].
    split; [by apply be32_value |]. split; [by apply be32_value |].
    split; [| split; [reflexivity |]; split].
    + subst idat. rewrite zlib_roundtrip, raw_data_scanlines by lia. done.
    + assert (H12 : length (chunk tag_IEND []) = 12%nat) by reflexivity.
      rewrite !length_app.
      replace (length signature + _ - 12)%nat
        with (length (signature ++ chunk tag_IHDR ihdr ++ chunk tag_IDAT idat))
        by (rewrite !length_app, H12; lia).
      replace (signature ++ chunk tag_IHDR ihdr ++ chunk tag_IDAT idat
               ++ chunk tag_IEND [])
        with ((signature ++ chunk tag_IHDR ihdr ++ chunk tag_IDAT idat)
              ++ chunk tag_IEND [])
        by (by rewrite <- !app_assoc).
      by rewrite drop_app_length.
    + vm_compute. reflexivity.
Qed.

End PngStream.

Lemma create_png_structure_witness :
  let px := [1; 2; 3; 4; 5; 6; 7; 8] in
  let out := [137; 80; 78; 71; 13; 10; 26; 10;
              0; 0; 0; 13; 73; 72; 68; 82; 0; 0; 0; 2; 0; 0; 0; 1; 8; 6; 0; 0; 0;
              244; 34; 127; 138;
              0; 0; 0; 9; 73; 68; 65; 84; 0; 1; 2; 3; 4; 5; 6; 7; 8; 251; 216; 230; 255;
              0; 0; 0; 0; 73; 69; 78; 68; 174; 66; 96; 130] in
  create_png (fun d _ => d) 2 1 px = Ok out /\
  Some (raw_data 2 1 px) = Some (scanlines 2 1 px) /\
  take 8 out = signature /\
  drop (length out - 12) out = chunk tag_IEND [].
Proof.
  intros px out.
  destruct (create_png_structure (fun d _ => d) Some (fun _ _ => eq_refl) 2 1 px eq_refl)
    as [_ H].
  assert (E : create_png (fun d _ => d) 2 1 px = Ok out) by (vm_compute; reflexivity).
  destruct (H out E) as (_ & _ & _ & _ & H1 & H2 & H3 & _).
  split; [exact E |]. split; [exact H1 |]. split; [exact H2 | exact H3].
Defined.

(** ** Purity of the composers *)

Lemma blind_ret {A} (a : A) : blind same_pixels (ret a).
Proof. by intros s1 s2 H. Qed.

Lemma blind_raise {A} e : blind same_pixels (raise (A := A) e).
Proof. by intros s1 s2 H. Qed.

Lemma blind_lift {A} (r : res A) : blind same_pixels (lift r).
Proof. by intros s1 s2 H. Qed.

Lemma blind_bind {A B} P (m : M A) (k : A -> M B) :
  blind P m -> (forall a, blind same_pixels (k a)) -> blind P (bind m k).
Proof.
  intros Hm Hk s1 s2 H. destruct (Hm s1 s2 H) as [H1 H2]. unfold bind.
  destruct (m s1) as [[a | e] s1'], (m s2) as [[a' | e'] s2']; cbn in *; try discriminate.
  - injection H1 as <-. by apply Hk, (H2 a).
  - by injection H1 as <-.
Qed.

Lemma blind_for_each {X} (l : list X) (body : X -> M unit) :
  (forall x, blind same_pixels (body x)) -> blind same_pixels (for_each l body).
Proof.
  intros Hb. induction l as [| x l IH]; cbn [for_each].
  - apply blind_ret.
  - apply blind_bind; [apply Hb | intros _; apply IH].
Qed.

Lemma blind_step (f : canvas -> list Z) (g : canvas -> canvas) :
  (forall s, pixels (g s) = f s) -> (forall s1 s2, pixels s1 = pixels s2 -> f s1 = f s2) ->
  blind same_pixels (fun s => (Ok tt, g s)).
Proof. intros Hg Hf s1 s2 H. cbn. split; [done |]. intros _ _. rewrite !Hg. by apply Hf. Qed.

Lemma blind_assign_item i v : blind same_pixels (assign_item i v).
Proof.
  intros s1 s2 H. unfold assign_item. rewrite <- H.
  by destruct (set_item (pixels s1) i v).
Qed.

Lemma blind_read_slice i j : blind same_pixels (read_slice i j).
Proof. intros s1 s2 H. unfold read_slice. cbn. by rewrite H. Qed.

Lemma blind_draw_circle width height cx cy radius color :
  blind same_pixels (draw_circle width height cx cy radius color).
Proof.
  unfold draw_circle.
  apply blind_bind; [by apply (blind_step pixels) | intros _].
  apply blind_for_each. intros y. apply blind_for_each. intros x.
  case_match; [| apply blind_ret].
  apply blind_bind; [by apply (blind_step pixels) | intros _].
  apply (blind_step (fun s => set_slice (pixels s) ((y * width + x) * 4)
                                         ((y * width + x) * 4 + 4) color)); [done |].
  by intros s1 s2 ->.
Qed.

Lemma blind_blend_pixel color idx : blind same_pixels (blend_pixel color idx).
Proof.
  unfold blend_pixel.
  apply blind_bind; [apply blind_read_slice | intros existing].
  repeat (apply blind_bind; [first [apply blind_lift | apply blind_assign_item] | intros ?]).
  apply blind_assign_item.
Qed.

Lemma blind_draw_triangle width height points color :
  blind same_pixels (draw_triangle width height points color).
Proof.
  unfold draw_triangle.
  apply blind_bind; [by apply (blind_step pixels) | intros _].
  destruct (sorted snd points) as [| p0 [| p1 [| p2 rest]]]; try apply blind_raise.
  case_match; [apply blind_ret |].
  apply blind_for_each. intros y. case_match; [apply blind_ret |].
  apply blind_bind; [apply blind_lift | intros xs].
  case_match; [| apply blind_ret].
  apply blind_for_each. intros x.
  apply blind_bind; [by apply (blind_step pixels) | intros _].
  apply blind_blend_pixel.
Qed.

Lemma blind_allocate n : blind (fun _ _ => True) (allocate n).
Proof.
  intros s1 s2 _. unfold allocate. by destruct (bytearray n).
Qed.

Lemma blind_clear : blind same_pixels clear.
Proof.
  intros s1 s2 H. unfold clear. rewrite <- H.
  apply blind_for_each; [| done]. intros i.
  apply (blind_step (fun s => set_slice (pixels s) i (i + 4) [0; 0; 0; 0])); [done |].
  by intros ? ? ->.
Qed.

Lemma blind_to_png zlib_compress width height :
  blind same_pixels (to_png zlib_compress width height).
Proof. intros s1 s2 H. unfold to_png. cbn. by rewrite H. Qed.

Lemma blind_if {A} (b : bool) (m1 m2 : M A) :
  blind same_pixels m1 -> blind same_pixels m2 ->
  blind same_pixels (if b then m1 else m2).
Proof. by destruct b. Qed.

Ltac blind_steps :=
  repeat lazymatch goal with
    | |- blind _ (bind _ _) => apply blind_bind; [| intros ?]
    | |- blind _ (lift _) => apply blind_lift
    | |- blind _ (ret _) => apply blind_ret
    | |- blind _ (if _ then _ else _) => apply blind_if
    | |- blind _ (draw_circle _ _ _ _ _ _) => apply blind_draw_circle
    | |- blind _ (draw_triangle _ _ _ _) => apply blind_draw_triangle
    | |- blind _ (to_png _ _ _) => apply blind_to_png
    | |- blind _ (allocate _) => apply blind_allocate
    | |- blind _ clear => apply blind_clear
    end.

Lemma blind_create_icon zlib_compress size :
  blind (fun _ _ => True) (create_icon zlib_compress size).
Proof. unfold create_icon. blind_steps. Qed.

Lemma blind_create_recording_icon zlib_compress size :
  blind (fun _ _ => True) (create_recording_icon zlib_compress size).
Proof. unfold create_recording_icon. blind_steps. Qed.

(** ** The generator writes the same files whatever it starts from *)

Lemma lookup_apply_writes ws fs k :
  apply_writes ws fs !! k =
    match last_write k ws with Some v => Some v | None => fs !! k end.
Proof.
  induction ws as [| kv ws IH] using rev_ind; [done |].
  unfold apply_writes, last_write in *. rewrite !fold_left_app. cbn [fold_left].
  rewrite lookup_insert. case_decide; [done | apply IH].
Qed.

Lemma apply_writes_idem ws fs : apply_writes ws (apply_writes ws fs) = apply_writes ws fs.
Proof.
  apply map_eq. intros k. rewrite !lookup_apply_writes.
  by destruct (last_write k ws).
Qed.

Lemma apply_writes_app ws1 ws2 fs :
  apply_writes (ws1 ++ ws2) fs = apply_writes ws2 (apply_writes ws1 fs).
Proof. unfold apply_writes. by rewrite fold_left_app. Qed.

Lemma oblivious_print line : oblivious (print line).
Proof. exists (Ok tt), [], [line]. by intros w. Qed.

Lemma oblivious_bind {A B} (m : ST world A) (k : A -> ST world B) :
  oblivious m -> (forall a, oblivious (k a)) -> oblivious (bind m k).
Proof.
  intros ([a | e] & ws & ls & Hm) Hk.
  - destruct (Hk a) as (r & ws' & ls' & Hka).
    exists r, (ws ++ ws'), (ls ++ ls'). intros w. unfold bind.
    rewrite Hm, Hka. cbn [files stdout]. by rewrite apply_writes_app, app_assoc.
  - exists (Raise e), ws, ls. intros w. unfold bind. by rewrite Hm.
Qed.

Lemma oblivious_for_each {X} (l : list X) (body : X -> ST world unit) :
  (forall x, oblivious (body x)) -> oblivious (for_each l body).
Proof.
  intros Hb. induction l as [| x l IH]; cbn [for_each].
  - exists (Ok tt), [], []. intros w. unfold ret. destruct w. cbn. by rewrite app_nil_r.
  - apply oblivious_bind; [apply Hb | intros _; apply IH].
Qed.

(** Writing a file: open (truncate), compute the data, write it. *)
Lemma oblivious_save name (r : res (list Z)) (after : ST world unit) :
  oblivious after ->
  oblivious (open_wb name ;; let* data := lift r in write name data ;; after).
Proof.
  intros Ha. destruct r as [data | e].
  - destruct Ha as (ra & ws & ls & Ha).
    exists ra, ([(name, []); (name, data)] ++ ws), ls. intros w.
    unfold bind, open_wb, lift, write. cbn [files stdout].
    rewrite Ha. cbn [files stdout]. rewrite lookup_insert_eq. cbn [default].
    by rewrite apply_writes_app, app_nil_l.
  - exists (Raise e), [(name, [])], []. intros w.
    unfold bind, open_wb, lift. cbn. by rewrite app_nil_r.
Qed.

Lemma oblivious_generate zlib_compress : oblivious (generate zlib_compress).
Proof.
  unfold generate.
  apply oblivious_bind; [apply oblivious_print | intros _].
  apply oblivious_bind.
  { apply oblivious_for_each. intros size. apply oblivious_save, oblivious_print. }
  intros _. apply oblivious_bind; [apply oblivious_print | intros _].
  apply oblivious_bind.
  { apply oblivious_for_each. intros size. apply oblivious_save, oblivious_print. }
  intros _.
  repeat (apply oblivious_bind; [apply oblivious_print | intros _]).
  apply oblivious_print.
Qed.

(** C9.  The generator is deterministic.  [create_icon] and
    [create_recording_icon] return the same PNG bytes (or raise the same
    exception) for the same size whatever state they are entered in, so
    they are functions of [size] alone; and a run of the generator yields
    the same result and the same files whatever the working directory held
    before, so that running it a second time leaves every file
    byte-identical. *)
Theorem generator_deterministic (zlib_compress : list Z -> Z -> list Z) :
  (forall size s1 s2,
      (create_icon zlib_compress size s1).1 = (create_icon zlib_compress size s2).1 /\
      (create_recording_icon zlib_compress size s1).1
      = (create_recording_icon zlib_compress size s2).1) /\
  (forall w1 w2,
      (generate zlib_compress w1).1 = (generate zlib_compress w2).1 /\
      (files w1 = files w2 ->
       files (generate zlib_compress w1).2 = files (generate zlib_compress w2).2)) /\
  (forall w,
      files (generate zlib_compress (generate zlib_compress w).2).2
      = files (generate zlib_compress w).2).
Proof.
  split; [| split].
  - intros size s1 s2. split.
    + by apply blind_create_icon.
    + by apply blind_create_recording_icon.
  - destruct (oblivious_generate zlib_compress) as (r & ws & ls & H).
    intros w1 w2. rewrite !H. cbn. split; [done |]. by intros ->.
  - destruct (oblivious_generate zlib_compress) as (r & ws & ls & H).
    intros w. rewrite !H. cbn [snd files]. apply apply_writes_idem.
Qed.

(** ** The drawing calls of a composer *)

Lemma blend_pixel_calls cs color idx :
  keeps (fun s => calls s = cs) (fun _ => False) (blend_pixel color idx) (fun _ => True).
Proof.
  assert (Hset : forall i v, keeps (fun s => calls s = cs) (fun _ => False)
                                   (assign_item i v) (fun _ => True)).
  { intros i v. apply keeps_assign_item; [| tauto]. by intros s l Hs _. }
  assert (Hlift : forall A (r : res A), keeps (fun s => calls s = cs) (fun _ => False)
                                              (lift r) (fun _ => True)).
  { intros A r. apply keeps_lift. destruct r; tauto. }
  unfold blend_pixel.
  eapply keeps_bind; [apply keeps_read_slice | intros existing _].
  repeat (eapply keeps_bind with (R := fun _ => True);
          [first [apply Hlift | apply Hset] | intros ? _]).
  apply Hset.
Qed.

Lemma draw_circle_calls width height cx cy radius color s :
  calls (draw_circle width height cx cy radius color s).2
  = Circle cx cy radius color :: calls s.
Proof.
  unfold draw_circle, bind. cbn [enter].
  set (s0 := Canvas _ _ _).
  assert (K : keeps (fun s' => calls s' = Circle cx cy radius color :: calls s)
                    (fun _ => False)
                    (for_each (range (Z.max 0 (cy - radius)) (Z.min height (cy + radius + 1)))
                       (fun y => for_each (range (Z.max 0 (cx - radius))
                                                 (Z.min width (cx + radius + 1)))
                          (fun x =>
                             if (x - cx) * (x - cx) + (y - cy) * (y - cy) <=? radius * radius
                             then touch x y ;;
                                  assign_slice ((y * width + x) * 4)
                                               ((y * width + x) * 4 + 4) color
                             else ret tt)))
                    (fun _ => True)).
  { apply keeps_for_each. intros y _. apply keeps_for_each. intros x _.
    case_match; [| by apply keeps_ret].
    eapply keeps_bind; [by apply keeps_step | intros _ _; by apply keeps_step]. }
  by destruct (K s0 eq_refl).
Qed.

Lemma draw_triangle_calls width height points color s :
  calls (draw_triangle width height points color s).2
  = Triangle points color :: calls s.
Proof.
  unfold draw_triangle. unfold bind at 1. cbn [enter].
  set (s0 := Canvas _ _ _).
  assert (K : forall m, keeps (fun s' => calls s' = Triangle points color :: calls s)
                              (fun _ => False) m (fun _ : unit => True) ->
                        calls (m s0).2 = Triangle points color :: calls s).
  { intros m Hm. by destruct (Hm s0 eq_refl). }
  apply K.
  destruct (sorted snd points) as [| p0 [| p1 [| p2 rest]]];
    try (apply keeps_raise; tauto).
  case_match; [by apply keeps_ret |].
  apply keeps_for_each. intros y _.
  case_match; [by apply keeps_ret |].
  eapply keeps_bind with (R := fun _ => True).
  { apply keeps_lift. destruct (x_intersections _ _); tauto. }
  intros xs _. case_match; [| by apply keeps_ret].
  apply keeps_for_each. intros x _.
  eapply keeps_bind; [by apply keeps_step | intros _ _].
  apply blend_pixel_calls.
Qed.

(** *** When the triangle fill returns *)

Lemma draw_triangle_total width height points color :
  blend_safe color = true -> scan_safe height points = true ->
  keeps (sound (width * height * 4)) (fun _ => True)
        (draw_triangle width height points color) (fun _ => True).
Proof.
  intros Hb Hs. unfold draw_triangle, scan_safe in *.
  eapply keeps_bind; [by apply keeps_step | intros _ _].
  destruct (sorted snd points) as [| p0 [| p1 [| p2 rest]]]; try discriminate.
  case_match; [by apply keeps_ret |].
  apply keeps_for_each. intros y Hy.
  destruct ((y <? 0) || (height <=? y)) eqn:Hg; [by apply keeps_ret |].
  apply Is_true_true, forallb_True in Hs. rewrite Forall_forall in Hs.
  specialize (Hs y Hy). cbv beta in Hs.
  destruct (x_intersections y _) as [xs |]; [| done].
  eapply keeps_bind with (R := fun a => a = xs); [by apply keeps_lift | intros xs' ->].
  case_match; [| by apply keeps_ret].
  apply keeps_for_each. intros x Hx%in_range.
  eapply keeps_bind; [by apply keeps_step | intros _ _].
  destruct (pixel_index_inside width height x y); [lia | lia |].
  by apply blend_pixel_total.
Qed.

(** *** Running a composer symbolically *)

Lemma returns_bind {A B} P Q R (m : M A) (k : A -> M B) :
  returns P m Q -> (forall a, returns Q (k a) R) -> returns P (bind m k) R.
Proof.
  intros Hm Hk s Hs. destruct (Hm s Hs) as (a & E & HQ). unfold bind.
  destruct (m s) as [r s1]. cbn in E, HQ. subst r. by apply Hk.
Qed.

Lemma returns_lift_bind {A B} P R (r : res A) a (k : A -> M B) :
  r = Ok a -> returns P (k a) R -> returns P (bind (lift r) k) R.
Proof. intros -> Hk s Hs. unfold bind, lift. by apply Hk. Qed.

Lemma returns_ret P : returns P (ret tt) P.
Proof. intros s Hs. by exists tt. Qed.

Lemma returns_circle n cs width height cx cy radius color :
  n = width * height * 4 -> len color = 4 -> Forall is_byte color ->
  returns (tracked n cs) (draw_circle width height cx cy radius color)
          (tracked n (Circle cx cy radius color :: cs)).
Proof.
  intros -> Hc Hb s [Hs Hcs]. exists tt. split; [apply draw_circle_returns |].
  split.
  - by destruct (draw_circle_sound width height cx cy radius color Hc Hb s Hs).
  - by rewrite draw_circle_calls, Hcs.
Qed.

Lemma returns_triangle n cs width height points color :
  n = width * height * 4 -> blend_safe color = true -> scan_safe height points = true ->
  returns (tracked n cs) (draw_triangle width height points color)
          (tracked n (Triangle points color :: cs)).
Proof.
  intros -> Hb Hsc s [Hs Hcs].
  destruct (draw_triangle_total width height points color Hb Hsc s Hs) as [H1 H2].
  destruct (draw_triangle width height points color s).1 as [[] | e] eqn:E; [| done].
  exists tt. split; [done |]. split; [done |].
  by rewrite draw_triangle_calls, Hcs.
Qed.

Lemma returns_allocate n cs :
  0 <= n -> returns (fun s => calls s = cs) (allocate n) (tracked n cs).
Proof.
  intros Hn s Hs. exists tt. unfold allocate, bytearray.
  destruct (Z.ltb_spec n 0); [lia |]. cbn [fst snd]. split; [done |].
  split; [| done]. split; cbn [pixels].
  - unfold len. rewrite length_replicate. lia.
  - apply Forall_replicate. unfold is_byte. lia.
Qed.

Lemma in_range_step n x :
  n mod 4 = 0 -> x ∈ range_step 0 n 4 -> 0 <= x /\ x + 4 <= n.
Proof.
  intros Hn. unfold range_step. rewrite list_elem_of_fmap.
  intros (i & -> & Hi%elem_of_seq).
  destruct (Z.le_gt_cases 0 (n - 0 + 4 - 1)) as [H | H].
  - assert (Z.of_nat i < (n - 0 + 4 - 1) / 4) by lia.
    Z.to_euclidean_division_equations. lia.
  - assert ((n - 0 + 4 - 1) / 4 < 0) by (Z.to_euclidean_division_equations; lia).
    lia.
Qed.

Lemma returns_clear n cs : n mod 4 = 0 -> returns (tracked n cs) clear (tracked n cs).
Proof.
  intros Hn s [[Hl Hb] Hcs]. exists tt. unfold clear. split.
  - by apply for_each_returns.
  - assert (K : keeps (tracked n cs) (fun _ => True)
                      (for_each (range_step 0 (len (pixels s)) 4)
                                (fun i => assign_slice i (i + 4) [0; 0; 0; 0]))
                      (fun _ => True)).
    { apply keeps_for_each. intros i Hi. rewrite Hl in Hi.
      apply in_range_step in Hi as [? ?]; [| done].
      apply keeps_step. intros s' [[Hl' Hb'] Hcs']. split; [| done].
      split; cbn [pixels].
      - rewrite set_slice_len; [done | lia | lia | lia | reflexivity].
      - apply set_slice_bytes; [done |]. repeat constructor; unfold is_byte; lia. }
    by destruct (K s).
Qed.

Lemma ends_bind {A B} P Q R (m : M A) (k : A -> M B) :
  returns P m Q -> (forall a, ends Q (k a) R) -> ends P (bind m k) R.
Proof.
  intros Hm Hk s Hs. destruct (Hm s Hs) as (a & E & HQ). unfold bind.
  destruct (m s) as [r s1]. cbn in E, HQ. subst r. by apply Hk.
Qed.

Lemma ends_lift_bind {A B} P R (r : res A) a (k : A -> M B) :
  r = Ok a -> ends P (k a) R -> ends P (bind (lift r) k) R.
Proof. intros -> Hk s Hs. unfold bind, lift. by apply Hk. Qed.

Lemma ends_to_png zlib_compress width height P :
  ends P (to_png zlib_compress width height) P.
Proof. by intros s Hs. Qed.

Ltac run :=
  lazymatch goal with
  | |- ends _ (bind (lift _) _) _ =>
      eapply ends_lift_bind; [vm_compute; reflexivity | cbv beta; run]
  | |- ends _ (bind _ _) _ => eapply ends_bind; [run | intros _; run]
  | |- ends _ (to_png _ _ _) _ => apply ends_to_png
  | |- returns _ (bind (lift _) _) _ =>
      eapply returns_lift_bind; [vm_compute; reflexivity | cbv beta; run]
  | |- returns _ (bind _ _) _ => eapply returns_bind; [run | intros _; run]
  | |- returns _ (if ?b then _ else _) _ =>
      let v := eval vm_compute in b in change b with v; cbv iota; run
  | |- returns _ (draw_circle _ _ _ _ _ _) _ =>
      apply returns_circle;
      [reflexivity | reflexivity | repeat constructor; unfold is_byte; lia]
  | |- returns _ (draw_triangle _ _ _ _) _ =>
      apply returns_triangle;
      [reflexivity | vm_compute; reflexivity | vm_compute; reflexivity]
  | |- returns _ clear _ => apply returns_clear; reflexivity
  | |- returns _ (allocate _) _ => apply returns_allocate; lia
  | |- returns _ (ret tt) _ => apply returns_ret
  end.

Ltac trace_of rtn :=
  match goal with
  | |- calls (?m fresh).2 = _ =>
      let H := fresh "H" in
      eassert (H : ends (fun s => calls s = []) m (tracked _ _));
      [unfold rtn; cbv zeta; run
      | destruct (H fresh eq_refl) as [_ ->]; reflexivity]
  end.

Lemma icon_calls_16 zc :
  calls (create_icon zc 16 fresh).2 =
    [Circle 8 8 2 [239; 68; 68; 255]; Circle 8 8 6 [30; 64; 175; 255];
     Circle 8 8 7 [59; 130; 246; 255]; Circle 8 8 7 [30; 64; 175; 255]].
Proof. trace_of @create_icon. Qed.

Lemma icon_calls_32 zc :
  calls (create_icon zc 32 fresh).2 =
    [Triangle [(10, 12); (10, 20); (22, 16)] [255; 255; 255; 176];
     Circle 16 16 4 [239; 68; 68; 255]; Circle 16 16 13 [30; 64; 175; 255];
     Circle 16 16 14 [59; 130; 246; 255]; Circle 16 16 15 [30; 64; 175; 255]].
Proof. trace_of @create_icon. Qed.

Lemma icon_calls_48 zc :
  calls (create_icon zc 48 fresh).2 =
    [Circle 37 37 2 [16; 185; 129; 255]; Circle 11 37 2 [16; 185; 129; 255];
     Circle 37 11 2 [16; 185; 129; 255]; Circle 11 11 2 [16; 185; 129; 255];
     Triangle [(15, 18); (15, 30); (33, 24)] [255; 255; 255; 176];
     Circle 24 24 7 [239; 68; 68; 255]; Circle 24 24 20 [30; 64; 175; 255];
     Circle 24 24 21 [59; 130; 246; 255]; Circle 24 24 22 [30; 64; 175; 255]].
Proof. trace_of @create_icon. Qed.

Lemma icon_calls_128 zc :
  calls (create_icon zc 128 fresh).2 =
    [Circle 99 99 5 [16; 185; 129; 255]; Circle 29 99 5 [16; 185; 129; 255];
     Circle 99 29 5 [16; 185; 129; 255]; Circle 29 29 5 [16; 185; 129; 255];
     Triangle [(39, 47); (39, 81); (89, 64)] [255; 255; 255; 176];
     Circle 64 64 19 [239; 68; 68; 255]; Circle 64 64 53 [30; 64; 175; 255];
     Circle 64 64 57 [59; 130; 246; 255]; Circle 64 64 60 [30; 64; 175; 255]].
Proof. trace_of @create_icon. Qed.

Lemma recording_calls_16 zc :
  calls (create_recording_icon zc 16 fresh).2 =
    [Circle 8 8 3 [255; 0; 0; 255]; Circle 8 8 6 [127; 29; 29; 255];
     Circle 8 8 7 [239; 68; 68; 255]; Circle 8 8 7 [127; 29; 29; 255]].
Proof. trace_of @create_recording_icon. Qed.

Lemma recording_calls_32 zc :
  calls (create_recording_icon zc 32 fresh).2 =
    [Circle 16 16 2 [255; 255; 255; 255];
     Circle 16 16 6 [255; 0; 0; 255]; Circle 16 16 13 [127; 29; 29; 255];
     Circle 16 16 14 [239; 68; 68; 255]; Circle 16 16 15 [127; 29; 29; 255]].
Proof. trace_of @create_recording_icon. Qed.

Lemma recording_calls_48 zc :
  calls (create_recording_icon zc 48 fresh).2 =
    [Circle 37 37 2 [239; 68; 68; 255]; Circle 11 37 2 [239; 68; 68; 255];
     Circle 37 11 2 [239; 68; 68; 255]; Circle 11 11 2 [239; 68; 68; 255];
     Circle 24 24 3 [255; 255; 255; 255];
     Circle 24 24 9 [255; 0; 0; 255]; Circle 24 24 20 [127; 29; 29; 255];
     Circle 24 24 21 [239; 68; 68; 255]; Circle 24 24 22 [127; 29; 29; 255]].
Proof. trace_of @create_recording_icon. Qed.

Lemma recording_calls_128 zc :
  calls (create_recording_icon zc 128 fresh).2 =
    [Circle 99 99 5 [239; 68; 68; 255]; Circle 29 99 5 [239; 68; 68; 255];
     Circle 99 29 5 [239; 68; 68; 255]; Circle 29 29 5 [239; 68; 68; 255];
     Circle 64 64 10 [255; 255; 255; 255];
     Circle 64 64 25 [255; 0; 0; 255]; Circle 64 64 53 [127; 29; 29; 255];
     Circle 64 64 57 [239; 68; 68; 255]; Circle 64 64 60 [127; 29; 29; 255]].
Proof. trace_of @create_recording_icon. Qed.

(** *** Conditional detail *)

(** C8, as the composers have it.  For every size in {16, 32, 48, 128}:
    [create_icon] draws the play-arrow triangle if and only if
    [size >= 32]; [create_recording_icon] never draws a triangle, and draws
    its white centre indicator if and only if [size >= 32]; both draw the
    four corner dots if and only if [size >= 48], and none below. *)
Theorem icon_detail (zlib_compress : list Z -> Z -> list Z) (size : Z) :
  size ∈ sizes ->
  let normal := calls (create_icon zlib_compress size fresh).2 in
  let recording := calls (create_recording_icon zlib_compress size fresh).2 in
  arrow_drawn normal = (32 <=? size) /\
  corner_dots size normal = (if 48 <=? size then 4%nat else 0%nat) /\
  arrow_drawn recording = false /\
  indicator_drawn size recording = (32 <=? size) /\
  corner_dots size recording = (if 48 <=? size then 4%nat else 0%nat).
Proof.
  intros Hs. unfold sizes in Hs.
  repeat (apply elem_of_cons in Hs as [-> | Hs]); [| | | | by apply elem_of_nil in Hs];
    cbv zeta.
  - by rewrite icon_calls_16, recording_calls_16.
  - by rewrite icon_calls_32, recording_calls_32.
  - by rewrite icon_calls_48, recording_calls_48.
  - by rewrite icon_calls_128, recording_calls_128.
Qed.

Lemma icon_detail_witness :
  let normal := calls (create_icon (fun d _ => d) 48 fresh).2 in
  let recording := calls (create_recording_icon (fun d _ => d) 48 fresh).2 in
  arrow_drawn normal = true /\
  corner_dots 48 normal = 4%nat /\
  arrow_drawn recording = false /\
  indicator_drawn 48 recording = true /\
  corner_dots 48 recording = 4%nat.
Proof.
  apply (icon_detail (fun d _ => d) 48).
  unfold sizes. apply elem_of_cons. right. apply elem_of_cons. right. left.
Defined.

(** The claim as worded asks the arrow of both composers at size 32;
    [create_recording_icon] draws none. *)
Lemma recording_icon_draws_no_arrow :
  ~ (32 ∈ sizes ->
     arrow_drawn (calls (create_recording_icon (fun d _ => d) 32 fresh).2) = (32 <=? 32)).
Proof.
  intros H.
  assert (Hin : 32 ∈ sizes) by (unfold sizes; apply elem_of_cons; right; left).
  specialize (H Hin). vm_compute in H. discriminate.
Qed.

(** * Further properties of the code *)

(** ** Edge cases of the drawing routines *)

Lemma range_empty a b : b <= a -> range a b = [].
Proof. intros H. unfold range. by replace (Z.to_nat (b - a)) with 0%nat by lia. Qed.

(** X1.  A circle of negative radius draws nothing. *)
Theorem draw_circle_negative_radius (width height cx cy radius : Z) (color : list Z)
        (s : canvas) :
  radius < 0 ->
  let r := draw_circle width height cx cy radius color s in
  r.1 = Ok tt /\ pixels r.2 = pixels s /\ touched r.2 = touched s.
Proof.
  intros Hr r. subst r. unfold draw_circle, bind, enter.
  rewrite range_empty by lia. done.
Qed.

Lemma draw_circle_negative_radius_witness :
  let r := draw_circle 2 2 0 0 (-1) [1; 2; 3; 4] (blank 2 2) in
  r.1 = Ok tt /\ pixels r.2 = pixels (blank 2 2) /\ touched r.2 = touched (blank 2 2).
Proof. apply (draw_circle_negative_radius 2 2 0 0 (-1) [1; 2; 3; 4] (blank 2 2)). lia. Defined.

(** The three vertices in the order of [sorted]: the first has the
    smallest [y], the last the largest. *)
Lemma sorted_three (a b c : Z * Z) :
  exists p0 p1 p2,
    sorted snd [a; b; c] = [p0; p1; p2] /\
    p0.2 = Z.min a.2 (Z.min b.2 c.2) /\
    p2.2 = Z.max a.2 (Z.max b.2 c.2).
Proof.
  unfold sorted. cbn [foldr insert_by].
  destruct (Z.leb_spec b.2 c.2); cbn [insert_by];
    destruct (Z.leb_spec a.2 b.2); cbn [insert_by];
    try destruct (Z.leb_spec a.2 c.2); cbn [insert_by];
    eexists _, _, _; (split; [reflexivity |]); lia.
Qed.

(** X4.  With fewer than three vertices the fill raises [IndexError] before it
    writes anything. *)
Theorem draw_triangle_few_points (width height : Z) (points : list (Z * Z))
        (color : list Z) (s : canvas) :
  (length points < 3)%nat ->
  let r := draw_triangle width height points color s in
  r.1 = Raise IndexError /\ pixels r.2 = pixels s /\ touched r.2 = touched s.
Proof.
  intros Hp r. subst r. unfold draw_triangle, bind, enter.
  pose proof (length_sorted snd points) as Hl.
  destruct (sorted snd points) as [| p0 [| p1 [| p2 rest]]]; cbn in Hl; [done | done | done | lia].
Qed.

Lemma draw_triangle_few_points_witness :
  let r := draw_triangle 2 2 [(0, 0); (1, 1)] [1; 2; 3; 4] (blank 2 2) in
  r.1 = Raise IndexError /\ pixels r.2 = pixels (blank 2 2) /\
  touched r.2 = touched (blank 2 2).
Proof.
  apply (draw_triangle_few_points 2 2 [(0, 0); (1, 1)] [1; 2; 3; 4] (blank 2 2)).
  cbn. lia.
Defined.

Lemma for_each_skipped {S X} (c : X -> bool) (l : list X) (b : X -> ST S unit) s :
  (forall x, x ∈ l -> c x = true) ->
  for_each l (fun x => if c x then ret tt else b x) s = (Ok tt, s).
Proof.
  revert s. induction l as [| x l IH]; intros s Hc; [done |].
  cbn [for_each]. rewrite (Hc x) by left. unfold bind, ret.
  apply IH. intros y Hy. apply Hc. by right.
Qed.

(** X5.  A triangle that lies above or below the image is skipped row by row,
    before any interpolation: the call returns and nothing is written,
    however large the coordinates are. *)
Theorem draw_triangle_offscreen (width height : Z) (a b c : Z * Z) (color : list Z)
        (s : canvas) :
  (a.2 < 0 /\ b.2 < 0 /\ c.2 < 0) \/ (height <= a.2 /\ height <= b.2 /\ height <= c.2) ->
  let r := draw_triangle width height [a; b; c] color s in
  r.1 = Ok tt /\ pixels r.2 = pixels s /\ touched r.2 = touched s.
Proof.
  intros H r. subst r.
  destruct (sorted_three a b c) as (p0 & p1 & p2 & Hs & H0 & H2).
  unfold draw_triangle, bind, enter. rewrite Hs.
  destruct (p2.2 =? p0.2); [done |].
  rewrite (for_each_skipped (fun y => (y <? 0) || (height <=? y))); [done |].
  intros y Hy%in_range. lia.
Qed.

Lemma draw_triangle_offscreen_witness :
  let r := draw_triangle 2 2 [(0, -5); (2 ^ 2000, -1); (- 2 ^ 2000, -3)] [1; 2; 3; 4]
                         (blank 2 2) in
  r.1 = Ok tt /\ pixels r.2 = pixels (blank 2 2) /\ touched r.2 = touched (blank 2 2).
Proof.
  apply (draw_triangle_offscreen 2 2 (0, -5) (2 ^ 2000, -1) (- 2 ^ 2000, -3)
                                 [1; 2; 3; 4] (blank 2 2)).
  left. cbn. lia.
Defined.

(** Two buffers of the image size with the same pixels are equal. *)
Lemma pixels_ext width height (a b : list Z) :
  0 <= width -> 0 <= height ->
  len a = width * height * 4 -> len b = width * height * 4 ->
  (forall p, in_image width height p -> pixel_at a width p = pixel_at b width p) ->
  a = b.
Proof.
  intros Hw Hh Ha Hb H. apply list_eq. intros i.
  destruct (decide (i < length a)%nat) as [Hi | Hi].
  2: { unfold len in *. rewrite !lookup_ge_None_2; [done | lia | lia]. }
  unfold len in Ha, Hb.
  set (q := Z.of_nat i / 4). set (k := Z.of_nat i mod 4).
  assert (Hq : Z.of_nat i = 4 * q + k) by (apply Z.div_mod; lia).
  assert (Hk : 0 <= k < 4) by (apply Z.mod_pos_bound; lia).
  assert (Hq0 : 0 <= q) by (apply Z.div_pos; lia).
  assert (Hw0 : 0 < width) by nia.
  assert (Hqw : q < width * height) by lia.
  set (p := (q mod width, q / width)).
  assert (Hdm : q = width * (q / width) + q mod width) by (apply Z.div_mod; lia).
  assert (Hp : in_image width height p).
  { unfold in_image, p. cbn [fst snd]. split; [apply Z.mod_pos_bound; lia |].
    split; [apply Z.div_pos; lia |]. apply Z.div_lt_upper_bound; lia. }
  specialize (H p Hp).
  rewrite (pixel_at_inside a width height), (pixel_at_inside b width height) in H
    by (unfold len; lia || done).
  assert (Hidx : (p.2 * width + p.1) * 4 = 4 * q) by (unfold p; cbn [fst snd]; lia).
  rewrite Hidx in H.
  apply (f_equal (fun l => l !! Z.to_nat k)) in H.
  rewrite !lookup_take_lt, !lookup_drop in H by lia.
  by replace (Z.to_nat (4 * q) + Z.to_nat k)%nat with i in H by lia.
Qed.

Lemma in_disk_dec cx cy radius p : in_disk cx cy radius p \/ ~ in_disk cx cy radius p.
Proof. unfold in_disk. lia. Qed.

(** What [draw_circle] leaves in the buffer. *)
Lemma draw_circle_pixels width height cx cy radius color s :
  len (pixels s) = width * height * 4 -> len color = 4 ->
  let s' := (draw_circle width height cx cy radius color s).2 in
  len (pixels s') = width * height * 4 /\
  forall p, in_image width height p ->
    (0 <= radius -> in_disk cx cy radius p -> pixel_at (pixels s') width p = color) /\
    (radius < 0 \/ ~ in_disk cx cy radius p ->
       pixel_at (pixels s') width p = pixel_at (pixels s) width p).
Proof.
  intros Hl Hc s'.
  destruct (draw_circle_painted width height cx cy radius color s Hl Hc)
    as (ws & (Hl' & _ & _ & _ & Hpx) & Hws).
  fold s' in Hl', Hpx. split; [done |].
  intros p Hp. destruct (Hpx p Hp) as [H1 H2]. cbn [pixels] in *.
  split.
  - intros Hr Hd. apply H1. rewrite Hws, !in_range.
    unfold in_disk, in_image in *.
    pose proof (Z.square_nonneg (p.1 - cx)). pose proof (Z.square_nonneg (p.2 - cy)).
    assert (- radius <= p.1 - cx <= radius) by (apply square_le_bound; lia).
    assert (- radius <= p.2 - cy <= radius) by (apply square_le_bound; lia).
    split; [| split; [| done]]; lia.
  - intros Hd. apply H2. rewrite Hws, !in_range. intros (Hy & Hx & Hin).
    destruct Hd as [Hr | Hd]; [lia | done].
Qed.

(** X2.  Drawing the same circle a second time changes nothing. *)
Theorem draw_circle_twice (width height cx cy radius : Z) (color : list Z) (s : canvas) :
  0 <= width -> 0 <= height ->
  len (pixels s) = width * height * 4 ->
  len color = 4 ->
  let s1 := (draw_circle width height cx cy radius color s).2 in
  let s2 := (draw_circle width height cx cy radius color s1).2 in
  pixels s2 = pixels s1.
Proof.
  intros Hw Hh Hl Hc s1 s2.
  destruct (draw_circle_pixels width height cx cy radius color s Hl Hc) as [Hl1 H1].
  fold s1 in Hl1, H1.
  destruct (draw_circle_pixels width height cx cy radius color s1 Hl1 Hc) as [Hl2 H2].
  fold s2 in Hl2, H2.
  apply (pixels_ext width height); try done.
  intros p Hp. destruct (H1 p Hp) as [H1a H1b], (H2 p Hp) as [H2a H2b].
  destruct (Z.lt_ge_cases radius 0) as [Hr | Hr]; [by apply H2b; left |].
  destruct (in_disk_dec cx cy radius p) as [Hd | Hd].
  - by rewrite H2a, H1a.
  - apply H2b. by right.
Qed.

Lemma draw_circle_twice_witness :
  let s1 := (draw_circle 3 3 1 1 1 [1; 2; 3; 4] (blank 3 3)).2 in
  let s2 := (draw_circle 3 3 1 1 1 [1; 2; 3; 4] s1).2 in
  pixels s2 = pixels s1.
Proof.
  apply (draw_circle_twice 3 3 1 1 1 [1; 2; 3; 4] (blank 3 3)); (lia || reflexivity).
Defined.

(** X3.  Two circles that share no pixel of the image can be drawn in either
    order. *)
Theorem draw_circle_commute (width height : Z) (cx1 cy1 r1 : Z) (color1 : list Z)
        (cx2 cy2 r2 : Z) (color2 : list Z) (s : canvas) :
  0 <= width -> 0 <= height ->
  len (pixels s) = width * height * 4 ->
  len color1 = 4 -> len color2 = 4 ->
  (forall p, in_image width height p ->
             ~ (in_disk cx1 cy1 r1 p /\ in_disk cx2 cy2 r2 p)) ->
  pixels (draw_circle width height cx2 cy2 r2 color2
            (draw_circle width height cx1 cy1 r1 color1 s).2).2
  = pixels (draw_circle width height cx1 cy1 r1 color1
              (draw_circle width height cx2 cy2 r2 color2 s).2).2.
Proof.
  intros Hw Hh Hl Hc1 Hc2 Hdis.
  destruct (draw_circle_pixels width height cx1 cy1 r1 color1 s Hl Hc1) as [Hl1 H1].
  destruct (draw_circle_pixels width height cx2 cy2 r2 color2 s Hl Hc2) as [Hl2 H2].
  cbv zeta in *.
  destruct (draw_circle_pixels width height cx2 cy2 r2 color2 _ Hl1 Hc2) as [Hl12 H12].
  destruct (draw_circle_pixels width height cx1 cy1 r1 color1 _ Hl2 Hc1) as [Hl21 H21].
  cbv zeta in *.
  apply (pixels_ext width height); try done.
  intros p Hp.
  destruct (H1 p Hp) as [H1a H1b], (H2 p Hp) as [H2a H2b],
           (H12 p Hp) as [H12a H12b], (H21 p Hp) as [H21a H21b].
  specialize (Hdis p Hp).
  assert (D1 : (0 <= r1 /\ in_disk cx1 cy1 r1 p) \/ (r1 < 0 \/ ~ in_disk cx1 cy1 r1 p))
    by (destruct (Z.lt_ge_cases r1 0); destruct (in_disk_dec cx1 cy1 r1 p); tauto).
  assert (D2 : (0 <= r2 /\ in_disk cx2 cy2 r2 p) \/ (r2 < 0 \/ ~ in_disk cx2 cy2 r2 p))
    by (destruct (Z.lt_ge_cases r2 0); destruct (in_disk_dec cx2 cy2 r2 p); tauto).
  destruct D1 as [[Hr1 Hd1] | Hd1], D2 as [[Hr2 Hd2] | Hd2].
  - tauto.
  - by rewrite H12b, H1a, H21a.
  - by rewrite H12a, H21b, H2a.
  - by rewrite H12b, H1b, H21b, H2b.
Qed.

Lemma draw_circle_commute_witness :
  pixels (draw_circle 4 4 3 3 0 [5; 6; 7; 8]
            (draw_circle 4 4 0 0 1 [1; 2; 3; 4] (blank 4 4)).2).2
  = pixels (draw_circle 4 4 0 0 1 [1; 2; 3; 4]
              (draw_circle 4 4 3 3 0 [5; 6; 7; 8] (blank 4 4)).2).2.
Proof.
  apply (draw_circle_commute 4 4 0 0 1 [1; 2; 3; 4] 3 3 0 [5; 6; 7; 8] (blank 4 4));
    try (lia || reflexivity).
  intros p [Hx Hy]. unfold in_disk. nia.
Defined.

(** ** Fully transparent colours *)

(** [color * (0/255.0)] is [0.0] for every byte. *)
Lemma transparent_color c :
  is_byte c ->
  exists fc, float_of_int c = Ok fc /\
             fmul fc (fdiv (S754_zero false) (float_lit 255)) = S754_zero false.
Proof.
  intros Hc.
  pose proof (bytes_check
    (fun c => match float_of_int c with
              | Ok fc =>
                  match fmul fc (fdiv (S754_zero false) (float_lit 255))
                  with S754_zero false => true | _ => false end
              | Raise _ => false
              end) ltac:(vm_compute; reflexivity) c Hc) as H.
  cbv beta in H. destruct (float_of_int c) as [fc |]; [| discriminate].
  exists fc. split; [done |].
  destruct (fmul _ _) as [[] | | |]; done.
Qed.

(** [existing * (1 - 0/255.0) + 0.0] truncates to [existing] for every
    byte. *)
Lemma transparent_existing e :
  is_byte e ->
  exists fe, float_of_int e = Ok fe /\
             int_of_float
               (fadd (fmul fe (fsub (float_lit 1) (fdiv (S754_zero false) (float_lit 255))))
                     (S754_zero false)) = Ok e.
Proof.
  intros He.
  pose proof (bytes_check
    (fun e => match float_of_int e with
              | Ok fe =>
                  match int_of_float
                          (fadd (fmul fe (fsub (float_lit 1)
                                            (fdiv (S754_zero false) (float_lit 255))))
                                (S754_zero false))
                  with Ok v => v =? e | Raise _ => false end
              | Raise _ => false
              end) ltac:(vm_compute; reflexivity) e He) as H.
  cbv beta in H. destruct (float_of_int e) as [fe |]; [| discriminate].
  exists fe. split; [done |].
  destruct (int_of_float _) as [v |]; [| discriminate].
  apply Z.eqb_eq in H. by subst.
Qed.

Lemma blend_transparent e c : is_byte e -> is_byte c -> blend_value e c 0 = Ok e.
Proof.
  intros He Hc. unfold blend_value.
  change (float_of_int 0) with (Ok (S754_zero false)). cbn [rbind].
  destruct (transparent_existing e He) as (fe & Hfe & Hv).
  destruct (transparent_color c Hc) as (fc & Hfc & Hz).
  rewrite Hfe. cbn [rbind]. rewrite Hfc. cbn [rbind]. by rewrite Hz.
Qed.

(** X7.  A triangle of alpha 0 leaves a buffer of bytes as it is, whether the
    call returns or raises. *)
Theorem transparent_triangle_noop (width height : Z) (points : list (Z * Z))
        (c0 c1 c2 : Z) (s : canvas) :
  0 <= width -> 0 <= height ->
  len (pixels s) = width * height * 4 ->
  Forall is_byte (pixels s) ->
  Forall is_byte [c0; c1; c2] ->
  pixels (draw_triangle width height points [c0; c1; c2; 0] s).2 = pixels s.
Proof.
  intros Hw Hh Hl Hb Hc.
  assert (Hc' : Forall is_byte [c0; c1; c2; 0]).
  { rewrite !Forall_cons in Hc. destruct Hc as (? & ? & ? & _).
    rewrite !Forall_cons. unfold is_byte in *. repeat split; (done || lia). }
  destruct (draw_triangle_painted_always width height points [c0; c1; c2; 0] s
              Hl Hb eq_refl Hc')
    as (filled & Hl' & _ & _ & _ & Hpx).
  cbn [pixels] in Hpx.
  apply (pixels_ext width height); try done.
  intros p Hp. destruct (Hpx p Hp) as [H1 H2].
  destruct (decide (p ∈ filled)) as [Hin | Hin]; [| by apply H2].
  destruct (H1 Hin) as (e0 & e1 & e2 & e3 & ? & ? & ? & A & v0 & v1 & v2
                        & He & [= <- <- <- <-] & -> & H0 & H1' & H2').
  assert (Hold : Forall is_byte [e0; e1; e2; e3]).
  { rewrite <- He. unfold pixel_at. by apply get_slice_bytes. }
  rewrite !Forall_cons in Hold. rewrite !Forall_cons in Hc.
  destruct Hold as (He0 & He1 & He2 & He3 & _), Hc as (Hc0 & Hc1 & Hc2 & _).
  rewrite blend_transparent in H0, H1', H2' by done.
  injection H0 as <-. injection H1' as <-. injection H2' as <-.
  rewrite He. unfold is_byte in He3. do 3 f_equal. f_equal. lia.
Qed.

Lemma transparent_triangle_noop_witness :
  let s := Canvas (replicate 36 7) [] [] in
  pixels (draw_triangle 3 3 [(0, 0); (0, 2); (2, 1)] [10; 20; 30; 0] s).2 = pixels s.
Proof.
  intros s.
  apply (transparent_triangle_noop 3 3 [(0, 0); (0, 2); (2, 1)] 10 20 30 s).
  - lia.
  - lia.
  - reflexivity.
  - apply Forall_forall. intros z Hz. apply elem_of_replicate in Hz as [-> _].
    unfold is_byte. lia.
  - repeat constructor; unfold is_byte; lia.
Defined.

(** ** The rows a triangle can reach *)

(** Assigning one byte of the pixel [q] leaves every other pixel as it
    is. *)
Lemma pixel_at_insert_other px width height p q k v :
  len px = width * height * 4 ->
  in_image width height p -> in_image width height q -> p <> q -> 0 <= k < 4 ->
  pixel_at (<[Z.to_nat ((q.2 * width + q.1) * 4 + k) := v]> px) width p
  = pixel_at px width p.
Proof.
  intros Hl Hp Hq Hne Hk.
  rewrite (pixel_at_inside _ width height), (pixel_at_inside px width height);
    [| done | done | by unfold len in *; rewrite length_insert | done].
  assert (Hidx : p.2 * width + p.1 <> q.2 * width + q.1).
  { intros E. apply Hne. by eapply pixel_index_inj. }
  destruct Hp as [? ?], Hq as [? ?].
  assert (0 <= p.2 * width + p.1) by nia.
  assert (0 <= q.2 * width + q.1) by nia.
  apply list_eq. intros j.
  destruct (decide (j < 4)%nat).
  - rewrite !lookup_take_lt, !lookup_drop by done.
    apply list_lookup_insert_ne. lia.
  - by rewrite !lookup_take_ge by lia.
Qed.

(** Blending the pixel [(x, y)] changes no pixel of a set [K] that does
    not hold it, whatever the colour is and whether the blend returns or
    raises. *)
Lemma blend_pixel_elsewhere width height (K : Z * Z -> Prop) px0 color x y :
  in_image width height (x, y) -> ~ K (x, y) ->
  keeps (fun s => len (pixels s) = width * height * 4 /\
                  forall p, in_image width height p -> K p ->
                            pixel_at (pixels s) width p = pixel_at px0 width p)
        (fun _ => False) (blend_pixel color ((y * width + x) * 4)) (fun _ => True).
Proof.
  intros Hin HK.
  set (I := fun s : canvas => len (pixels s) = width * height * 4 /\
                  forall p, in_image width height p -> K p ->
                            pixel_at (pixels s) width p = pixel_at px0 width p).
  assert (Hidx : 0 <= (y * width + x) * 4).
  { destruct Hin as [? ?]. cbn [fst snd] in *. nia. }
  assert (Hset : forall k v, 0 <= k < 4 ->
            keeps I (fun _ => False) (assign_item ((y * width + x) * 4 + k) v)
                  (fun _ => True)).
  { intros k v Hk. apply keeps_assign_item; [| tauto].
    intros s l [Hl Hs] E. apply set_item_ok_inv in E as ->; [| lia].
    split; cbn [pixels].
    - unfold len in *. by rewrite length_insert.
    - intros p Hp HKp. rewrite <- (Hs p Hp HKp).
      apply (pixel_at_insert_other _ width height p (x, y)); try done.
      by intros ->. }
  assert (Hlift : forall A (r : res A), keeps I (fun _ => False) (lift r) (fun _ => True)).
  { intros A r. apply keeps_lift. destruct r; tauto. }
  unfold blend_pixel.
  eapply keeps_bind; [apply keeps_read_slice | intros existing _].
  eapply keeps_bind with (R := fun _ => True); [apply Hlift | intros ? _].
  eapply keeps_bind with (R := fun _ => True); [apply Hlift | intros ? _].
  eapply keeps_bind with (R := fun _ => True).
  { replace ((y * width + x) * 4) with ((y * width + x) * 4 + 0) at 1 by lia.
    apply Hset. lia. }
  intros _ _.
  eapply keeps_bind with (R := fun _ => True); [apply Hlift | intros ? _].
  eapply keeps_bind with (R := fun _ => True); [apply Hset; lia | intros _ _].
  eapply keeps_bind with (R := fun _ => True); [apply Hlift | intros ? _].
  eapply keeps_bind with (R := fun _ => True); [apply Hset; lia | intros _ _].
  eapply keeps_bind with (R := fun _ => True); [apply Hlift | intros ? _].
  apply Hset. lia.
Qed.

(** X6.  No pixel of a row above the topmost vertex or below the bottommost
    vertex is changed by [draw_triangle], whatever the colour is and
    whether the call returns or raises. *)
Theorem draw_triangle_rows (width height : Z) (a b c : Z * Z) (color : list Z)
        (s : canvas) :
  len (pixels s) = width * height * 4 ->
  let s' := (draw_triangle width height [a; b; c] color s).2 in
  forall p, in_image width height p ->
    p.2 < Z.min a.2 (Z.min b.2 c.2) \/ Z.max a.2 (Z.max b.2 c.2) < p.2 ->
    pixel_at (pixels s') width p = pixel_at (pixels s) width p.
Proof.
  intros Hl s'.
  destruct (sorted_three a b c) as (p0 & p1 & p2 & Hs & H0 & H2).
  rewrite <- H0, <- H2.
  set (K := fun p : Z * Z => p.2 < p0.2 \/ p2.2 < p.2).
  assert (G : keeps (fun s1 => len (pixels s1) = width * height * 4 /\
                       forall p, in_image width height p -> K p ->
                                 pixel_at (pixels s1) width p = pixel_at (pixels s) width p)
                    (fun _ => False)
                    (draw_triangle width height [a; b; c] color) (fun _ => True)).
  { unfold draw_triangle. rewrite Hs.
    eapply keeps_bind; [by apply keeps_step | intros _ _].
    case_match; [by apply keeps_ret |].
    apply keeps_for_each. intros y Hy%in_range.
    destruct ((y <? 0) || (height <=? y)) eqn:Hg; [by apply keeps_ret |].
    eapply keeps_bind with (R := fun _ => True).
    { apply keeps_lift. destruct (x_intersections _ _); tauto. }
    intros xs _. case_match; [| by apply keeps_ret].
    apply keeps_for_each. intros x Hx%in_range.
    eapply keeps_bind; [by apply keeps_step | intros _ _].
    apply blend_pixel_elsewhere.
    - unfold in_image. cbn [fst snd]. lia.
    - unfold K. cbn [fst snd]. lia. }
  destruct (G s) as [[_ H] _]; [by split |].
  intros p Hp HK. by apply H.
Qed.

Lemma draw_triangle_rows_witness :
  let s := blank 3 4 in
  let s' := (draw_triangle 3 4 [(0, 0); (0, 2); (2, 1)] [200; 100; 50; 128] s).2 in
  pixel_at (pixels s') 3 (1, 3) = pixel_at (pixels s) 3 (1, 3).
Proof.
  intros s s'.
  apply (draw_triangle_rows 3 4 (0, 0) (0, 2) (2, 1) [200; 100; 50; 128] s).
  - reflexivity.
  - unfold in_image. cbn. lia.
  - right. cbn. lia.
Defined.

(** ** The intersections of a scanline *)

Lemma sorted_three_le (a b c p0 p1 p2 : Z * Z) :
  sorted snd [a; b; c] = [p0; p1; p2] -> p0.2 <= p1.2 <= p2.2.
Proof.
  unfold sorted. cbn [foldr insert_by].
  destruct (Z.leb_spec b.2 c.2); cbn [insert_by];
    destruct (Z.leb_spec a.2 b.2); cbn [insert_by];
    try destruct (Z.leb_spec a.2 c.2); cbn [insert_by];
    intros [= <- <- <-]; lia.
Qed.

(** An edge that is not horizontal and spans the row is intersected. *)
Lemma edge_x_some y p1 p2 ox :
  p1.2 <> p2.2 -> Z.min p1.2 p2.2 <= y <= Z.max p1.2 p2.2 ->
  edge_x y p1 p2 = Ok ox -> exists x, ox = Some x.
Proof.
  intros Hne Hy. unfold edge_x.
  destruct (Z.eqb_spec p1.2 p2.2); [done |].
  destruct ((y <? Z.min p1.2 p2.2) || (Z.max p1.2 p2.2 <? y)) eqn:E; [lia |].
  destruct (int_truediv _ _); cbn [rbind]; [| done].
  destruct (float_of_int (p2.1 - p1.1)); cbn [rbind]; [| done].
  destruct (float_of_int p1.1); cbn [rbind]; [| done].
  destruct (int_of_float _); cbn [rbind]; [| done].
  intros [= <-]. eauto.
Qed.

(** X16.  On every scanline between the top and the bottom vertex of a
    triangle that is not degenerate, the walk over the three edges finds two
    or three intersections whenever it does not raise: the test
    [len(x_intersections) >= 2] never skips a row. *)
Theorem scanline_intersections (a b c p0 p1 p2 : Z * Z) (y : Z) (xs : list Z) :
  sorted snd [a; b; c] = [p0; p1; p2] ->
  p2.2 <> p0.2 ->
  p0.2 <= y <= p2.2 ->
  x_intersections y [(p0, p1); (p1, p2); (p2, p0)] = Ok xs ->
  2 <= len xs <= 3.
Proof.
  intros Hs Hnd Hy. apply sorted_three_le in Hs.
  cbn [x_intersections].
  destruct (edge_x y p0 p1) as [o1 |] eqn:E1; cbn [rbind]; [| done].
  destruct (edge_x y p1 p2) as [o2 |] eqn:E2; cbn [rbind]; [| done].
  destruct (edge_x y p2 p0) as [o3 |] eqn:E3; cbn [rbind]; [| done].
  intros [= <-].
  destruct (edge_x_some y p2 p0 o3) as [x3 ->]; [lia | lia | done |].
  destruct (Z.le_gt_cases y p1.2) as [Hle | Hgt].
  - destruct (Z.eq_dec p0.2 p1.2) as [Heq | Hne].
    + destruct (edge_x_some y p1 p2 o2) as [x2 ->]; [lia | lia | done |].
      destruct o1; unfold len; cbn; lia.
    + destruct (edge_x_some y p0 p1 o1) as [x1 ->]; [lia | lia | done |].
      destruct o2; unfold len; cbn; lia.
  - destruct (edge_x_some y p1 p2 o2) as [x2 ->]; [lia | lia | done |].
    destruct o1; unfold len; cbn; lia.
Qed.

Lemma scanline_intersections_witness :
  2 <= len [2; 2; 0] <= 3.
Proof.
  apply (scanline_intersections (0, 0) (0, 2) (2, 1) (0, 0) (2, 1) (0, 2) 1 [2; 2; 0]).
  - reflexivity.
  - cbn. lia.
  - cbn. lia.
  - vm_compute. reflexivity.
Defined.

(** ** The fill loop of the composers *)

Lemma range_step_4 n :
  range_step 0 n 4 = (fun i : nat => 4 * Z.of_nat i) <$> seq 0 (Z.to_nat ((n + 3) / 4)).
Proof.
  unfold range_step. replace (n - 0 + 4 - 1) with (n + 3) by lia. done.
Qed.

Lemma clear_loop (k : nat) : forall (a : nat) (rest : list Z) t c,
  (k = 0%nat -> rest = []) ->
  (0 < k -> 4 * (k - 1) < length rest <= 4 * k)%nat ->
  for_each ((fun i : nat => 4 * Z.of_nat i) <$> seq a k)
           (fun i => assign_slice i (i + 4) [0; 0; 0; 0])
           (Canvas (replicate (4 * a) 0 ++ rest) t c)
  = (Ok tt, Canvas (replicate (4 * (a + k)) 0) t c).
Proof.
  induction k as [| k IH]; intros a rest t c H0 Hk.
  - rewrite H0 by done. cbn [seq fmap list_fmap for_each]. unfold ret.
    by rewrite app_nil_r, Nat.add_0_r.
  - specialize (Hk ltac:(lia)).
    cbn [seq fmap list_fmap for_each]. unfold bind at 1. unfold assign_slice at 1.
    cbn [pixels touched calls].
    assert (E : set_slice (replicate (4 * a) 0 ++ rest) (4 * Z.of_nat a)
                          (4 * Z.of_nat a + 4) [0; 0; 0; 0]
                = replicate (4 * S a) 0 ++ drop 4 rest).
    { unfold set_slice, clip, len. rewrite length_app, length_replicate.
      destruct (Z.ltb_spec (4 * Z.of_nat a) 0); [lia |].
      destruct (Z.ltb_spec (4 * Z.of_nat a + 4) 0); [lia |].
      replace (Z.to_nat (Z.min (4 * Z.of_nat a) (Z.of_nat (4 * a + length rest))))
        with (length (replicate (4 * a) 0)) by (rewrite length_replicate; lia).
      rewrite take_app_length.
      replace (Z.to_nat (Z.max _ _))
        with (length (replicate (4 * a) 0%Z) + Nat.min 4 (length rest))%nat
        by (rewrite length_replicate; lia).
      rewrite drop_app_add.
      replace (4 * S a)%nat with (4 * a + 4)%nat by lia.
      rewrite replicate_add, <- app_assoc. do 2 f_equal.
      destruct (decide (4 <= length rest)%nat).
      - by rewrite Nat.min_l by lia.
      - rewrite Nat.min_r by lia. by rewrite !drop_ge by lia. }
    rewrite E, IH.
    + do 3 f_equal. lia.
    + intros ->. apply drop_ge. lia.
    + intros Hk'. rewrite length_drop. lia.
Qed.

(** On a buffer of [n] bytes, [n] a multiple of four, the loop leaves [n]
    zero bytes. *)
Lemma clear_multiple n s :
  0 <= n -> n mod 4 = 0 -> len (pixels s) = n ->
  clear s = (Ok tt, Canvas (replicate (Z.to_nat n) 0) (touched s) (calls s)).
Proof.
  intros Hn Hm Hl. unfold clear. rewrite range_step_4, Hl.
  destruct s as [px t c]. cbn [pixels touched calls] in *.
  assert (Hq : (n + 3) / 4 = n / 4) by (Z.to_euclidean_division_equations; lia).
  assert (Hd : n = 4 * (n / 4)) by (Z.to_euclidean_division_equations; lia).
  rewrite Hq. set (k := Z.to_nat (n / 4)).
  assert (Hk : Z.to_nat n = (4 * k)%nat) by (unfold k; lia).
  pose proof (clear_loop k 0 px t c) as H.
  change (replicate (4 * 0) 0 ++ px) with px in H. change (0 + k)%nat with k in H.
  rewrite Hk. apply H.
  - intros Hk0. apply nil_length_inv. unfold len in Hl. lia.
  - unfold len in Hl. lia.
Qed.

(** X8.  The loop [for i in range(0, len(pixels), 4): pixels[i:i+4] = zeros]
    always returns and leaves nothing but zero bytes, whatever the buffer
    held; a length that is not a multiple of four is rounded up to the next
    one by the last slice assignment. *)
Theorem clear_zeroes (s : canvas) :
  clear s = (Ok tt, Canvas (replicate (4 * Z.to_nat ((len (pixels s) + 3) / 4)) 0)
                           (touched s) (calls s)).
Proof.
  unfold clear. rewrite range_step_4.
  destruct s as [px t c]. cbn [pixels touched calls].
  set (k := Z.to_nat ((len px + 3) / 4)).
  assert (Hk : 4 * Z.of_nat k - 3 <= len px + 0 <= 4 * Z.of_nat k).
  { unfold k, len. rewrite Z2Nat.id by (apply Z.div_pos; lia).
    pose proof (Z.div_mod (Z.of_nat (length px) + 3) 4 ltac:(lia)).
    pose proof (Z.mod_pos_bound (Z.of_nat (length px) + 3) 4 ltac:(lia)). lia. }
  unfold len in Hk.
  pose proof (clear_loop k 0 px t c) as H.
  change (replicate (4 * 0) 0 ++ px) with px in H. change (0 + k)%nat with k in H.
  apply H.
  - intros Hk0. apply nil_length_inv. lia.
  - lia.
Qed.

(** ** The raw image data *)

Lemma bind_ext_in {A B} (f g : A -> list B) (l : list A) :
  (forall x, x ∈ l -> f x = g x) -> l ≫= f = l ≫= g.
Proof.
  induction l as [| x l IH]; intros H; [done |].
  cbn. rewrite (H x) by left. f_equal. apply IH. intros y Hy. apply H. by right.
Qed.

(** The scanline loop as one concatenation. *)
Lemma raw_data_rows width height px :
  raw_data width height px =
    range 0 height ≫= fun y =>
      0 :: (range 0 width ≫= fun x =>
              get_slice px ((y * width + x) * 4) ((y * width + x) * 4 + 4)).
Proof.
  unfold raw_data.
  rewrite (fold_left_ext _
    (fun raw y => raw ++ (0 :: (range 0 width ≫= fun x =>
        get_slice px ((y * width + x) * 4) ((y * width + x) * 4 + 4))))).
  2: { intros raw y. cbv beta. rewrite fold_left_append. by rewrite <- app_assoc. }
  by rewrite fold_left_append.
Qed.

Lemma get_slice_app {A} (l extra : list A) i :
  0 <= i -> i + 4 <= len l ->
  get_slice (l ++ extra) i (i + 4) = get_slice l i (i + 4).
Proof.
  intros Hi Hl. unfold len in Hl.
  rewrite !get_slice_inside by (unfold len; rewrite ?length_app; lia).
  rewrite drop_app_le by lia. apply take_app_le. rewrite length_drop. lia.
Qed.

(** X9.  [create_png] does not check the length of the buffer: the bytes after
    the first [width * height * 4] are never read. *)
Theorem create_png_ignores_tail (zlib_compress : list Z -> Z -> list Z)
        (width height : Z) (px extra : list Z) :
  0 <= width -> 0 <= height ->
  len px = width * height * 4 ->
  create_png zlib_compress width height (px ++ extra)
  = create_png zlib_compress width height px.
Proof.
  intros Hw Hh Hl.
  assert (E : raw_data width height (px ++ extra) = raw_data width height px).
  { rewrite !raw_data_rows. apply bind_ext_in. intros y Hy%in_range. f_equal.
    apply bind_ext_in. intros x Hx%in_range. apply get_slice_app; nia. }
  unfold create_png. by rewrite E.
Qed.

Lemma create_png_ignores_tail_witness :
  create_png (fun d _ => d) 1 1 ([1; 2; 3; 4] ++ [9; 9])
  = create_png (fun d _ => d) 1 1 [1; 2; 3; 4].
Proof.
  apply (create_png_ignores_tail (fun d _ => d) 1 1 [1; 2; 3; 4] [9; 9]);
    (lia || reflexivity).
Defined.

(** *** Scanlines of [k] bytes behind a filter byte *)

Lemma scan_length (n k : nat) (px : list Z) :
  (n * k <= length px)%nat ->
  length (seq 0 n ≫= fun y => 0 :: take k (drop (y * k) px)) = (n * (k + 1))%nat.
Proof.
  induction n as [| n IH]; intros Hl; [done |].
  rewrite seq_S, bind_app, length_app, IH by lia.
  cbn [mbind list_bind app Nat.add]. rewrite app_nil_r. cbn [length].
  rewrite length_take, length_drop. lia.
Qed.

Lemma scan_lookup (n k : nat) (px : list Z) (y j : nat) :
  (n * k <= length px)%nat -> (y < n)%nat -> (j < k)%nat ->
  (seq 0 n ≫= fun y => 0 :: take k (drop (y * k) px)) !! (y * (k + 1) + 1 + j)%nat
  = px !! (y * k + j)%nat.
Proof.
  induction n as [| n IH]; intros Hl Hy Hj; [lia |].
  rewrite seq_S, bind_app.
  pose proof (scan_length n k px ltac:(lia)) as Hlen.
  destruct (decide (y < n)%nat) as [Hlt | Hge].
  - rewrite lookup_app_l by (rewrite Hlen; nia). apply IH; lia.
  - assert (y = n) by lia. subst y.
    rewrite lookup_app_r by (rewrite Hlen; lia). rewrite Hlen.
    replace (n * (k + 1) + 1 + j - n * (k + 1))%nat with (S j) by lia.
    cbn [mbind list_bind app Nat.add]. rewrite app_nil_r.
    change (take k (drop (n * k) px) !! j = px !! (n * k + j)%nat).
    rewrite lookup_take_lt by done. by rewrite lookup_drop.
Qed.

Lemma scanlines_length width height px :
  0 <= width -> 0 <= height ->
  len px = width * height * 4 ->
  len (scanlines width height px) = height * (4 * width + 1).
Proof.
  intros Hw Hh Hl. unfold scanlines, len in *.
  rewrite scan_length by nia. nia.
Qed.

(** X10.  The data handed to [zlib.compress] has one filter byte and four bytes
    per pixel for every row. *)
Theorem raw_data_length (width height : Z) (px : list Z) :
  0 <= width -> 0 <= height ->
  len px = width * height * 4 ->
  len (raw_data width height px) = height * (4 * width + 1).
Proof.
  intros Hw Hh Hl.
  rewrite raw_data_scanlines by done.
  by apply scanlines_length.
Qed.

Lemma raw_data_length_witness :
  len (raw_data 2 3 (replicate 24 7)) = 3 * (4 * 2 + 1).
Proof. apply (raw_data_length 2 3 (replicate 24 7)); (lia || reflexivity). Defined.

Lemma scanlines_inj width height px1 px2 :
  0 <= width -> 0 <= height ->
  len px1 = width * height * 4 -> len px2 = width * height * 4 ->
  scanlines width height px1 = scanlines width height px2 -> px1 = px2.
Proof.
  intros Hw Hh H1 H2 E. unfold scanlines, len in *.
  set (k := Z.to_nat (4 * width)) in *. set (n := Z.to_nat height) in *.
  assert (Hn1 : length px1 = (n * k)%nat) by nia.
  assert (Hn2 : length px2 = (n * k)%nat) by nia.
  apply list_eq. intros i.
  destruct (decide (i < n * k)%nat) as [Hi | Hi].
  2: { by rewrite !lookup_ge_None_2 by lia. }
  assert (Hk : (0 < k)%nat) by nia.
  pose proof (Nat.div_mod_eq i k) as Hdm.
  pose proof (Nat.mod_upper_bound i k ltac:(lia)) as Hm.
  assert (Hy : (i / k < n)%nat) by (apply Nat.Div0.div_lt_upper_bound; lia).
  pose proof (scan_lookup n k px1 (i / k) (i mod k) ltac:(lia) Hy Hm) as L1.
  pose proof (scan_lookup n k px2 (i / k) (i mod k) ltac:(lia) Hy Hm) as L2.
  rewrite E in L1. rewrite L1 in L2.
  by replace (i / k * k + i mod k)%nat with i in L2 by lia.
Qed.

(** ** Different images give different streams *)

Section PngInjective.

Variable zlib_compress : list Z -> Z -> list Z.
Variable zlib_decompress : list Z -> option (list Z).
Hypothesis zlib_roundtrip :
  forall data level, zlib_decompress (zlib_compress data level) = Some data.

Lemma be32_inj v1 v2 :
  in_u32 v1 = true -> in_u32 v2 = true -> be32 v1 = be32 v2 -> v1 = v2.
Proof.
  intros H1 H2 E.
  destruct (be32_value v1) as [E1 _]; [unfold in_u32 in H1; lia |].
  destruct (be32_value v2) as [E2 _]; [unfold in_u32 in H2; lia |].
  by rewrite <- E1, <- E2, E.
Qed.

Lemma chunk_inj tag p1 p2 rest1 rest2 :
  in_u32 (len p1) = true -> in_u32 (len p2) = true ->
  chunk tag p1 ++ rest1 = chunk tag p2 ++ rest2 -> p1 = p2 /\ rest1 = rest2.
Proof.
  intros H1 H2 E. unfold chunk in E. rewrite <- !app_assoc in E.
  apply app_inj_1 in E as [El E]; [| done].
  apply be32_inj in El; [| done | done].
  apply app_inv_head in E.
  apply app_inj_1 in E as [Ep E]; [| unfold len in El; lia].
  split; [done |]. by apply app_inj_1 in E as [_ E].
Qed.

(** X11.  The stream determines the image: two calls of [create_png] that return
    the same bytes were given the same dimensions and the same pixels. *)
Theorem create_png_injective (w1 h1 : Z) (px1 : list Z) (w2 h2 : Z) (px2 out : list Z) :
  len px1 = w1 * h1 * 4 -> len px2 = w2 * h2 * 4 ->
  create_png zlib_compress w1 h1 px1 = Ok out ->
  create_png zlib_compress w2 h2 px2 = Ok out ->
  w1 = w2 /\ h1 = h2 /\ px1 = px2.
Proof.
  intros Hl1 Hl2. rewrite !create_png_unfold. cbv zeta.
  destruct (in_u32 w1) eqn:Ew1; cbn [andb]; [| discriminate].
  destruct (in_u32 h1) eqn:Eh1; cbn [andb]; [| discriminate].
  destruct (in_u32 (len (zlib_compress (raw_data w1 h1 px1) 9))) eqn:Ec1; [| discriminate].
  destruct (in_u32 w2) eqn:Ew2; cbn [andb]; [| discriminate].
  destruct (in_u32 h2) eqn:Eh2; cbn [andb]; [| discriminate].
  destruct (in_u32 (len (zlib_compress (raw_data w2 h2 px2) 9))) eqn:Ec2; [| discriminate].
  intros <-%Ok_inj E%Ok_inj.
  apply app_inv_head in E.
  apply chunk_inj in E as [Ehdr E]; [| done | done].
  apply chunk_inj in E as [Edat _]; [| done | done].
  apply app_inj_1 in Ehdr as [Ew Ehdr]; [| done].
  apply app_inj_1 in Ehdr as [Eh _]; [| done].
  apply be32_inj in Ew; [| done | done]. apply be32_inj in Eh; [| done | done].
  subst w1 h1. split; [done |]. split; [done |].
  apply (f_equal zlib_decompress) in Edat. rewrite !zlib_roundtrip in Edat.
  injection Edat as Edat.
  assert (0 <= w2 /\ 0 <= h2) as [Hw Hh] by (unfold in_u32 in *; lia).
  rewrite !raw_data_scanlines in Edat by done.
  by apply (scanlines_inj w2 h2).
Qed.

End PngInjective.

Lemma create_png_injective_witness :
  2 = 2 /\ 1 = 1 /\ [1; 2; 3; 4; 5; 6; 7; 8] = [1; 2; 3; 4; 5; 6; 7; 8].
Proof.
  apply (create_png_injective (fun d _ => d) Some (fun _ _ => eq_refl)
           2 1 [1; 2; 3; 4; 5; 6; 7; 8] 2 1 [1; 2; 3; 4; 5; 6; 7; 8]
           [137; 80; 78; 71; 13; 10; 26; 10;
            0; 0; 0; 13; 73; 72; 68; 82; 0; 0; 0; 2; 0; 0; 0; 1; 8; 6; 0; 0; 0;
            244; 34; 127; 138;
            0; 0; 0; 9; 73; 68; 65; 84; 0; 1; 2; 3; 4; 5; 6; 7; 8; 251; 216; 230; 255;
            0; 0; 0; 0; 73; 69; 78; 68; 174; 66; 96; 130]);
    try reflexivity; vm_compute; reflexivity.
Defined.

(** ** The composers hand a whole image to the encoder *)

Lemma encodes_bind {A} zc n width height P Q (m : M A) (k : A -> M (list Z)) :
  returns P m Q -> (forall a, encodes zc n width height Q (k a)) ->
  encodes zc n width height P (bind m k).
Proof.
  intros Hm Hk s Hs. destruct (Hm s Hs) as (a & E & HQ). unfold bind.
  destruct (m s) as [r s1]. cbn in E, HQ. subst r. by apply Hk.
Qed.

Lemma encodes_lift_bind {A} zc n width height P (r : res A) a (k : A -> M (list Z)) :
  r = Ok a -> encodes zc n width height P (k a) ->
  encodes zc n width height P (bind (lift r) k).
Proof. intros -> Hk s Hs. unfold bind, lift. by apply Hk. Qed.

Lemma encodes_to_png zc n cs width height :
  encodes zc n width height (tracked n cs) (to_png zc width height).
Proof. intros s [Hs _]. by split. Qed.

Lemma blend_safe_arrow : blend_safe [255; 255; 255; 176] = true.
Proof.
  apply blend_safe_bytes; [reflexivity |].
  rewrite !Forall_cons. unfold is_byte. repeat split; (lia || done).
Qed.

Ltac run_png :=
  lazymatch goal with
  | |- encodes _ _ _ _ _ (bind (lift _) _) =>
      eapply encodes_lift_bind; [vm_compute; reflexivity | cbv beta; run_png]
  | |- encodes _ _ _ _ _ (bind _ _) => eapply encodes_bind; [run_png | intros _; run_png]
  | |- encodes _ _ _ _ _ (to_png _ _ _) => apply encodes_to_png
  | |- returns _ (bind (lift _) _) _ =>
      eapply returns_lift_bind; [vm_compute; reflexivity | cbv beta; run_png]
  | |- returns _ (bind _ _) _ => eapply returns_bind; [run_png | intros _; run_png]
  | |- returns _ (if ?b then _ else _) _ =>
      let v := eval vm_compute in b in change b with v; cbv iota; run_png
  | |- returns _ (draw_circle _ _ _ _ _ _) _ =>
      apply returns_circle;
      [reflexivity | reflexivity | repeat constructor; unfold is_byte; lia]
  | |- returns _ (draw_triangle _ _ _ _) _ =>
      apply returns_triangle;
      [reflexivity | exact blend_safe_arrow | vm_compute; reflexivity]
  | |- returns _ clear _ => apply returns_clear; reflexivity
  | |- returns _ (allocate _) _ => apply returns_allocate; lia
  | |- returns _ (ret tt) _ => apply returns_ret
  end.

Ltac encodes_of rtn :=
  unfold rtn; cbv zeta; run_png.

Lemma icon_encodes zc size :
  size ∈ sizes ->
  encodes zc (size * size * 4) size size (fun s => calls s = [])
          (create_icon zc size).
Proof.
  intros Hs. unfold sizes in Hs.
  repeat (apply elem_of_cons in Hs as [-> | Hs]); [| | | | by apply elem_of_nil in Hs];
    encodes_of @create_icon.
Qed.

Lemma recording_encodes zc size :
  size ∈ sizes ->
  encodes zc (size * size * 4) size size (fun s => calls s = [])
          (create_recording_icon zc size).
Proof.
  intros Hs. unfold sizes in Hs.
  repeat (apply elem_of_cons in Hs as [-> | Hs]); [| | | | by apply elem_of_nil in Hs];
    encodes_of @create_recording_icon.
Qed.

(** X12.  For every size of the generator, no drawing step of a composer raises:
    the composer ends with a buffer of [size * size] RGBA pixels, and what
    it returns is what [create_png] returns for this buffer. *)
Theorem composers_encode (zlib_compress : list Z -> Z -> list Z) (size : Z) :
  size ∈ sizes ->
  let r := create_icon zlib_compress size fresh in
  let r' := create_recording_icon zlib_compress size fresh in
  (len (pixels r.2) = size * size * 4 /\ Forall is_byte (pixels r.2) /\
   r.1 = create_png zlib_compress size size (pixels r.2)) /\
  (len (pixels r'.2) = size * size * 4 /\ Forall is_byte (pixels r'.2) /\
   r'.1 = create_png zlib_compress size size (pixels r'.2)).
Proof.
  intros Hs r r'. split.
  - by destruct (icon_encodes zlib_compress size Hs fresh eq_refl) as [[? ?] ?].
  - by destruct (recording_encodes zlib_compress size Hs fresh eq_refl) as [[? ?] ?].
Qed.

Lemma composers_encode_witness :
  let r := create_icon (fun d _ => d) 32 fresh in
  len (pixels r.2) = 32 * 32 * 4 /\ Forall is_byte (pixels r.2) /\
  r.1 = create_png (fun d _ => d) 32 32 (pixels r.2).
Proof.
  assert (Hs : 32 ∈ sizes) by (unfold sizes; apply elem_of_cons; right; left).
  destruct (composers_encode (fun d _ => d) 32 Hs) as [H _]. exact H.
Defined.

(** ** The files of the generator *)

Lemma in_sizes size : size ∈ sizes -> size = 16 \/ size = 32 \/ size = 48 \/ size = 128.
Proof.
  unfold sizes. intros Hs.
  repeat (apply elem_of_cons in Hs as [-> | Hs]); [tauto | tauto | tauto | tauto |].
  by apply elem_of_nil in Hs.
Qed.

(** An encoder result on a whole image of a generator size, for a
    compressor that keeps its output below [2^32] bytes. *)
Lemma create_png_returns zc size px :
  (forall d, len d < 2 ^ 31 -> len (zc d 9) < 2 ^ 32) ->
  size ∈ sizes -> len px = size * size * 4 ->
  exists out, create_png zc size size px = Ok out.
Proof.
  intros Hz Hs Hl. rewrite create_png_unfold. cbv zeta.
  assert (Hr : len (raw_data size size px) < 2 ^ 31).
  { apply in_sizes in Hs. rewrite raw_data_scanlines, scanlines_length by lia.
    destruct Hs as [-> | [-> | [-> | ->]]]; lia. }
  assert (E1 : in_u32 size = true).
  { apply in_sizes in Hs. destruct Hs as [-> | [-> | [-> | ->]]]; reflexivity. }
  assert (E2 : in_u32 (len (zc (raw_data size size px) 9)) = true).
  { specialize (Hz _ Hr). unfold in_u32, len in *. lia. }
  rewrite E1, E2. cbn [andb]. eauto.
Qed.

Lemma composers_return zc size :
  (forall d, len d < 2 ^ 31 -> len (zc d 9) < 2 ^ 32) ->
  size ∈ sizes ->
  exists png rec,
    (create_icon zc size fresh).1 = Ok png /\
    (create_recording_icon zc size fresh).1 = Ok rec.
Proof.
  intros Hz Hs.
  destruct (icon_encodes zc size Hs fresh eq_refl) as [[Hl _] E].
  destruct (recording_encodes zc size Hs fresh eq_refl) as [[Hl' _] E'].
  destruct (create_png_returns zc size _ Hz Hs Hl) as [png Hpng].
  destruct (create_png_returns zc size _ Hz Hs Hl') as [rec Hrec].
  exists png, rec. by rewrite E, E', Hpng, Hrec.
Qed.

(** Saving one file: open (truncate), then write the data. *)
Lemma save_file name data (after : ST world unit) w :
  (open_wb name ;; let* d := lift (Ok data) in write name d ;; after) w
  = after (World (<[name := data]> (files w)) (stdout w)).
Proof.
  unfold bind, open_wb, lift, write. cbn [files stdout].
  by rewrite lookup_insert_eq, insert_insert_eq.
Qed.

Lemma str_sizes : str 16 = "16"%string /\ str 32 = "32"%string /\
                  str 48 = "48"%string /\ str 128 = "128"%string.
Proof. repeat split; reflexivity. Qed.

(** X13.  With a compressor that keeps its output below [2^32] bytes, a run of
    the generator returns, leaves in each of its eight files the PNG that
    the composer returns for the size, and prints its fifteen lines. *)
Theorem generate_writes (zlib_compress : list Z -> Z -> list Z) (w : world) :
  (forall d, len d < 2 ^ 31 -> len (zlib_compress d 9) < 2 ^ 32) ->
  let r := generate zlib_compress w in
  r.1 = Ok tt /\
  (forall size, size ∈ sizes ->
     exists png rec,
       (create_icon zlib_compress size fresh).1 = Ok png /\
       (create_recording_icon zlib_compress size fresh).1 = Ok rec /\
       files r.2 !! ("icon-" +:+ str size +:+ ".png")%string = Some png /\
       files r.2 !! ("icon-recording-" +:+ str size +:+ ".png")%string = Some rec) /\
  stdout r.2 = stdout w ++
    ["Generating normal icons...";
     "Created: icon-16.png"; "Created: icon-32.png";
     "Created: icon-48.png"; "Created: icon-128.png";
     String (Ascii.ascii_of_nat 10) "Generating recording icons...";
     "Created: icon-recording-16.png"; "Created: icon-recording-32.png";
     "Created: icon-recording-48.png"; "Created: icon-recording-128.png";
     String (Ascii.ascii_of_nat 10) "All icons generated successfully!";
     "These icons feature:";
     "- Blue background with record button and play arrow";
     "- Green corner indicators (on larger sizes)";
     "- Recording icons with red theme and white center dot"]%string.
Proof.
  intros Hz r.
  assert (H16 : 16 ∈ sizes) by (unfold sizes; rewrite !elem_of_cons; tauto).
  assert (H32 : 32 ∈ sizes) by (unfold sizes; rewrite !elem_of_cons; tauto).
  assert (H48 : 48 ∈ sizes) by (unfold sizes; rewrite !elem_of_cons; tauto).
  assert (H128 : 128 ∈ sizes) by (unfold sizes; rewrite !elem_of_cons; tauto).
  destruct (composers_return zlib_compress 16 Hz H16) as (p16 & r16 & Ep16 & Er16).
  destruct (composers_return zlib_compress 32 Hz H32) as (p32 & r32 & Ep32 & Er32).
  destruct (composers_return zlib_compress 48 Hz H48) as (p48 & r48 & Ep48 & Er48).
  destruct (composers_return zlib_compress 128 Hz H128) as (p128 & r128 & Ep128 & Er128).
  destruct str_sizes as (S16 & S32 & S48 & S128).
  assert (E : r = (Ok tt,
    World (<["icon-recording-128.png"%string := r128]>
           (<["icon-recording-48.png"%string := r48]>
           (<["icon-recording-32.png"%string := r32]>
           (<["icon-recording-16.png"%string := r16]>
           (<["icon-128.png"%string := p128]>
           (<["icon-48.png"%string := p48]>
           (<["icon-32.png"%string := p32]>
           (<["icon-16.png"%string := p16]> (files w)))))))))
          (stdout w ++
    ["Generating normal icons...";
     "Created: icon-16.png"; "Created: icon-32.png";
     "Created: icon-48.png"; "Created: icon-128.png";
     String (Ascii.ascii_of_nat 10) "Generating recording icons...";
     "Created: icon-recording-16.png"; "Created: icon-recording-32.png";
     "Created: icon-recording-48.png"; "Created: icon-recording-128.png";
     String (Ascii.ascii_of_nat 10) "All icons generated successfully!";
     "These icons feature:";
     "- Blue background with record button and play arrow";
     "- Green corner indicators (on larger sizes)";
     "- Recording icons with red theme and white center dot"]%string))).
  { subst r. unfold generate, sizes. cbn [for_each].
    rewrite Ep16, Ep32, Ep48, Ep128, Er16, Er32, Er48, Er128, S16, S32, S48, S128.
    cbn [String.append].
    cbv beta iota delta [bind print open_wb write lift ret files stdout].
    rewrite !lookup_insert_eq, !insert_insert_eq.
    cbn [default id app]. rewrite <- !app_assoc. cbn [app]. reflexivity. }
  rewrite E. cbn [fst snd files stdout].
  split; [done |]. split; [| done].
  intros size Hs. apply in_sizes in Hs.
  destruct Hs as [-> | [-> | [-> | ->]]].
  - exists p16, r16.
    change ("icon-" +:+ str 16 +:+ ".png")%string with "icon-16.png"%string.
    change ("icon-recording-" +:+ str 16 +:+ ".png")%string
      with "icon-recording-16.png"%string.
    split; [exact Ep16 |]. split; [exact Er16 |]. split.
    + rewrite ?lookup_insert_ne by (intros Hne; discriminate Hne). apply lookup_insert_eq.
    + rewrite ?lookup_insert_ne by (intros Hne; discriminate Hne). apply lookup_insert_eq.
  - exists p32, r32.
    change ("icon-" +:+ str 32 +:+ ".png")%string with "icon-32.png"%string.
    change ("icon-recording-" +:+ str 32 +:+ ".png")%string
      with "icon-recording-32.png"%string.
    split; [exact Ep32 |]. split; [exact Er32 |]. split.
    + rewrite ?lookup_insert_ne by (intros Hne; discriminate Hne). apply lookup_insert_eq.
    + rewrite ?lookup_insert_ne by (intros Hne; discriminate Hne). apply lookup_insert_eq.
  - exists p48, r48.
    change ("icon-" +:+ str 48 +:+ ".png")%string with "icon-48.png"%string.
    change ("icon-recording-" +:+ str 48 +:+ ".png")%string
      with "icon-recording-48.png"%string.
    split; [exact Ep48 |]. split; [exact Er48 |]. split.
    + rewrite ?lookup_insert_ne by (intros Hne; discriminate Hne). apply lookup_insert_eq.
    + rewrite ?lookup_insert_ne by (intros Hne; discriminate Hne). apply lookup_insert_eq.
  - exists p128, r128.
    change ("icon-" +:+ str 128 +:+ ".png")%string with "icon-128.png"%string.
    change ("icon-recording-" +:+ str 128 +:+ ".png")%string
      with "icon-recording-128.png"%string.
    split; [exact Ep128 |]. split; [exact Er128 |]. split.
    + rewrite ?lookup_insert_ne by (intros Hne; discriminate Hne). apply lookup_insert_eq.
    + rewrite ?lookup_insert_ne by (intros Hne; discriminate Hne). apply lookup_insert_eq.
Qed.

Lemma generate_writes_witness :
  let r := generate (fun d _ => d) (World ∅ []) in
  r.1 = Ok tt /\ length (stdout r.2) = 15%nat.
Proof.
  intros r.
  destruct (generate_writes (fun d _ => d) (World ∅ [])) as (H1 & _ & H3).
  - intros d Hd. lia.
  - split; [exact H1 |]. fold r in H3. rewrite H3. reflexivity.
Defined.

(** X14.  A run of the generator, whether it returns or raises, changes no file
    but its eight icons. *)
Theorem generate_frame (zlib_compress : list Z -> Z -> list Z) (w : world)
        (name : string) :
  (forall size, size ∈ sizes ->
     name <> ("icon-" +:+ str size +:+ ".png")%string /\
     name <> ("icon-recording-" +:+ str size +:+ ".png")%string) ->
  files (generate zlib_compress w).2 !! name = files w !! name.
Proof.
  intros Hn.
  set (I := fun w' : world => files w' !! name = files w !! name).
  assert (Hprint : forall line, keeps I (fun _ => False) (print line) (fun _ => True)).
  { intros line w' Hw'. by split. }
  assert (Hsave : forall n (r : res (list Z)), n <> name ->
            keeps I (fun _ => False)
                  (open_wb n ;; let* data := lift r in write n data ;;
                   print ("Created: " +:+ n))
                  (fun _ => True)).
  { intros n r Hne.
    eapply keeps_bind with (R := fun _ => True).
    { intros w' Hw'. split; [| done]. unfold I in *. cbn [open_wb snd files].
      by rewrite lookup_insert_ne. }
    intros _ _. eapply keeps_bind with (R := fun _ => True).
    { apply keeps_lift. destruct r; tauto. }
    intros data _. eapply keeps_bind with (R := fun _ => True); [| intros _ _; apply Hprint].
    intros w' Hw'. split; [| done]. unfold I in *. cbn [write snd files].
    by rewrite lookup_insert_ne. }
  assert (G : keeps I (fun _ => False) (generate zlib_compress) (fun _ => True)).
  { unfold generate.
    eapply keeps_bind; [apply Hprint | intros _ _].
    eapply keeps_bind.
    { apply keeps_for_each. intros size Hs. apply Hsave.
      destruct (Hn size Hs) as [H _]. congruence. }
    intros _ _. eapply keeps_bind; [apply Hprint | intros _ _].
    eapply keeps_bind.
    { apply keeps_for_each. intros size Hs. apply Hsave.
      destruct (Hn size Hs) as [_ H]. congruence. }
    intros _ _.
    repeat (eapply keeps_bind; [apply Hprint | intros _ _]).
    apply Hprint. }
  by destruct (G w).
Qed.

Lemma generate_frame_witness :
  let w := World {["manifest.json"%string := [123; 125]]} [] in
  files (generate (fun d _ => d) w).2 !! "manifest.json"%string = Some [123; 125].
Proof.
  intros w.
  rewrite (generate_frame (fun d _ => d) w "manifest.json").
  - reflexivity.
  - intros size Hs. apply in_sizes in Hs.
    destruct Hs as [-> | [-> | [-> | ->]]]; split; intros Hne; discriminate Hne.
Defined.

(** ** The alpha mask of an icon *)

(** The pixels that a returning fill has blended. *)
Lemma draw_triangle_scan width height points color p0 p1 p2 rest s s' :
  len (pixels s) = width * height * 4 -> len color = 4 ->
  sorted snd points = p0 :: p1 :: p2 :: rest ->
  draw_triangle width height points color s = (Ok tt, s') ->
  painted (blended color) width height
          (Canvas (pixels s) (touched s) (Triangle points color :: calls s))
          (if p2.2 =? p0.2 then []
           else scan_pixels (triangle_row width height p0 p1 p2) (range p0.2 (p2.2 + 1)))
          s'.
Proof.
  intros Hl Hc Hs E. unfold draw_triangle in E. rewrite Hs in E.
  apply bind_ok_inv in E as ([] & s0 & Ee & E).
  unfold enter in Ee. injection Ee as <-.
  set (s0 := Canvas (pixels s) (touched s) (Triangle points color :: calls s)) in *.
  assert (H0 : painted (blended color) width height s0 [] s0) by by apply painted_start.
  destruct (p2.2 =? p0.2).
  { by injection E as <-. }
  eapply (for_each_prefix
            (fun done => painted (blended color) width height s0
                           (scan_pixels (triangle_row width height p0 p1 p2) done)));
    [| exact H0 | exact E].
  intros done y rest' s1 s2 Ey H1 Eb. cbv beta in Eb.
  rewrite scan_pixels_snoc. unfold triangle_row at 2.
  destruct ((y <? 0) || (height <=? y)) eqn:Hy.
  { injection Eb as <-. by apply painted_more. }
  apply bind_ok_inv in Eb as (xs & sa & Ex & Eb).
  apply lift_ok_inv in Ex as [Ex ->]. rewrite Ex.
  destruct (2 <=? len xs).
  2: { injection Eb as <-. by apply painted_more. }
  assert (Hnd : NoDup (range p0.2 (p2.2 + 1))) by apply NoDup_range.
  eapply triangle_row_painted; [done | | lia | exact H1 | exact Eb].
  rewrite Ey in Hnd. apply NoDup_app in Hnd as (_ & Hnd & _).
  intros H. apply (Hnd y H). left.
Qed.

Lemma pixel_at_zeros n width height p :
  n = width * height * 4 -> in_image width height p ->
  pixel_at (replicate (Z.to_nat n) 0) width p = [0; 0; 0; 0].
Proof.
  intros -> Hp.
  destruct (pixel_index_inside width height p.1 p.2) as [H1 H2]; [apply Hp | apply Hp |].
  rewrite (pixel_at_inside _ width height) by (unfold len; rewrite ?length_replicate; lia || done).
  rewrite drop_replicate, take_replicate.
  by replace (4 `min` (Z.to_nat (width * height * 4) - Z.to_nat ((p.2 * width + p.1) * 4)))%nat
    with 4%nat by lia.
Qed.

Lemma returns_start size :
  returns (fun _ => True) (allocate (size * size * 4)) (zeroed (size * size * 4)).
Proof.
  intros s _. exists tt. unfold allocate, bytearray.
  destruct (Z.ltb_spec (size * size * 4) 0); [nia |]. by cbn.
Qed.

Lemma returns_clear_zeroed n :
  0 <= n -> n mod 4 = 0 -> returns (zeroed n) clear (zeroed n).
Proof.
  intros Hn Hm s Hs. exists tt.
  rewrite (clear_multiple n) by (done || (rewrite Hs; unfold len; rewrite length_replicate; lia)).
  by split.
Qed.

(** The background disc on the cleared buffer. *)
Lemma mask_first_circle size radius c0 c1 c2 :
  0 <= radius -> Forall is_byte [c0; c1; c2] ->
  returns (zeroed (size * size * 4))
          (draw_circle size size (size / 2) (size / 2) radius [c0; c1; c2; 255])
          (disc_mask size radius).
Proof.
  intros Hr Hb s Hs. exists tt. split; [apply draw_circle_returns |].
  assert (H0 : 0 <= size * size * 4) by nia.
  assert (Hl : len (pixels s) = size * size * 4).
  { rewrite Hs. unfold len. rewrite length_replicate. lia. }
  assert (Hbs : Forall is_byte (pixels s)).
  { rewrite Hs. apply Forall_replicate. unfold is_byte. lia. }
  assert (Hbc : Forall is_byte [c0; c1; c2; 255]).
  { rewrite !Forall_cons in Hb. rewrite !Forall_cons. unfold is_byte in *.
    repeat split; (tauto || lia). }
  split.
  - by destruct (draw_circle_sound size size (size / 2) (size / 2) radius
                   [c0; c1; c2; 255] eq_refl Hbc s (conj Hl Hbs)).
  - destruct (draw_circle_pixels size size (size / 2) (size / 2) radius
                [c0; c1; c2; 255] s Hl eq_refl) as [_ H].
    intros p Hp. destruct (H p Hp) as [Hin Hout]. split.
    + intros Hd. by rewrite Hin.
    + intros Hd. rewrite Hout by tauto. rewrite Hs. by eapply pixel_at_zeros.
Qed.

Lemma disk_grows cx cy r R p : 0 <= r <= R -> in_disk cx cy r p -> in_disk cx cy R p.
Proof. unfold in_disk. intros Hr Hd. nia. Qed.

Lemma disk_in_box cx cy r c R p :
  0 <= r ->
  (Z.abs (cx - c) + r) * (Z.abs (cx - c) + r)
  + (Z.abs (cy - c) + r) * (Z.abs (cy - c) + r) <= R * R ->
  in_disk cx cy r p -> in_disk c c R p.
Proof.
  unfold in_disk. intros Hr HR Hd.
  pose proof (Z.square_nonneg (p.1 - cx)). pose proof (Z.square_nonneg (p.2 - cy)).
  assert (Hx : - r <= p.1 - cx <= r) by (apply square_le_bound; lia).
  assert (Hy : - r <= p.2 - cy <= r) by (apply square_le_bound; lia).
  assert (Hx' : Z.abs (p.1 - c) <= Z.abs (cx - c) + r) by lia.
  assert (Hy' : Z.abs (p.2 - c) <= Z.abs (cy - c) + r) by lia.
  assert (Sx : (p.1 - c) * (p.1 - c) <= (Z.abs (cx - c) + r) * (Z.abs (cx - c) + r)).
  { rewrite <- Z.abs_square. apply Z.mul_le_mono_nonneg; lia. }
  assert (Sy : (p.2 - c) * (p.2 - c) <= (Z.abs (cy - c) + r) * (Z.abs (cy - c) + r)).
  { rewrite <- Z.abs_square. apply Z.mul_le_mono_nonneg; lia. }
  lia.
Qed.

(** An opaque circle inside the disc keeps the mask. *)
Lemma mask_circle size radius cx cy r c0 c1 c2 :
  Forall is_byte [c0; c1; c2] ->
  (cx = size / 2 /\ cy = size / 2 /\ r <= radius) \/
  (Z.abs (cx - size / 2) + r) * (Z.abs (cx - size / 2) + r)
  + (Z.abs (cy - size / 2) + r) * (Z.abs (cy - size / 2) + r) <= radius * radius ->
  returns (disc_mask size radius)
          (draw_circle size size cx cy r [c0; c1; c2; 255])
          (disc_mask size radius).
Proof.
  intros Hb Hin s [[Hl Hbs] Hm]. exists tt. split; [apply draw_circle_returns |].
  assert (Hbc : Forall is_byte [c0; c1; c2; 255]).
  { rewrite !Forall_cons in Hb. rewrite !Forall_cons. unfold is_byte in *.
    repeat split; (tauto || lia). }
  split.
  - by destruct (draw_circle_sound size size cx cy r [c0; c1; c2; 255] eq_refl Hbc s
                   (conj Hl Hbs)).
  - destruct (draw_circle_pixels size size cx cy r [c0; c1; c2; 255] s Hl eq_refl)
      as [_ H].
    intros p Hp. destruct (H p Hp) as [Hnew Hold], (Hm p Hp) as [Hm1 Hm2].
    assert (D : (0 <= r /\ in_disk cx cy r p) \/ (r < 0 \/ ~ in_disk cx cy r p))
      by (destruct (Z.lt_ge_cases r 0); destruct (in_disk_dec cx cy r p); tauto).
    destruct D as [[Hr Hd] | Hd].
    + assert (Hbig : in_disk (size / 2) (size / 2) radius p).
      { destruct Hin as [(-> & -> & Hle) | Hbox].
        - by apply (disk_grows _ _ r).
        - by apply (disk_in_box cx cy r). }
      split; [intros _; by rewrite Hnew | tauto].
    + rewrite Hold by done. by split.
Qed.

Lemma in_diskb_spec cx cy radius p : in_diskb cx cy radius p = true <-> in_disk cx cy radius p.
Proof. unfold in_diskb, in_disk. apply Z.leb_le. Qed.

(** A blended triangle inside the disc keeps the mask. *)
Lemma mask_triangle size radius points color :
  length points = 3%nat ->
  blend_safe color = true -> scan_safe size points = true ->
  fill_inside size size points (size / 2) (size / 2) radius = true ->
  returns (disc_mask size radius) (draw_triangle size size points color)
          (disc_mask size radius).
Proof.
  intros Hp Hsafe Hscan Hfill s [[Hl Hbs] Hm].
  destruct (draw_triangle_total size size points color Hsafe Hscan s (conj Hl Hbs))
    as [Hs' Hr].
  destruct (draw_triangle size size points color s) as [[[] | e] s'] eqn:E;
    cbn [fst snd] in *; [| done].
  exists tt. split; [done |]. split; [done |].
  pose proof (length_sorted snd points) as Hlen. rewrite Hp in Hlen.
  unfold fill_inside in Hfill.
  destruct (sorted snd points) as [| p0 [| p1 [| p2 rest]]] eqn:Hsort; try discriminate.
  destruct color as [| c0 [| c1 [| c2 [| A [| ? ?]]]]]; try discriminate.
  assert (HA : is_byte A).
  { unfold blend_safe in Hsafe. apply andb_true_iff in Hsafe as [_ HA].
    by apply is_byteb_spec. }
  pose proof (draw_triangle_scan size size points [c0; c1; c2; A] p0 p1 p2 rest s s'
                Hl eq_refl Hsort E) as (_ & _ & _ & _ & Hpx).
  cbn [pixels] in Hpx.
  apply Is_true_true, forallb_True in Hfill. rewrite Forall_forall in Hfill.
  intros p Hin. destruct (Hpx p Hin) as [Hnew Hold], (Hm p Hin) as [Hm1 Hm2].
  set (ws := if p2.2 =? p0.2 then []
             else scan_pixels (triangle_row size size p0 p1 p2) (range p0.2 (p2.2 + 1))) in *.
  assert (Hws : forall q, q ∈ ws -> in_disk (size / 2) (size / 2) radius q).
  { intros q Hq. apply in_diskb_spec, Is_true_true. apply Hfill.
    unfold ws in Hq. destruct (p2.2 =? p0.2); [by apply elem_of_nil in Hq | done]. }
  destruct (decide (p ∈ ws)) as [Hw | Hw].
  - split; [| intros Hd; exfalso; by apply Hd, Hws].
    intros Hd. specialize (Hm1 Hd).
    destruct (Hnew Hw) as (e0 & e1 & e2 & e3 & ? & ? & ? & A' & v0 & v1 & v2
                           & He & [= <- <- <- <-] & -> & _).
    rewrite He in Hm1. injection Hm1 as ->. cbn.
    f_equal. unfold is_byte in HA. lia.
  - rewrite (Hold Hw). by split.
Qed.

Ltac bytes3 := rewrite !Forall_cons; unfold is_byte; repeat split; (lia || done).

Ltac run_mask :=
  lazymatch goal with
  | |- ends _ (bind (lift _) _) _ =>
      eapply ends_lift_bind; [vm_compute; reflexivity | cbv beta; run_mask]
  | |- ends _ (bind _ _) _ => eapply ends_bind; [run_mask | intros _; run_mask]
  | |- ends _ (to_png _ _ _) _ => apply ends_to_png
  | |- returns _ (bind (lift _) _) _ =>
      eapply returns_lift_bind; [vm_compute; reflexivity | cbv beta; run_mask]
  | |- returns _ (bind _ _) _ => eapply returns_bind; [run_mask | intros _; run_mask]
  | |- returns _ (if ?b then _ else _) _ =>
      let v := eval vm_compute in b in change b with v; cbv iota; run_mask
  | |- returns (zeroed _) (draw_circle _ _ _ _ _ _) _ =>
      apply mask_first_circle; [lia | bytes3]
  | |- returns (disc_mask _ _) (draw_circle _ _ _ _ _ _) _ =>
      apply mask_circle;
      [bytes3
      | first [left; split; [reflexivity | split; [reflexivity | lia]]
              | right; vm_compute; intros Hc; discriminate Hc]]
  | |- returns (disc_mask _ _) (draw_triangle _ _ _ _) _ =>
      apply mask_triangle; [reflexivity | exact blend_safe_arrow
                            | vm_compute; reflexivity | vm_compute; reflexivity]
  | |- returns _ clear _ => apply returns_clear_zeroed; [lia | reflexivity]
  | |- returns _ (allocate _) _ => apply returns_start
  | |- returns _ (ret tt) _ => apply returns_ret
  end.

Lemma icon_mask_16 zc :
  ends (fun _ => True) (create_icon zc 16) (disc_mask 16 7).
Proof. unfold create_icon. cbv zeta. run_mask. Qed.

Lemma icon_mask_32 zc : ends (fun _ => True) (create_icon zc 32) (disc_mask 32 15).
Proof. unfold create_icon. cbv zeta. run_mask. Qed.

Lemma icon_mask_48 zc : ends (fun _ => True) (create_icon zc 48) (disc_mask 48 22).
Proof. unfold create_icon. cbv zeta. run_mask. Qed.

Lemma icon_mask_128 zc : ends (fun _ => True) (create_icon zc 128) (disc_mask 128 60).
Proof. unfold create_icon. cbv zeta. run_mask. Qed.

Lemma recording_mask_16 zc :
  ends (fun _ => True) (create_recording_icon zc 16) (disc_mask 16 7).
Proof. unfold create_recording_icon. cbv zeta. run_mask. Qed.

Lemma recording_mask_32 zc :
  ends (fun _ => True) (create_recording_icon zc 32) (disc_mask 32 15).
Proof. unfold create_recording_icon. cbv zeta. run_mask. Qed.

Lemma recording_mask_48 zc :
  ends (fun _ => True) (create_recording_icon zc 48) (disc_mask 48 22).
Proof. unfold create_recording_icon. cbv zeta. run_mask. Qed.

Lemma recording_mask_128 zc :
  ends (fun _ => True) (create_recording_icon zc 128) (disc_mask 128 60).
Proof. unfold create_recording_icon. cbv zeta. run_mask. Qed.

(** X15.  Every icon of the generator, normal or recording, is opaque exactly on
    its background disc, of radius [int(size * 0.47)] around the centre,
    and fully transparent black outside it. *)
Theorem icon_alpha_mask (zlib_compress : list Z -> Z -> list Z) (size radius : Z) :
  size ∈ sizes ->
  scaled size 47 100 = Ok radius ->
  let px := pixels (create_icon zlib_compress size fresh).2 in
  let px' := pixels (create_recording_icon zlib_compress size fresh).2 in
  forall p, in_image size size p ->
    (in_disk (size / 2) (size / 2) radius p ->
       pixel_at px size p !! 3%nat = Some 255 /\
       pixel_at px' size p !! 3%nat = Some 255) /\
    (~ in_disk (size / 2) (size / 2) radius p ->
       pixel_at px size p = [0; 0; 0; 0] /\ pixel_at px' size p = [0; 0; 0; 0]).
Proof.
  intros Hs Hr px px' p Hp.
  assert (G : disc_mask size radius (create_icon zlib_compress size fresh).2 /\
              disc_mask size radius (create_recording_icon zlib_compress size fresh).2).
  { apply in_sizes in Hs. destruct Hs as [-> | [-> | [-> | ->]]];
      vm_compute in Hr; injection Hr as <-; split.
    - by apply icon_mask_16.
    - by apply recording_mask_16.
    - by apply icon_mask_32.
    - by apply recording_mask_32.
    - by apply icon_mask_48.
    - by apply recording_mask_48.
    - by apply icon_mask_128.
    - by apply recording_mask_128. }
  destruct G as [[_ G1] [_ G2]].
  destruct (G1 p Hp) as [A1 B1], (G2 p Hp) as [A2 B2].
  split; intros Hd; split; auto.
Qed.

Lemma icon_alpha_mask_witness :
  let px := pixels (create_icon (fun d _ => d) 16 fresh).2 in
  let px' := pixels (create_recording_icon (fun d _ => d) 16 fresh).2 in
  (pixel_at px 16 (8, 1) !! 3%nat = Some 255 /\
   pixel_at px' 16 (8, 1) !! 3%nat = Some 255) /\
  (pixel_at px 16 (0, 0) = [0; 0; 0; 0] /\ pixel_at px' 16 (0, 0) = [0; 0; 0; 0]).
Proof.
  intros px px'.
  assert (Hs : 16 ∈ sizes) by (unfold sizes; left).
  assert (Hr : scaled 16 47 100 = Ok 7) by (vm_compute; reflexivity).
  pose proof (icon_alpha_mask (fun d _ => d) 16 7 Hs Hr) as H. cbv zeta in H.
  split.
  - apply (H (8, 1)); [unfold in_image | unfold in_disk];
      cbn [fst snd]; change (16 / 2) with 8; lia.
  - apply (H (0, 0)); [unfold in_image | unfold in_disk];
      cbn [fst snd]; change (16 / 2) with 8; lia.
Defined.

